(** * gittuf policy states: a shallow embedding of [internal/policy]

    The development follows the Go packages of the repository. Each Go
    package is a module of the same name; a function keeps its Go name.

    - Go pointers that the code tests against nil, or dereferences without
      a test, are [option]s; a nil dereference, a write to a nil map and an
      out-of-range slice bound are the outcome [Panic].
    - A Go [(value, error)] pair is a [result]; the errors of the packages
      are the constructors of [Error].
    - Go maps are [gmap]s; a map that the code writes to is an
      [option (gmap _ _)], [None] being the nil map.
    - The repository is go-git's in-memory storage: finite maps from
      reference names and object ids to their contents.
    - Loops that always end are structural fixpoints; the path resolver,
      which may run forever, takes fuel and answers [None] when it runs
      out. *)

From Stdlib Require Import ZArith NArith List Lia Ascii String.
From stdpp Require Import base option list strings gmap fin_maps.

Local Open Scope string_scope.
Local Open Scope list_scope.
Local Open Scope Z_scope.

(** ** Outcomes *)

Inductive Error : Type :=
  (* package policy *)
  | ErrMetadataNotFound
  | ErrInvalidPolicyTree
  | ErrDanglingDelegationMetadata
  | ErrNotRSLEntry
  | ErrDelegationNotFound
  | ErrPolicyExists
  (* go-git plumbing and storage *)
  | ErrReferenceNotFound
  | ErrObjectNotFound
  | ErrReferenceHasChanged
  (* package rsl *)
  | ErrRSLEntryDoesNotMatchRef
  | ErrNoRecordOfCommit
  | ErrRSLEntryNotFound
  | ErrInvalidRSLEntry
  (* envelope layer *)
  | ErrBelowThreshold
  | ErrUnknownSigningMethod
  (* errors of the codecs, the signer and the ancestry walk *)
  | ErrExternal (msg : string).

Inductive result (A : Type) : Type :=
  | Ok (a : A)
  | Err (e : Error)
  | Panic.

Arguments Ok {A} a.
Arguments Err {A} e.
Arguments Panic {A}.

#[global] Instance result_ret : MRet result := fun _ a => Ok a.

#[global] Instance result_bind : MBind result := fun _ _ f m =>
  match m with
  | Ok a => f a
  | Err e => Err e
  | Panic => Panic
  end.

(** An external call answers with a value or with an error message of its
    own; it never produces one of the package errors. *)
Definition lift {A : Type} (r : string + A) : result A :=
  match r with
  | inl msg => Err (ErrExternal msg)
  | inr a => Ok a
  end.

(** [if err := f(); err != nil { return err }] *)
Definition check (r : option string) : result unit :=
  match r with
  | Some msg => Err (ErrExternal msg)
  | None => Ok tt
  end.

(** A [for] loop over a slice that returns at the first error. *)
Fixpoint forEach {A B : Type} (f : A -> result B) (l : list A) : result (list B) :=
  match l with
  | [] => Ok []
  | a :: l' => b ← f a; bs ← forEach f l'; Ok (b :: bs)
  end.

(** ** go-git objects and references *)

Module plumbing.

(** An object id; 20 bytes in git, a number here. *)
Abbreviation Hash := N.
Definition ZeroHash : Hash := 0%N.
Definition IsZero (h : Hash) : bool := N.eqb h ZeroHash.

Inductive FileMode : Type := Dir | Regular.

Record TreeEntry : Type := {
  Name : string;
  Mode : FileMode;
  EntryHash : Hash
}.

End plumbing.

Module object.

Record Signature : Type := {
  Name : string;
  Email : string;
  When : Z
}.

(** The message of a commit. An RSL entry is a commit whose message
    carries the entry; the key/value text of the message is kept in its
    parsed form. *)
Inductive Message : Type :=
  | Text (s : string)
  | ReferenceEntryMessage (refName : string) (targetID : plumbing.Hash)
  | AnnotationEntryMessage (entryIDs : list plumbing.Hash) (skip : bool) (message : string).

Record Commit : Type := {
  Hash : plumbing.Hash;
  Author : Signature;
  Committer : Signature;
  PGPSignature : string;
  Message_ : Message;
  TreeHash : plumbing.Hash;
  ParentHashes : list plumbing.Hash
}.

Definition withHash (h : plumbing.Hash) (c : Commit) : Commit :=
  {| Hash := h; Author := Author c; Committer := Committer c;
     PGPSignature := PGPSignature c; Message_ := Message_ c;
     TreeHash := TreeHash c; ParentHashes := ParentHashes c |}.

Definition withSignature (sig : string) (c : Commit) : Commit :=
  {| Hash := Hash c; Author := Author c; Committer := Committer c;
     PGPSignature := sig; Message_ := Message_ c;
     TreeHash := TreeHash c; ParentHashes := ParentHashes c |}.

End object.

(** ** TUF metadata (package tuf) *)

Module tuf.

Inductive KeyKind : Type := PGP | Fulcio | ED25519 | ECDSA | RSA | OtherKeyType.

Record Key : Type := {
  KeyID : string;
  KeyType : KeyKind;
  Scheme : string;
  KeyVal : string
}.

Record Role : Type := {
  KeyIDs : list string;
  Threshold : Z
}.

(** The zero value [Role{}], what a Go map yields for an absent name. *)
Definition zeroRole : Role := {| KeyIDs := []; Threshold := 0 |}.

Record RootMetadata : Type := {
  RootVersion : Z;
  RootExpires : string;
  RootKeys : gmap string Key;
  RootRoles : gmap string Role
}.

(** [Delegation] embeds [Role]: [d.KeyIDs] is [KeyIDs (DRole d)]. *)
Record Delegation : Type := {
  Name : string;
  Paths : list string;
  Terminating : bool;
  DRole : Role
}.

Record Delegations : Type := {
  Keys : option (gmap string Key);
  Roles : list Delegation
}.

Record TargetsMetadata : Type := {
  Version : Z;
  Expires : string;
  Delegations_ : option Delegations
}.

End tuf.

(** ** DSSE envelopes (go-securesystemslib/dsse) *)

Module sslibdsse.

Record Signature : Type := {
  KeyID : string;
  Sig : string
}.

Record Envelope : Type := {
  PayloadType : string;
  Payload : string;
  Signatures : list Signature
}.

(** A verifier made from a public key. *)
Record Verifier : Type := { VerifierKey : tuf.Key }.

End sslibdsse.

(** ** What lies outside the repository

    Codecs (base64, JSON), signature primitives, object hashing, the
    clock, the git configuration and the ancestry walk of go-git are taken
    as they come. An external call that can fail answers [inl msg]. *)

Record Ext : Type := {
  (** [Envelope.DecodeB64Payload] followed by [json.Unmarshal] *)
  decodeRootMetadata : string -> string + tuf.RootMetadata;
  decodeTargetsMetadata : string -> string + tuf.TargetsMetadata;
  (** [TargetsMetadata.Validate] *)
  validateTargets : tuf.TargetsMetadata -> option string;
  (** one pattern of a delegation against a target path *)
  matchPattern : string -> string -> bool;
  (** signature primitive: key, envelope (its signed bytes), signature *)
  verifySignature : tuf.Key -> sslibdsse.Envelope -> string -> bool;
  (** [json.Unmarshal] and [json.Marshal] of envelopes and keys *)
  unmarshalEnvelope : string -> string + sslibdsse.Envelope;
  marshalEnvelope : sslibdsse.Envelope -> string + string;
  loadKeyFromBytes : string -> string + tuf.Key;
  marshalKey : tuf.Key -> string + string;
  (** object ids *)
  hashBlob : string -> plumbing.Hash;
  hashTree : list plumbing.TreeEntry -> plumbing.Hash;
  hashCommit : object.Commit -> plumbing.Hash;
  (** [signGitObject] over the commit without its signature *)
  signGitObject : object.Commit -> string + string;
  (** [getGitConfig]: user name and email *)
  gitConfig : string + (string * string);
  clockNow : Z;
  (** [commit.IsAncestor(other)], by object ids *)
  isAncestor : plumbing.Hash -> plumbing.Hash -> string + bool
}.

(** ** The repository (go-git, in-memory storage)

    The vendored go-git is not under src/. §3.1 and §4.1 of the spec give
    the store as object lookup by hash and references read and written
    under compare-and-set; objects are content-addressed. *)

Module git.

(** Modelled from the spec: [git.Repository] is not under src/. §3.1: a
    reference is a named pointer to a hash; objects are looked up by their
    hash. *)
Record Repository : Type := {
  refs : gmap string plumbing.Hash;
  blobs : gmap plumbing.Hash string;
  trees : gmap plumbing.Hash (list plumbing.TreeEntry);
  commits : gmap plumbing.Hash object.Commit
}.

Definition setRefs (repo : Repository) (r : gmap string plumbing.Hash) : Repository :=
  {| refs := r; blobs := blobs repo; trees := trees repo; commits := commits repo |}.

(** Modelled from the spec: [repo.Reference(name, true)] is not under
    src/. §4.1: resolve ref; a name that is not set is
    [ErrReferenceNotFound], the error [InitializeNamespace] tests for. *)
Definition Reference (repo : Repository) (name : string) : result plumbing.Hash :=
  match refs repo !! name with
  | Some h => Ok h
  | None => Err ErrReferenceNotFound
  end.

(** Modelled from the spec: [repo.Storer.SetReference] is not under
    src/. §3.1: a reference is a mutable pointer to a hash. *)
Definition SetReference (repo : Repository) (name : string) (h : plumbing.Hash) : Repository :=
  setRefs repo (<[name := h]> (refs repo)).

(** Modelled from the spec: [repo.Storer.CheckAndSetReference(new, old)]
    is not under src/. §3.1, §4.1: compare-and-set; the reference moves
    only if it is absent or still holds the hash of [old]. *)
Definition CheckAndSetReference (repo : Repository) (name : string)
    (new old : plumbing.Hash) : result unit * Repository :=
  match refs repo !! name with
  | Some cur =>
      if N.eqb cur old then (Ok tt, SetReference repo name new)
      else (Err ErrReferenceHasChanged, repo)
  | None => (Ok tt, SetReference repo name new)
  end.

(** Modelled from the spec: [repo.CommitObject(h)] is not under src/.
    §4.1: object lookup by hash; the commit read back carries its id. *)
Definition CommitObject (repo : Repository) (h : plumbing.Hash) : result object.Commit :=
  match commits repo !! h with
  | Some c => Ok (object.withHash h c)
  | None => Err ErrObjectNotFound
  end.

(** Modelled from the spec: [repo.TreeObject(h)] is not under src/. §4.1:
    object lookup by hash. *)
Definition TreeObject (repo : Repository) (h : plumbing.Hash) : result (list plumbing.TreeEntry) :=
  match trees repo !! h with
  | Some t => Ok t
  | None => Err ErrObjectNotFound
  end.

(** The object database is append-only: a later repository holds every
    object of an earlier one, under the same id. *)
Definition extends (repo repo' : Repository) : Prop :=
  blobs repo ⊆ blobs repo' /\ trees repo ⊆ trees repo' /\ commits repo ⊆ commits repo'.

(** Code that writes to the repository: the outcome and the repository
    it leaves behind, also when it fails. *)
Definition M (A : Type) : Type := Repository -> result A * Repository.

Definition ret {A : Type} (a : A) : M A := fun repo => (Ok a, repo).

Definition bind {A B : Type} (m : M A) (f : A -> M B) : M B := fun repo =>
  match m repo with
  | (Ok a, repo') => f a repo'
  | (Err e, repo') => (Err e, repo')
  | (Panic, repo') => (Panic, repo')
  end.

(** A computation that leaves every reference as it was. *)
Definition keepsRefs {A : Type} (m : M A) : Prop :=
  forall repo, refs (snd (m repo)) = refs repo.

(** A step that only reads. *)
Definition pure {A : Type} (r : result A) : M A := fun repo => (r, repo).

Definition read {A : Type} (f : Repository -> result A) : M A := fun repo => (f repo, repo).

Fixpoint forEachM {A B : Type} (f : A -> M B) (l : list A) : M (list B) :=
  match l with
  | [] => ret []
  | a :: l' => bind (f a) (fun b => bind (forEachM f l') (fun bs => ret (b :: bs)))
  end.

End git.

#[global] Instance M_ret : MRet git.M := @git.ret.
#[global] Instance M_bind : MBind git.M := fun _ _ f m => git.bind m f.

(** ** Envelope verification (package dsse) *)

Module dsse.
Section dsse.
Context (X : Ext).

(** Modelled from the spec: the signature loop of [dsse.VerifyEnvelope],
    which is not under src/. §4.3: a signature is tried against every
    verifier and counts once, for the first verifier that accepts it and
    whose key id has not yet been counted. *)
Definition acceptSignature (env : sslibdsse.Envelope) (verifiers : list sslibdsse.Verifier)
    (accepted : list string) (sig : sslibdsse.Signature) : list string :=
  match
    List.find (fun v =>
      verifySignature X (sslibdsse.VerifierKey v) env (sslibdsse.Sig sig)
      && negb (bool_decide (tuf.KeyID (sslibdsse.VerifierKey v) ∈ accepted))) verifiers
  with
  | Some v => accepted ++ [tuf.KeyID (sslibdsse.VerifierKey v)]
  | None => accepted
  end.

(** Modelled from the spec: the distinct key ids with a successful
    verification (§4.3), over the signatures in order. *)
Definition acceptedKeyIDs (env : sslibdsse.Envelope) (verifiers : list sslibdsse.Verifier)
    : list string :=
  fold_left (acceptSignature env verifiers) (sslibdsse.Signatures env) [].

(** Modelled from the spec: [dsse.VerifyEnvelope] is not under src/.
    §4.3: each signature is tried against every verifier; a signature
    counts at most once; distinct key ids count; acceptance requires at
    least [threshold] successful, distinct-key verifications. A threshold
    below 1 is refused: roles have a threshold of at least 1 (§3.2), and
    [TestStateVerify] expects an error from a state without root keys,
    whose threshold is 0. A nil envelope is dereferenced. *)
Definition VerifyEnvelope (envelope : option sslibdsse.Envelope)
    (verifiers : list sslibdsse.Verifier) (threshold : Z) : result unit :=
  match envelope with
  | None => Panic
  | Some env =>
      if threshold <? 1 then Err ErrBelowThreshold
      else if Z.of_nat (length (acceptedKeyIDs env verifiers)) <? threshold
      then Err ErrBelowThreshold
      else Ok tt
  end.

(** A key id is backed when a verifier with that id accepts a signature
    of the envelope. *)
Definition backed (env : sslibdsse.Envelope) (verifiers : list sslibdsse.Verifier)
    (id : string) : Prop :=
  exists v sig, v ∈ verifiers /\ tuf.KeyID (sslibdsse.VerifierKey v) = id
    /\ sig ∈ sslibdsse.Signatures env
    /\ verifySignature X (sslibdsse.VerifierKey v) env (sslibdsse.Sig sig) = true.

End dsse.
End dsse.

(** ** Verifiers from keys (package signerverifier) *)

Module signerverifier.

(** Modelled from the spec: [NewSignerVerifierFromTUFKey] is not under
    src/. §3.2 and §4.2: a key of one of the five key types yields a
    verifier for it, any other type is [unknown_signing_method]; the key
    is a pointer that the function dereferences. *)
Definition NewSignerVerifierFromTUFKey (key : option tuf.Key) : result sslibdsse.Verifier :=
  match key with
  | None => Panic
  | Some k =>
      match tuf.KeyType k with
      | tuf.OtherKeyType => Err ErrUnknownSigningMethod
      | _ => Ok {| sslibdsse.VerifierKey := k |}
      end
  end.

End signerverifier.

(** ** Commits and objects (package gitinterface) *)

Module gitinterface.
Section gitinterface.
Context (X : Ext).

(** Modelled from the spec: [WriteBlob] is not under src/. §4.1: write
    blob; an object is stored under its id. *)
Definition WriteBlob (contents : string) : git.M plumbing.Hash := fun repo =>
  (Ok (hashBlob X contents),
   {| git.refs := git.refs repo;
      git.blobs := <[hashBlob X contents := contents]> (git.blobs repo);
      git.trees := git.trees repo; git.commits := git.commits repo |}).

(** Modelled from the spec: [ReadBlob] is not under src/. §4.1: read any
    object by its hash. *)
Definition ReadBlob (repo : git.Repository) (h : plumbing.Hash) : result string :=
  match git.blobs repo !! h with
  | Some b => Ok b
  | None => Err ErrObjectNotFound
  end.

(** Modelled from the spec: [WriteTree] is not under src/. §4.1: write
    tree; an object is stored under its id. *)
Definition WriteTree (entries : list plumbing.TreeEntry) : git.M plumbing.Hash := fun repo =>
  (Ok (hashTree X entries),
   {| git.refs := git.refs repo; git.blobs := git.blobs repo;
      git.trees := <[hashTree X entries := entries]> (git.trees repo);
      git.commits := git.commits repo |}).

(** Modelled from the spec: [EmptyTree] is not under src/. §4.6: the tree
    of an RSL commit is always the empty tree. *)
Definition EmptyTree : plumbing.Hash := hashTree X [].

(** [WriteCommit]: the object is encoded and stored under its id. *)
Definition WriteCommit (commit : object.Commit) : git.M plumbing.Hash := fun repo =>
  (Ok (hashCommit X commit),
   {| git.refs := git.refs repo; git.blobs := git.blobs repo;
      git.trees := git.trees repo;
      git.commits := <[hashCommit X commit := commit]> (git.commits repo) |}).

(** [ApplyCommit]: [curRef] is the reference as it was read, its name
    and its hash. *)
Definition ApplyCommit (commit : object.Commit) (curRefName : string)
    (curRefHash : plumbing.Hash) : git.M plumbing.Hash :=
  commitHash ← WriteCommit commit;
  (fun repo => git.CheckAndSetReference repo curRefName commitHash curRefHash) ;;
  git.ret commitHash.

Definition CreateCommitObject (gitConfig : string * string) (treeHash parentHash : plumbing.Hash)
    (message : object.Message) (now : Z) : object.Commit :=
  let author := {| object.Name := fst gitConfig; object.Email := snd gitConfig;
                   object.When := now |} in
  {| object.Hash := plumbing.ZeroHash;
     object.Author := author;
     object.Committer := author;
     object.PGPSignature := "";
     object.Message_ := message;
     object.TreeHash := treeHash;
     object.ParentHashes := if plumbing.IsZero parentHash then [] else [parentHash] |}.

(** [signCommit]: the signature is made over the commit without its
    signature. *)
Definition signCommit (commit : object.Commit) : result string :=
  lift (signGitObject X (object.withSignature "" commit)).

(** [Commit] creates a new commit in the repository and sets
    [targetRef] to it. *)
Definition Commit (treeHash : plumbing.Hash) (targetRef : string)
    (message : object.Message) (sign : bool) : git.M plumbing.Hash :=
  gitConfig ← git.pure (lift (gitConfig X));
  curRef ← (fun repo =>
    match git.Reference repo targetRef with
    | Err ErrReferenceNotFound =>
        (* Set empty ref *)
        let repo' := git.SetReference repo targetRef plumbing.ZeroHash in
        (git.Reference repo' targetRef, repo')
    | r => (r, repo)
    end);
  let commit := CreateCommitObject gitConfig treeHash curRef message (clockNow X) in
  commit ← (if sign
            then (signature ← git.pure (signCommit commit);
                  git.ret (object.withSignature signature commit))
            else git.ret commit);
  ApplyCommit commit targetRef curRef.

(** [KnowsCommit]: is [commit] the commit under test, [commitID], or an
    ancestor of it. *)
Definition KnowsCommit (repo : git.Repository) (commitID : plumbing.Hash)
    (commit : object.Commit) : result bool :=
  if N.eqb commitID (object.Hash commit) then Ok true
  else
    commitUnderTest ← git.CommitObject repo commitID;
    lift (isAncestor X (object.Hash commit) (object.Hash commitUnderTest)).

(** Modelled from the spec: [ResetDueToError] is not under src/. §4.5:
    if the RSL append fails, reset the policy ref to its prior hash; the
    failure that caused the reset is what the caller gets. *)
Definition ResetDueToError (cause : Error) (refName : string)
    (commitID : plumbing.Hash) : git.M unit := fun repo =>
  (Err cause, git.SetReference repo refName commitID).

End gitinterface.

(** The errors of [VerifyCommitSignature]. [errors.Join] keeps the
    cause next to [ErrVerifyingSigstoreSignature]; what
    [verifyGitsignSignature] answers is returned as it is. *)
Inductive SignatureError : Type :=
  | ErrIncorrectVerificationKey
  | ErrVerifyingSigstoreSignature (cause : string)
  | ErrUnknownSigningMethod
  | ErrGitsign (msg : string).

Section signatures.

(** [commit.Verify(armoredKeyRing)] of go-git, its error if any;
    [commit.EncodeWithoutSignature] read back as bytes; and
    [verifyGitsignSignature], which is not under src/: key, commit
    contents and signature. *)
Context (verifyPGP : object.Commit -> string -> option string)
        (encodeWithoutSignature : object.Commit -> string + string)
        (verifyGitsignSignature : tuf.Key -> string -> string -> option string).

Definition getCommitBytesWithoutSignature (commit : object.Commit) : string + string :=
  encodeWithoutSignature commit.

(** [VerifyCommitSignature] is used to verify a cryptographic signature
    associated with commit using TUF public keys. [None] is a nil error;
    a nil key is dereferenced. *)
Definition VerifyCommitSignature (commit : object.Commit) (key : option tuf.Key)
    : result (option SignatureError) :=
  match key with
  | None => Panic
  | Some key =>
      match tuf.KeyType key with
      | tuf.PGP =>
          match verifyPGP commit (tuf.KeyVal key) with
          | Some _ => Ok (Some ErrIncorrectVerificationKey)
          | None => Ok None
          end
      | tuf.Fulcio =>
          match getCommitBytesWithoutSignature commit with
          | inl err => Ok (Some (ErrVerifyingSigstoreSignature err))
          | inr commitContents =>
              let commitSignature := object.PGPSignature commit in
              Ok (ErrGitsign <$> verifyGitsignSignature key commitContents commitSignature)
          end
      | _ => Ok (Some ErrUnknownSigningMethod)
      end
  end.

End signatures.

End gitinterface.

(** ** The reference state log (package rsl)

    Package rsl is not under src/. §3.4 of the spec: every entry is a
    commit on [refs/gittuf/reference-state-log] whose parent is the
    previous entry; the entries form a strict linear chain whose head is
    the most recent entry. §4.6 gives the operations. *)

Module rsl.

(** Modelled from the spec: [rsl.Ref] is not under src/. §6: the fixed
    name of the RSL head. *)
Definition Ref : string := "refs/gittuf/reference-state-log".

(** Modelled from the spec: [rsl.ReferenceEntry] is not under src/.
    §3.4: the id of the entry, the reference and the target it records. *)
Record ReferenceEntry : Type := {
  ID : plumbing.Hash;
  RefName : string;
  TargetID : plumbing.Hash
}.

(** Modelled from the spec: [rsl.AnnotationEntry] is not under src/.
    §3.4: the entries it refers to, the skip mark and a message. *)
Record AnnotationEntry : Type := {
  AnnotationID : plumbing.Hash;
  RSLEntryIDs : list plumbing.Hash;
  Skip : bool;
  Message : string
}.

(** Modelled from the spec: [rsl.Entry] is not under src/. §3.4: two
    variants. *)
Inductive Entry : Type :=
  | Reference (e : ReferenceEntry)
  | Annotation (a : AnnotationEntry).

(** Modelled from the spec: [Entry.GetID] is not under src/. §3.4: the
    id is the hash of the commit of the entry. *)
Definition GetID (e : Entry) : plumbing.Hash :=
  match e with
  | Reference r => ID r
  | Annotation a => AnnotationID a
  end.

(** Modelled from the spec: the parser of entries is not under src/.
    §4.6: the entry a commit carries; a commit that is not an RSL commit
    is [not_rsl_entry]. *)
Definition parseEntry (c : object.Commit) : result Entry :=
  match object.Message_ c with
  | object.Text _ => Err ErrInvalidRSLEntry
  | object.ReferenceEntryMessage refName targetID =>
      Ok (Reference {| ID := object.Hash c; RefName := refName; TargetID := targetID |})
  | object.AnnotationEntryMessage ids skip msg =>
      Ok (Annotation {| AnnotationID := object.Hash c; RSLEntryIDs := ids;
                        Skip := skip; Message := msg |})
  end.

(** Modelled from the spec: [GetEntry(id)] is not under src/. §4.6: parse
    the commit at [id] into its entry variant. *)
Definition GetEntry (repo : git.Repository) (id : plumbing.Hash) : result Entry :=
  c ← git.CommitObject repo id; parseEntry c.

(** Modelled from the spec: [GetLatestEntry()] is not under src/. §4.6:
    the head of the log. *)
Definition GetLatestEntry (repo : git.Repository) : result Entry :=
  h ← git.Reference repo Ref; GetEntry repo h.

(** Modelled from the spec: the walk of the log is not under src/. §3.4:
    the chain from the entry [id] down to the bootstrap entry, newest
    first. No chain is longer than the number of commits stored. *)
Fixpoint walk (fuel : nat) (repo : git.Repository) (id : plumbing.Hash) : result (list Entry) :=
  match fuel with
  | O => Err ErrInvalidRSLEntry
  | S fuel' =>
      c ← git.CommitObject repo id;
      e ← parseEntry c;
      match object.ParentHashes c with
      | [] => Ok [e]
      | parent :: _ => es ← walk fuel' repo parent; Ok (e :: es)
      end
  end.

(** Modelled from the spec: the log as a whole, newest first (§3.4); a
    reference state log at the zero hash has no entry yet. *)
Definition log (repo : git.Repository) : result (list Entry) :=
  h ← git.Reference repo Ref;
  if plumbing.IsZero h then Ok []
  else walk (S (size (git.commits repo))) repo h.

(** Modelled from the spec: §4.6, the first reference entry for
    [refName] in a walk from newer to older entries. *)
Fixpoint latestFor (refName : string) (entries : list Entry) : result ReferenceEntry :=
  match entries with
  | [] => Err ErrRSLEntryNotFound
  | Reference e :: older =>
      if String.eqb (RefName e) refName then Ok e else latestFor refName older
  | Annotation _ :: older => latestFor refName older
  end.

(** Modelled from the spec: §4.6, the walk that starts from the parent of
    [id]: the entries strictly older than the entry [id]. *)
Fixpoint before (id : plumbing.Hash) (entries : list Entry) : result (list Entry) :=
  match entries with
  | [] => Err ErrRSLEntryNotFound
  | e :: older => if N.eqb (GetID e) id then Ok older else before id older
  end.

(** Modelled from the spec: [GetLatestReferenceEntryForRef(ref)] is not
    under src/. §4.6: walk from the head toward the root, returning the
    first reference entry for [ref]. *)
Definition GetLatestReferenceEntryForRef (repo : git.Repository) (refName : string)
    : result ReferenceEntry :=
  entries ← log repo; latestFor refName entries.

(** Modelled from the spec: [GetLatestReferenceEntryForRefBefore(ref, id)]
    is not under src/. §4.6: like the above, but the walk starts from the
    parent of [id]. *)
Definition GetLatestReferenceEntryForRefBefore (repo : git.Repository) (refName : string)
    (id : plumbing.Hash) : result ReferenceEntry :=
  entries ← log repo; older ← before id entries; latestFor refName older.

Section rsl.
Context (X : Ext).

(** Modelled from the spec: §4.5, the first reference entry, in a list
    from older to newer entries, from whose target the commit is
    reachable. *)
Fixpoint firstKnowing (repo : git.Repository) (commit : object.Commit)
    (chronological : list Entry) : result ReferenceEntry :=
  match chronological with
  | [] => Err ErrNoRecordOfCommit
  | Reference e :: newer =>
      knows ← gitinterface.KnowsCommit X repo (TargetID e) commit;
      if knows : bool then Ok e else firstKnowing repo commit newer
  | Annotation _ :: newer => firstKnowing repo commit newer
  end.

(** Modelled from the spec: [GetFirstReferenceEntryForCommit(commit)] is
    not under src/. §4.5: find the first RSL reference entry in which the
    commit is reachable from the entry's target. *)
Definition GetFirstReferenceEntryForCommit (repo : git.Repository) (commit : object.Commit)
    : result ReferenceEntry :=
  entries ← log repo; firstKnowing repo commit (rev entries).

(** Modelled from the spec: [NewReferenceEntry(ref, target).Commit(repo,
    sign)] is not under src/. §4.6: append a reference entry commit, with
    the empty tree, whose single parent is the current head of the log. *)
Definition CommitReferenceEntry (refName : string) (targetID : plumbing.Hash) (sign : bool)
    : git.M unit :=
  gitinterface.Commit X (gitinterface.EmptyTree X) Ref
    (object.ReferenceEntryMessage refName targetID) sign ;;
  git.ret tt.

End rsl.
End rsl.

(** ** Policy states (package policy) *)

Module policy.

Definition PolicyRef : string := "refs/gittuf/policy".
Definition PolicyStagingRef : string := "refs/gittuf/policy-staging".
Definition RootRoleName : string := "root".
Definition TargetsRoleName : string := "targets".
Definition DefaultCommitMessage : string := "Update policy state".
Definition rootPublicKeysTreeEntryName : string := "keys".
Definition metadataTreeEntryName : string := "metadata".

(** [State] contains the full set of metadata and root keys present in
    a policy state. *)
Record State : Type := {
  RootEnvelope : option sslibdsse.Envelope;
  TargetsEnvelope : option sslibdsse.Envelope;
  DelegationEnvelopes : gmap string sslibdsse.Envelope;
  RootPublicKeys : list tuf.Key
}.

Definition emptyState : State :=
  {| RootEnvelope := None; TargetsEnvelope := None;
     DelegationEnvelopes := ∅; RootPublicKeys := [] |}.

(** [strings.TrimSuffix] *)
Definition TrimSuffix (s suffix : string) : string :=
  let n := String.length s in
  let m := String.length suffix in
  if (m <=? n)%nat && String.eqb (String.substring (n - m) m s) suffix
  then String.substring 0 (n - m) s
  else s.

(** [for keyID, key := range src { dst[keyID] = key }]: assigning into
    a nil map panics, ranging over one does nothing. *)
Definition assignAll (dst src : option (gmap string tuf.Key))
    : result (option (gmap string tuf.Key)) :=
  match src with
  | None => Ok dst
  | Some m =>
      if (size m =? 0)%nat then Ok dst
      else match dst with
           | None => Panic
           | Some d => Ok (Some (m ∪ d))
           end
  end.

(** [m[keyID]] on a map that may be nil: a nil key when absent. *)
Definition keyOf (m : option (gmap string tuf.Key)) (keyID : string) : option tuf.Key :=
  m ≫= (fun d => d !! keyID).

(** [InitializeNamespace] creates a git ref for the policy. Initially,
    the entry has a zero hash. *)
Definition InitializeNamespace : git.M unit := fun repo =>
  match git.Reference repo PolicyRef with
  | Err ErrReferenceNotFound =>
      (Ok tt, git.SetReference repo PolicyRef plumbing.ZeroHash)
  | Err e => (Err e, repo)
  | Panic => (Panic, repo)
  | Ok h =>
      if negb (plumbing.IsZero h) then (Err ErrPolicyExists, repo)
      else (Ok tt, git.SetReference repo PolicyRef plumbing.ZeroHash)
  end.

Section policy.
Context (X : Ext).

(** [GetRootMetadata] returns the deserialized payload of the State's
    RootEnvelope. *)
Definition GetRootMetadata (s : State) : result tuf.RootMetadata :=
  match RootEnvelope s with
  | None => Panic
  | Some e => lift (decodeRootMetadata X (sslibdsse.Payload e))
  end.

Definition decodeEnvelope (e : option sslibdsse.Envelope) : result tuf.TargetsMetadata :=
  match e with
  | None => Panic
  | Some e => lift (decodeTargetsMetadata X (sslibdsse.Payload e))
  end.

Definition GetTargetsMetadata (s : State) (roleName : string) : result tuf.TargetsMetadata :=
  if String.eqb roleName TargetsRoleName
  then decodeEnvelope (TargetsEnvelope s)
  else match DelegationEnvelopes s !! roleName with
       | None => Err ErrMetadataNotFound
       | Some env => decodeEnvelope (Some env)
       end.

Definition HasTargetsRole (s : State) (roleName : string) : bool :=
  if String.eqb roleName TargetsRoleName
  then match TargetsEnvelope s with Some _ => true | None => false end
  else match DelegationEnvelopes s !! roleName with Some _ => true | None => false end.

(** Modelled from the spec: [Delegation.Matches] is not under src/.
    §4.4: a delegation matches a path if any pattern of its paths matches
    it. *)
Definition Matches (d : tuf.Delegation) (path : string) : bool :=
  existsb (fun pattern => matchPattern X pattern path) (tuf.Paths d).

(** The verifiers of a list of keys, in order; the first key without a
    verifier ends the loop. *)
Definition verifiersOf (keys : list (option tuf.Key)) : result (list sslibdsse.Verifier) :=
  forEach signerverifier.NewSignerVerifierFromTUFKey keys.

(** One delegation that has an envelope, in the loop of [Verify]: the
    envelope is verified with the keys declared so far and the
    delegation's threshold, then decoded and validated. *)
Definition verifyDelegation (keys : option (gmap string tuf.Key))
    (delegation : tuf.Delegation) (delegationEnvelope : sslibdsse.Envelope)
    : result tuf.TargetsMetadata :=
  delegationVerifiers ← verifiersOf (keyOf keys <$> tuf.KeyIDs (tuf.DRole delegation));
  dsse.VerifyEnvelope X (Some delegationEnvelope) delegationVerifiers
    (tuf.Threshold (tuf.DRole delegation)) ;;
  delegationMetadata ← decodeEnvelope (Some delegationEnvelope);
  check (validateTargets X delegationMetadata) ;;
  Ok delegationMetadata.

(** The loop of [Verify] over the delegations queue. [envs] is the
    local copy of the delegation envelopes, from which an envelope is
    deleted when its delegation is met; [keys] accumulates the keys
    declared so far. The loop returns the envelopes left over. It
    recurses on the queue while no envelope is consumed and on [n] when
    one is: [n] is at least the number of envelopes left, so that the
    branch [O] is never taken. *)
Fixpoint verifyLoop (n : nat) (envs : gmap string sslibdsse.Envelope)
    (keys : option (gmap string tuf.Key)) (queue : list tuf.Delegation) {struct n}
    : result (gmap string sslibdsse.Envelope) :=
  (fix scan (queue : list tuf.Delegation) {struct queue}
      : result (gmap string sslibdsse.Envelope) :=
     match queue with
     | [] => Ok envs
     | delegation :: queue' =>
         match envs !! tuf.Name delegation with
         | None =>
             (* Delegation does not have an envelope to verify *)
             scan queue'
         | Some delegationEnvelope =>
             match n with
             | O => Panic
             | S n' =>
                 let envs' := delete (tuf.Name delegation) envs in
                 delegationMetadata ← verifyDelegation keys delegation delegationEnvelope;
                 match tuf.Delegations_ delegationMetadata with
                 | None => verifyLoop n' envs' keys queue'
                 | Some delegations =>
                     keys' ← assignAll keys (tuf.Keys delegations);
                     verifyLoop n' envs' keys' (queue' ++ tuf.Roles delegations)
                 end
             end
         end
     end) queue.

(** [Verify] up to the loop: the root envelope, the targets envelope
    and the top-level targets metadata. [Ok None] is [Verify] returning
    nil before the loop; [Ok (Some d)] hands the delegations of the
    top-level targets metadata to the loop. *)
Definition verifyTop (s : State) : result (option tuf.Delegations) :=
  rootVerifiers ← verifiersOf (Some <$> RootPublicKeys s);
  dsse.VerifyEnvelope X (RootEnvelope s) rootVerifiers (Z.of_nat (length rootVerifiers)) ;;
  match TargetsEnvelope s with
  | None => Ok None
  | Some targetsEnvelope =>
      rootMetadata ← GetRootMetadata s;
      let targetsRole := default tuf.zeroRole (tuf.RootRoles rootMetadata !! TargetsRoleName) in
      targetsVerifiers ←
        verifiersOf ((fun keyID => tuf.RootKeys rootMetadata !! keyID) <$> tuf.KeyIDs targetsRole);
      dsse.VerifyEnvelope X (Some targetsEnvelope) targetsVerifiers (tuf.Threshold targetsRole) ;;
      if (size (DelegationEnvelopes s) =? 0)%nat then Ok None
      else
        targetsMetadata ← decodeEnvelope (Some targetsEnvelope);
        check (validateTargets X targetsMetadata) ;;
        match tuf.Delegations_ targetsMetadata with
        | None => Panic
        | Some delegations => Ok (Some delegations)
        end
  end.

(** [Verify] performs a self-contained verification of all the metadata
    in the State starting from the Root. Any metadata that is
    unreachable in the delegations graph returns an error. *)
Definition Verify (s : State) : result unit :=
  top ← verifyTop s;
  match top with
  | None => Ok tt
  | Some delegations =>
      let delegationEnvelopes := DelegationEnvelopes s in
      remaining ← verifyLoop (size delegationEnvelopes) delegationEnvelopes
                    (tuf.Keys delegations) (tuf.Roles delegations);
      if (size remaining =? 0)%nat then Ok tt
      else Err ErrDanglingDelegationMetadata
  end.

(** The loop of [FindPublicKeysForPath]. It need not end: [None] is
    fuel run out. *)
Fixpoint findLoop (fuel : nat) (s : State) (path : string)
    (allPublicKeys : option (gmap string tuf.Key)) (delegationsQueue : list tuf.Delegation)
    (trustedKeys : list (option tuf.Key)) : option (result (list (option tuf.Key))) :=
  match fuel with
  | O => None
  | S fuel' =>
      match delegationsQueue with
      | [] | [_] => Some (Ok trustedKeys)
      | delegation :: delegationsQueue' =>
          if Matches delegation path then
            let trustedKeys' :=
              trustedKeys ++ (keyOf allPublicKeys <$> tuf.KeyIDs (tuf.DRole delegation)) in
            if HasTargetsRole s (tuf.Name delegation) then
              match GetTargetsMetadata s (tuf.Name delegation) with
              | Err e => Some (Err e)
              | Panic => Some Panic
              | Ok delegatedMetadata =>
                  match tuf.Delegations_ delegatedMetadata with
                  | None => Some Panic
                  | Some delegations =>
                      match assignAll allPublicKeys (tuf.Keys delegations) with
                      | Err e => Some (Err e)
                      | Panic => Some Panic
                      | Ok allPublicKeys' =>
                          if tuf.Terminating delegation then
                            (* Remove other delegations from the queue *)
                            findLoop fuel' s path allPublicKeys' (tuf.Roles delegations)
                              trustedKeys'
                          else
                            (* Depth first, so newly discovered delegations go
                               first; the last element, the allow-rule, is left
                               out. Slicing an empty list to [:-1] panics. *)
                            match tuf.Roles delegations with
                            | [] => Some Panic
                            | _ :: _ =>
                                findLoop fuel' s path allPublicKeys'
                                  (removelast (tuf.Roles delegations) ++ delegationsQueue')
                                  trustedKeys'
                            end
                      end
                  end
              end
            else findLoop fuel' s path allPublicKeys delegationsQueue' trustedKeys'
          else findLoop fuel' s path allPublicKeys delegationsQueue' trustedKeys
      end
  end.

(** [FindPublicKeysForPath] identifies the trusted keys for the path. *)
Definition FindPublicKeysForPath (fuel : nat) (s : State) (path : string)
    : option (result (list (option tuf.Key))) :=
  match Verify s with
  | Err e => Some (Err e)
  | Panic => Some Panic
  | Ok _ =>
      match GetTargetsMetadata s TargetsRoleName with
      | Err e => Some (Err e)
      | Panic => Some Panic
      | Ok targetsMetadata =>
          match tuf.Delegations_ targetsMetadata with
          | None => Some Panic
          | Some delegations =>
              findLoop fuel s path (tuf.Keys delegations) (tuf.Roles delegations) []
          end
      end
  end.

(** A loop that threads an accumulator and returns at the first error. *)
Fixpoint foldEach {A B : Type} (f : B -> A -> result B) (l : list A) (b : B) : result B :=
  match l with
  | [] => Ok b
  | a :: l' => b' ← f b a; foldEach f l' b'
  end.

(** [PublicKeys] returns all the public keys associated with a state.
    [Ok None] is the nil map with a nil error. Go ranges over the
    delegation envelopes in no fixed order; the order here is that of
    [map_to_list]. *)
Definition PublicKeys (s : State) : result (option (gmap string tuf.Key)) :=
  (* Add root keys *)
  let allKeys := fold_left (fun acc key => <[tuf.KeyID key := key]> acc) (RootPublicKeys s) ∅ in
  (* Add keys from the root metadata *)
  rootMetadata ← GetRootMetadata s;
  let allKeys := tuf.RootKeys rootMetadata ∪ allKeys in
  (* Add keys from top level targets metadata *)
  match TargetsEnvelope s with
  | None =>
      (* Early states where this hasn't been initialized yet *)
      Ok None
  | Some _ =>
      targetsMetadata ← GetTargetsMetadata s TargetsRoleName;
      match tuf.Delegations_ targetsMetadata with
      | None => Panic
      | Some delegations =>
          let allKeys := default ∅ (tuf.Keys delegations) ∪ allKeys in
          (* Add keys from delegated targets metadata *)
          allKeys ← foldEach (fun acc (role : string * sslibdsse.Envelope) =>
                       delegatedMetadata ← GetTargetsMetadata s (fst role);
                       match tuf.Delegations_ delegatedMetadata with
                       | None => Panic
                       | Some delegations => Ok (default ∅ (tuf.Keys delegations) ∪ acc)
                       end)
                     (map_to_list (DelegationEnvelopes s)) allKeys;
          Ok (Some allKeys)
      end
  end.

(** The loop of [LoadStateForEntry] over the entries of the root tree:
    the ids of the metadata and keys subtrees, both zero to begin with. *)
Fixpoint rootTreeIDs (entries : list plumbing.TreeEntry)
    (metadataTreeID keysTreeID : plumbing.Hash) : result (plumbing.Hash * plumbing.Hash) :=
  match entries with
  | [] => Ok (metadataTreeID, keysTreeID)
  | e :: entries' =>
      if String.eqb (plumbing.Name e) metadataTreeEntryName
      then rootTreeIDs entries' (plumbing.EntryHash e) keysTreeID
      else if String.eqb (plumbing.Name e) rootPublicKeysTreeEntryName
      then rootTreeIDs entries' metadataTreeID (plumbing.EntryHash e)
      else Err ErrInvalidPolicyTree
  end.

(** One entry of the metadata tree. *)
Definition loadMetadataEntry (repo : git.Repository) (state : State)
    (entry : plumbing.TreeEntry) : result State :=
  contents ← gitinterface.ReadBlob repo (plumbing.EntryHash entry);
  env ← lift (unmarshalEnvelope X contents);
  if String.eqb (plumbing.Name entry) (RootRoleName +:+ ".json") then
    Ok {| RootEnvelope := Some env; TargetsEnvelope := TargetsEnvelope state;
          DelegationEnvelopes := DelegationEnvelopes state;
          RootPublicKeys := RootPublicKeys state |}
  else if String.eqb (plumbing.Name entry) (TargetsRoleName +:+ ".json") then
    Ok {| RootEnvelope := RootEnvelope state; TargetsEnvelope := Some env;
          DelegationEnvelopes := DelegationEnvelopes state;
          RootPublicKeys := RootPublicKeys state |}
  else
    Ok {| RootEnvelope := RootEnvelope state; TargetsEnvelope := TargetsEnvelope state;
          DelegationEnvelopes :=
            <[TrimSuffix (plumbing.Name entry) ".json" := env]> (DelegationEnvelopes state);
          RootPublicKeys := RootPublicKeys state |}.

(** One entry of the keys tree. *)
Definition loadKeyEntry (repo : git.Repository) (state : State)
    (entry : plumbing.TreeEntry) : result State :=
  contents ← gitinterface.ReadBlob repo (plumbing.EntryHash entry);
  key ← lift (loadKeyFromBytes X contents);
  Ok {| RootEnvelope := RootEnvelope state; TargetsEnvelope := TargetsEnvelope state;
        DelegationEnvelopes := DelegationEnvelopes state;
        RootPublicKeys := RootPublicKeys state ++ [key] |}.

(** [LoadStateForEntry] returns the State for a specified RSL entry for
    the policy namespace. *)
Definition LoadStateForEntry (repo : git.Repository) (e : rsl.Entry) : result State :=
  match e with
  | rsl.Annotation _ => Err ErrNotRSLEntry
  | rsl.Reference entry =>
      if negb (String.eqb (rsl.RefName entry) PolicyRef) then Err ErrRSLEntryDoesNotMatchRef
      else
        policyCommit ← git.CommitObject repo (rsl.TargetID entry);
        policyRootTree ← git.TreeObject repo (object.TreeHash policyCommit);
        if (2 <? length policyRootTree)%nat then Err ErrInvalidPolicyTree
        else
          ids ← rootTreeIDs policyRootTree plumbing.ZeroHash plumbing.ZeroHash;
          metadataTree ← git.TreeObject repo (fst ids);
          keysTree ← git.TreeObject repo (snd ids);
          state ← foldEach (loadMetadataEntry repo) metadataTree emptyState;
          state ← foldEach (loadKeyEntry repo) keysTree state;
          Verify state ;;
          Ok state
  end.

(** [LoadState] returns the State of the repository's policy
    corresponding to the rslEntryID. *)
Definition LoadState (repo : git.Repository) (rslEntryID : plumbing.Hash) : result State :=
  e ← rsl.GetEntry repo rslEntryID;
  LoadStateForEntry repo e.

(** [LoadCurrentState] returns the State corresponding to the
    repository's current active policy. *)
Definition LoadCurrentState (repo : git.Repository) : result State :=
  e ← rsl.GetLatestReferenceEntryForRef repo PolicyRef;
  LoadStateForEntry repo (rsl.Reference e).

(** [GetStateForCommit] scans the RSL to identify the first time a
    commit was seen in the repository. The policy preceding that RSL
    entry is returned. If the commit hasn't been seen previously, no
    policy state is returned, and no error: [Ok None]. *)
Definition GetStateForCommit (repo : git.Repository) (commit : object.Commit)
    : result (option State) :=
  match rsl.GetFirstReferenceEntryForCommit X repo commit with
  | Err ErrNoRecordOfCommit => Ok None
  | Err e => Err e
  | Panic => Panic
  | Ok firstSeenEntry =>
      commitPolicyEntry ←
        rsl.GetLatestReferenceEntryForRefBefore repo PolicyRef (rsl.ID firstSeenEntry);
      state ← LoadStateForEntry repo (rsl.Reference commitPolicyEntry);
      Ok (Some state)
  end.

(** The blob and tree entry of one metadata file; [json.Marshal] of a
    nil envelope is [null]. *)
Definition writeMetadataEntry (file : string * option sslibdsse.Envelope)
    : git.M plumbing.TreeEntry :=
  metadataContents ← git.pure (match snd file with
                               | None => Ok "null"
                               | Some env => lift (marshalEnvelope X env)
                               end);
  blobID ← gitinterface.WriteBlob X metadataContents;
  git.ret {| plumbing.Name := fst file +:+ ".json"; plumbing.Mode := plumbing.Regular;
             plumbing.EntryHash := blobID |}.

(** The blob and tree entry of one root public key. *)
Definition writeKeyEntry (key : tuf.Key) : git.M plumbing.TreeEntry :=
  keyContents ← git.pure (lift (marshalKey X key));
  blobID ← gitinterface.WriteBlob X keyContents;
  git.ret {| plumbing.Name := tuf.KeyID key; plumbing.Mode := plumbing.Regular;
             plumbing.EntryHash := blobID |}.

(** The files of the metadata tree: root, targets when present, and the
    delegation envelopes, which overwrite an earlier file of the same
    name. *)
Definition metadataFiles (s : State) : gmap string (option sslibdsse.Envelope) :=
  let metadata := <[RootRoleName := RootEnvelope s]> ∅ in
  let metadata := match TargetsEnvelope s with
                  | Some t => <[TargetsRoleName := Some t]> metadata
                  | None => metadata
                  end in
  (Some <$> DelegationEnvelopes s) ∪ metadata.

(** The end of [Commit]: the RSL entry for the new policy commit is
    appended; if that fails the policy ref is reset to the commit it
    held before. *)
Definition recordOrReset (originalCommitID commitID : plumbing.Hash) (signCommit : bool)
    : git.M unit := fun repo =>
  match rsl.CommitReferenceEntry X PolicyRef commitID signCommit repo with
  | (Ok _, repo') => (Ok tt, repo')
  | (Err err, repo') =>
      gitinterface.ResetDueToError err PolicyRef originalCommitID repo'
  | (Panic, repo') => (Panic, repo')
  end.

(** The objects of a policy commit: a blob per envelope and per root
    key, the metadata and keys trees, and the root tree, whose id is
    returned. *)
Definition writePolicyTree (s : State) : git.M plumbing.Hash :=
  metadataEntries ← git.forEachM writeMetadataEntry (map_to_list (metadataFiles s));
  metadataTreeID ← gitinterface.WriteTree X metadataEntries;
  keysEntries ← git.forEachM writeKeyEntry (RootPublicKeys s);
  keysTreeID ← gitinterface.WriteTree X keysEntries;
  gitinterface.WriteTree X
    [ {| plumbing.Name := metadataTreeEntryName; plumbing.Mode := plumbing.Dir;
         plumbing.EntryHash := metadataTreeID |};
      {| plumbing.Name := rootPublicKeysTreeEntryName; plumbing.Mode := plumbing.Dir;
         plumbing.EntryHash := keysTreeID |} ].

(** [Commit] verifies and writes the State to the policy namespace. It
    also creates an RSL entry recording the new tip of the policy
    namespace. *)
Definition Commit (s : State) (commitMessage : string) (signCommit : bool) : git.M unit :=
  git.pure (Verify s) ;;
  let commitMessage :=
    if (String.length commitMessage =? 0)%nat then DefaultCommitMessage else commitMessage in
  policyRootTreeID ← writePolicyTree s;
  originalCommitID ← git.read (fun repo => git.Reference repo PolicyRef);
  commitID ← gitinterface.Commit X policyRootTreeID PolicyRef (object.Text commitMessage)
               signCommit;
  (* We must reset to original policy commit if err != nil from here onwards. *)
  recordOrReset originalCommitID commitID signCommit.

(** The first loop of [findDelegationEntry]: the metadata of every
    delegation envelope, decoded; the first envelope that does not decode
    ends the loop. Go ranges over the envelopes in no fixed order; the
    order here is that of [map_to_list]. *)
Definition decodeDelegationEnvelopes (s : State)
    : result (gmap string tuf.TargetsMetadata) :=
  foldEach (fun acc (role : string * sslibdsse.Envelope) =>
              targetsMetadata ← decodeEnvelope (Some (snd role));
              Ok (<[fst role := targetsMetadata]> acc))
           (map_to_list (DelegationEnvelopes s)) ∅.

(** The second loop of [findDelegationEntry], breadth first. It need
    not end: [None] is fuel run out. Indexing
    [delegationTargetsMetadata] with a name it does not hold yields a nil
    pointer, which is dereferenced. *)
Fixpoint findDelegationLoop (fuel : nat) (s : State)
    (delegationTargetsMetadata : gmap string tuf.TargetsMetadata) (roleName : string)
    (delegationsQueue : list tuf.Delegation) : option (result tuf.Delegation) :=
  match fuel with
  | O => None
  | S fuel' =>
      match delegationsQueue with
      | [] => Some (Err ErrDelegationNotFound)
      | delegation :: delegationsQueue' =>
          if String.eqb (tuf.Name delegation) roleName then Some (Ok delegation)
          else if HasTargetsRole s (tuf.Name delegation) then
            match delegationTargetsMetadata !! tuf.Name delegation with
            | None => Some Panic
            | Some delegatedMetadata =>
                match tuf.Delegations_ delegatedMetadata with
                | None => Some Panic
                | Some delegations =>
                    findDelegationLoop fuel' s delegationTargetsMetadata roleName
                      (delegationsQueue' ++ tuf.Roles delegations)
                end
            end
          else
            findDelegationLoop fuel' s delegationTargetsMetadata roleName delegationsQueue'
      end
  end.

Definition findDelegationEntry (fuel : nat) (s : State) (roleName : string)
    : option (result tuf.Delegation) :=
  match GetTargetsMetadata s TargetsRoleName with
  | Err e => Some (Err e)
  | Panic => Some Panic
  | Ok topLevelTargetsMetadata =>
      match decodeDelegationEnvelopes s with
      | Err e => Some (Err e)
      | Panic => Some Panic
      | Ok delegationTargetsMetadata =>
          match tuf.Delegations_ topLevelTargetsMetadata with
          | None => Some Panic
          | Some delegations =>
              findDelegationLoop fuel s delegationTargetsMetadata roleName
                (tuf.Roles delegations)
          end
      end
  end.

(** [FindAuthorizedSigningKeyIDs] traverses the policy metadata to
    identify the keys trusted to sign for the specified role. *)
Definition FindAuthorizedSigningKeyIDs (fuel : nat) (s : State) (roleName : string)
    : option (result (list string)) :=
  match Verify s with
  | Err e => Some (Err e)
  | Panic => Some Panic
  | Ok _ =>
      match GetRootMetadata s with
      | Err e => Some (Err e)
      | Panic => Some Panic
      | Ok rootMetadata =>
          if String.eqb roleName RootRoleName then
            Some (Ok (tuf.KeyIDs
                        (default tuf.zeroRole (tuf.RootRoles rootMetadata !! RootRoleName))))
          else if String.eqb roleName TargetsRoleName then
            match tuf.RootRoles rootMetadata !! TargetsRoleName with
            | None => Some (Err ErrDelegationNotFound)
            | Some targetsRole => Some (Ok (tuf.KeyIDs targetsRole))
            end
          else
            match findDelegationEntry fuel s roleName with
            | None => None
            | Some (Err e) => Some (Err e)
            | Some Panic => Some Panic
            | Some (Ok entry) => Some (Ok (tuf.KeyIDs (tuf.DRole entry)))
            end
      end
  end.

(** The delegations that the metadata of a state declares: those of
    the top-level targets metadata and those of the metadata of a
    delegation envelope. *)
Definition declared (s : State) (d : tuf.Delegation) : Prop :=
  (exists top delegations,
     GetTargetsMetadata s TargetsRoleName = Ok top
     /\ tuf.Delegations_ top = Some delegations /\ d ∈ tuf.Roles delegations)
  \/ (exists name env m delegations,
        DelegationEnvelopes s !! name = Some env
        /\ decodeEnvelope (Some env) = Ok m
        /\ tuf.Delegations_ m = Some delegations /\ d ∈ tuf.Roles delegations).

(** *** [Verify] on the heap

    In Go the state is a struct behind a pointer, and its delegation
    envelopes are a map object that the struct refers to. [Verify]
    makes a map of its own, copies the envelopes into it, and deletes
    from the copy. The heap holds the structs and the map objects;
    envelopes and keys are never written through and stay values. *)

Record StateStruct : Type := {
  RootEnvelopeF : option sslibdsse.Envelope;
  TargetsEnvelopeF : option sslibdsse.Envelope;
  DelegationEnvelopesF : option positive;
  RootPublicKeysF : list tuf.Key
}.

Record Heap : Type := {
  structs : gmap positive StateStruct;
  envelopeMaps : gmap positive (gmap string sslibdsse.Envelope)
}.

(** The state a struct stands for; a nil map reads as the empty map. *)
Definition contents (h : Heap) (st : StateStruct) : State :=
  {| RootEnvelope := RootEnvelopeF st;
     TargetsEnvelope := TargetsEnvelopeF st;
     DelegationEnvelopes :=
       default ∅ (DelegationEnvelopesF st ≫= (fun l => envelopeMaps h !! l));
     RootPublicKeys := RootPublicKeysF st |}.

Definition setMap (h : Heap) (l : positive) (m : gmap string sslibdsse.Envelope) : Heap :=
  {| structs := structs h; envelopeMaps := <[l := m]> (envelopeMaps h) |}.

(** The loop of [Verify], reading and deleting from the map object
    [l]. *)
Fixpoint verifyLoopHeap (n : nat) (l : positive) (keys : option (gmap string tuf.Key))
    (queue : list tuf.Delegation) (h : Heap) {struct n} : result unit * Heap :=
  (fix scan (queue : list tuf.Delegation) {struct queue} : result unit * Heap :=
     match queue with
     | [] => (Ok tt, h)
     | delegation :: queue' =>
         match envelopeMaps h !! l with
         | None => (Panic, h)
         | Some envs =>
             match envs !! tuf.Name delegation with
             | None => scan queue'
             | Some delegationEnvelope =>
                 match n with
                 | O => (Panic, h)
                 | S n' =>
                     let h' := setMap h l (delete (tuf.Name delegation) envs) in
                     match verifyDelegation keys delegation delegationEnvelope with
                     | Err e => (Err e, h')
                     | Panic => (Panic, h')
                     | Ok delegationMetadata =>
                         match tuf.Delegations_ delegationMetadata with
                         | None => verifyLoopHeap n' l keys queue' h'
                         | Some delegations =>
                             match assignAll keys (tuf.Keys delegations) with
                             | Err e => (Err e, h')
                             | Panic => (Panic, h')
                             | Ok keys' =>
                                 verifyLoopHeap n' l keys'
                                   (queue' ++ tuf.Roles delegations) h'
                             end
                         end
                     end
                 end
             end
         end
     end) queue.

(** [s.Verify(ctx)] for the struct at [p]: the verdict and the heap
    after the call. *)
Definition VerifyHeap (p : positive) (h : Heap) : result unit * Heap :=
  match structs h !! p with
  | None => (Panic, h)
  | Some st =>
      match verifyTop (contents h st) with
      | Err e => (Err e, h)
      | Panic => (Panic, h)
      | Ok None => (Ok tt, h)
      | Ok (Some delegations) =>
          (* delegationEnvelopes := map[string]*sslibdsse.Envelope{} and the copy *)
          let l := fresh (dom (envelopeMaps h)) in
          let delegationEnvelopes := DelegationEnvelopes (contents h st) in
          let h1 := setMap h l delegationEnvelopes in
          match verifyLoopHeap (size delegationEnvelopes) l (tuf.Keys delegations)
                  (tuf.Roles delegations) h1 with
          | (Ok _, h2) =>
              match envelopeMaps h2 !! l with
              | None => (Panic, h2)
              | Some remaining =>
                  if (size remaining =? 0)%nat then (Ok tt, h2)
                  else (Err ErrDanglingDelegationMetadata, h2)
              end
          | (Err e, h2) => (Err e, h2)
          | (Panic, h2) => (Panic, h2)
          end
      end
  end.

End policy.
End policy.

(** ** A concrete environment and concrete states

    A small, executable instance of [Ext] and the states and repositories
    on which statements are evaluated. Payloads and blobs are named by
    short strings that the codecs resolve; a signature names the key and
    the payload it signs. *)

Module fixture.

(** Modelled from the spec: the pattern matcher of package tuf is not
    under src/. §6: [*] matches within a single segment, [**] matches
    any suffix, any other character matches itself; matching is
    case-sensitive. *)
Fixpoint glob (pattern target : list ascii) {struct pattern} : bool :=
  match pattern with
  | [] => match target with [] => true | _ => false end
  | "*"%char :: "*"%char :: _ => true
  | "*"%char :: pattern' =>
      (fix star (target : list ascii) : bool :=
         glob pattern' target
         || match target with
            | c :: target' => negb (Ascii.eqb c "/") && star target'
            | [] => false
            end) target
  | c :: pattern' =>
      match target with
      | c' :: target' => Ascii.eqb c c' && glob pattern' target'
      | [] => false
      end
  end.

Definition matchGlob (pattern target : string) : bool :=
  glob (list_ascii_of_string pattern) (list_ascii_of_string target).

(** Object ids: a polynomial hash of the parts of the object. *)
Definition mix (a b : N) : N := ((a * 1000003 + b + 1) mod 2305843009213693951)%N.

Fixpoint stringN (s : string) : N :=
  match s with
  | EmptyString => 1%N
  | String c s' => mix (N_of_ascii c) (stringN s')
  end.

Definition listN {A : Type} (f : A -> N) (l : list A) : N :=
  fold_right (fun a acc => mix (f a) acc) 1%N l.

Definition entryN (e : plumbing.TreeEntry) : N :=
  mix (stringN (plumbing.Name e))
      (mix (match plumbing.Mode e with plumbing.Dir => 1 | plumbing.Regular => 2 end)
           (plumbing.EntryHash e)).

Definition messageN (m : object.Message) : N :=
  match m with
  | object.Text s => mix 1 (stringN s)
  | object.ReferenceEntryMessage r t => mix 2 (mix (stringN r) t)
  | object.AnnotationEntryMessage ids skip msg =>
      mix 3 (mix (listN id ids) (mix (if skip then 1 else 0) (stringN msg)))
  end.

Definition commitN (c : object.Commit) : N :=
  mix (object.TreeHash c)
    (mix (listN id (object.ParentHashes c))
       (mix (messageN (object.Message_ c))
          (mix (stringN (object.PGPSignature c)) (stringN (object.Name (object.Author c)))))).

Definition key (id : string) (kind : tuf.KeyKind) : tuf.Key :=
  {| tuf.KeyID := id; tuf.KeyType := kind; tuf.Scheme := ""; tuf.KeyVal := id |}.

Definition rootKey : tuf.Key := key "root-key" tuf.ED25519.
Definition gpgKey : tuf.Key := key "gpg-key" tuf.PGP.
Definition devKey : tuf.Key := key "dev-key" tuf.ED25519.

Definition signatureOf (k : tuf.Key) (payload : string) : sslibdsse.Signature :=
  {| sslibdsse.KeyID := tuf.KeyID k;
     sslibdsse.Sig := "sig:" +:+ tuf.KeyID k +:+ ":" +:+ payload |}.

Definition signed (payload : string) (signers : list tuf.Key) : sslibdsse.Envelope :=
  {| sslibdsse.PayloadType := "application/vnd.gittuf+json";
     sslibdsse.Payload := payload;
     sslibdsse.Signatures := (fun k => signatureOf k payload) <$> signers |}.

Definition role (keyIDs : list string) : tuf.Role :=
  {| tuf.KeyIDs := keyIDs; tuf.Threshold := 1 |}.

Definition rootMetadata : tuf.RootMetadata :=
  {| tuf.RootVersion := 1; tuf.RootExpires := "";
     tuf.RootKeys := {[ "root-key" := rootKey ]};
     tuf.RootRoles := {[ "root" := role ["root-key"]; "targets" := role ["root-key"] ]} |}.

Definition delegation (name : string) (paths keyIDs : list string) (terminating : bool)
    : tuf.Delegation :=
  {| tuf.Name := name; tuf.Paths := paths; tuf.Terminating := terminating;
     tuf.DRole := role keyIDs |}.

Definition allowRule : tuf.Delegation := delegation "allow-rule" ["*"] [] false.

Definition targets (keys : list tuf.Key) (roles : list tuf.Delegation) : tuf.TargetsMetadata :=
  {| tuf.Version := 1; tuf.Expires := "";
     tuf.Delegations_ :=
       Some {| tuf.Keys := Some (list_to_map ((fun k => (tuf.KeyID k, k)) <$> keys));
               tuf.Roles := roles |} |}.

(** The targets documents, by payload. *)
Definition targetsDocuments : list (string * tuf.TargetsMetadata) :=
  [ (* scenario 3 of the spec: [main], then the allow-rule *)
    ("targets-main",
     targets [gpgKey]
       [ delegation "main" ["git:refs/heads/main"] ["gpg-key"] false; allowRule ]);
    (* delegated metadata of [main] *)
    ("main-children",
     targets [devKey]
       [ delegation "reviewers" ["git:refs/heads/main"] ["dev-key"] false; allowRule ]);
    (* a terminating delegation followed by a sibling for the same path *)
    ("targets-terminating",
     targets [gpgKey; devKey]
       [ delegation "main" ["git:refs/heads/main"] ["gpg-key"] true;
         delegation "fallback" ["git:refs/heads/*"] ["dev-key"] false;
         allowRule ]);
    (* a leaf document *)
    ("leaf", {| tuf.Version := 1; tuf.Expires := ""; tuf.Delegations_ := None |}) ].

Fixpoint assoc {A : Type} (k : string) (l : list (string * A)) : option A :=
  match l with
  | [] => None
  | (k', a) :: l' => if String.eqb k k' then Some a else assoc k l'
  end.

Definition envelopes : list sslibdsse.Envelope :=
  [ signed "root" [rootKey];
    signed "targets-main" [rootKey];
    signed "targets-terminating" [rootKey];
    signed "main-children" [gpgKey];
    signed "leaf" [devKey] ].

Definition X : Ext :=
  {| decodeRootMetadata := fun payload =>
       if String.eqb payload "root" then inr rootMetadata else inl "illegal base64 data";
     decodeTargetsMetadata := fun payload =>
       match assoc payload targetsDocuments with
       | Some t => inr t
       | None => inl "illegal base64 data"
       end;
     validateTargets := fun _ => None;
     matchPattern := matchGlob;
     verifySignature := fun k env sig =>
       String.eqb sig (sslibdsse.Sig (signatureOf k (sslibdsse.Payload env)));
     unmarshalEnvelope := fun contents =>
       match List.find (fun e => String.eqb (sslibdsse.Payload e) contents) envelopes with
       | Some e => inr e
       | None => inl "unexpected end of JSON input"
       end;
     marshalEnvelope := fun e => inr (sslibdsse.Payload e);
     loadKeyFromBytes := fun contents =>
       match List.find (fun k => String.eqb (tuf.KeyID k) contents) [rootKey; gpgKey; devKey] with
       | Some k => inr k
       | None => inl "unexpected end of JSON input"
       end;
     marshalKey := fun k => inr (tuf.KeyID k);
     hashBlob := fun contents => mix 1 (stringN contents);
     hashTree := fun entries => mix 2 (listN entryN entries);
     hashCommit := fun c => mix 3 (commitN c);
     signGitObject := fun _ => inl "no signing key";
     gitConfig := inr ("Jane Doe", "jane.doe@example.com");
     clockNow := 0;
     isAncestor := fun _ _ => inr false |}.

(** A state with only a root, as [createTestStateWithOnlyRoot]. *)
Definition stateWithOnlyRoot : policy.State :=
  {| policy.RootEnvelope := Some (signed "root" [rootKey]);
     policy.TargetsEnvelope := None;
     policy.DelegationEnvelopes := ∅;
     policy.RootPublicKeys := [rootKey] |}.

(** A state with the policy of scenario 3, as
    [createTestStateWithPolicy]. *)
Definition stateWithPolicy : policy.State :=
  {| policy.RootEnvelope := Some (signed "root" [rootKey]);
     policy.TargetsEnvelope := Some (signed "targets-main" [rootKey]);
     policy.DelegationEnvelopes := ∅;
     policy.RootPublicKeys := [rootKey] |}.

(** The same top-level targets, and delegated metadata for [main]. *)
Definition stateWithDelegatedMain : policy.State :=
  {| policy.RootEnvelope := Some (signed "root" [rootKey]);
     policy.TargetsEnvelope := Some (signed "targets-main" [rootKey]);
     policy.DelegationEnvelopes := {[ "main" := signed "main-children" [gpgKey] ]};
     policy.RootPublicKeys := [rootKey] |}.

(** A terminating [main] without delegated metadata. *)
Definition stateWithTerminatingMain : policy.State :=
  {| policy.RootEnvelope := Some (signed "root" [rootKey]);
     policy.TargetsEnvelope := Some (signed "targets-terminating" [rootKey]);
     policy.DelegationEnvelopes := ∅;
     policy.RootPublicKeys := [rootKey] |}.

(** A terminating [main] with delegated metadata. *)
Definition stateWithTerminatingDelegatedMain : policy.State :=
  {| policy.RootEnvelope := Some (signed "root" [rootKey]);
     policy.TargetsEnvelope := Some (signed "targets-terminating" [rootKey]);
     policy.DelegationEnvelopes := {[ "main" := signed "main-children" [gpgKey] ]};
     policy.RootPublicKeys := [rootKey] |}.

(** Only a root, and a delegation envelope that nothing delegates to. *)
Definition stateWithOrphan : policy.State :=
  {| policy.RootEnvelope := Some (signed "root" [rootKey]);
     policy.TargetsEnvelope := None;
     policy.DelegationEnvelopes := {[ "orphan" := signed "leaf" [devKey] ]};
     policy.RootPublicKeys := [rootKey] |}.

(** The roles of the top-level targets metadata of a state. *)
Definition topLevelRoles (s : policy.State) : list tuf.Delegation :=
  match policy.GetTargetsMetadata X s policy.TargetsRoleName with
  | Ok t => match tuf.Delegations_ t with Some d => tuf.Roles d | None => [] end
  | _ => []
  end.

(** The delegations of a targets document, by payload, and their keys. *)
Definition delegationsOf (payload : string) : tuf.Delegations :=
  match assoc payload targetsDocuments with
  | Some {| tuf.Delegations_ := Some d |} => d
  | _ => {| tuf.Keys := None; tuf.Roles := [] |}
  end.

Definition keysOf (payload : string) : option (gmap string tuf.Key) :=
  tuf.Keys (delegationsOf payload).

(** The keys of one document assigned into those of another. *)
Definition assigned (dst src : string) : option (gmap string tuf.Key) :=
  match policy.assignAll (keysOf dst) (keysOf src) with
  | Ok keys => keys
  | _ => None
  end.

(** *** Repositories *)

Definition emptyRepository : git.Repository :=
  {| git.refs := ∅; git.blobs := ∅; git.trees := ∅; git.commits := ∅ |}.

Definition run {A : Type} (m : git.M A) (repo : git.Repository) : git.Repository :=
  snd (m repo).

Definition main : string := "refs/heads/main".
Definition feature : string := "refs/heads/feature".

(** The commit id a step returns; the zero hash if it fails. *)
Definition idOf (m : git.M plumbing.Hash) (repo : git.Repository) : plumbing.Hash :=
  match fst (m repo) with
  | Ok h => h
  | _ => plumbing.ZeroHash
  end.

Definition commitOn (refName message : string) : git.M plumbing.Hash :=
  gitinterface.Commit X (gitinterface.EmptyTree X) refName (object.Text message) false.

(** The history of [TestGetStateForCommit]: the first policy; a commit
    on main and its RSL entry; a commit on a feature branch and its RSL
    entry; the second policy; main moved to the feature commit and a new
    RSL entry for main. *)
Definition repo1 : git.Repository :=
  run (policy.Commit X stateWithPolicy "First state" false)
    (run policy.InitializeNamespace emptyRepository).

Definition commit1 : plumbing.Hash := idOf (commitOn main "Initial commit") repo1.

Definition repo2 : git.Repository :=
  run (rsl.CommitReferenceEntry X main commit1 false)
    (run (commitOn main "Initial commit") repo1).

Definition commit2 : plumbing.Hash :=
  idOf (commitOn feature "Second commit") (git.SetReference repo2 feature commit1).

Definition repo3 : git.Repository :=
  run (rsl.CommitReferenceEntry X feature commit2 false)
    (run (commitOn feature "Second commit") (git.SetReference repo2 feature commit1)).

Definition repo4 : git.Repository :=
  run (policy.Commit X stateWithDelegatedMain "Second state" false) repo3.

Definition repo5 : git.Repository :=
  run (rsl.CommitReferenceEntry X main commit2 false)
    (snd (git.CheckAndSetReference repo4 main commit2 commit1)).

(** Reachability along parents in the history above. *)
Fixpoint reaches (fuel : nat) (from to : plumbing.Hash) : bool :=
  N.eqb from to
  || match fuel with
     | O => false
     | S fuel' =>
         match git.commits repo5 !! from with
         | Some c => existsb (fun parent => reaches fuel' parent to) (object.ParentHashes c)
         | None => false
         end
     end.

(** The environment, with the ancestry of that history. *)
Definition Y : Ext :=
  {| decodeRootMetadata := decodeRootMetadata X;
     decodeTargetsMetadata := decodeTargetsMetadata X;
     validateTargets := validateTargets X;
     matchPattern := matchPattern X;
     verifySignature := verifySignature X;
     unmarshalEnvelope := unmarshalEnvelope X;
     marshalEnvelope := marshalEnvelope X;
     loadKeyFromBytes := loadKeyFromBytes X;
     marshalKey := marshalKey X;
     hashBlob := hashBlob X;
     hashTree := hashTree X;
     hashCommit := hashCommit X;
     signGitObject := signGitObject X;
     gitConfig := gitConfig X;
     clockNow := clockNow X;
     isAncestor := fun commit other => inr (reaches 16 other commit) |}.

Definition commitObject (repo : git.Repository) (h : plumbing.Hash) : object.Commit :=
  match git.CommitObject repo h with
  | Ok c => c
  | _ => gitinterface.CreateCommitObject ("", "") plumbing.ZeroHash plumbing.ZeroHash
           (object.Text "") 0
  end.

(** The latest RSL entry for the policy ref. *)
Definition policyEntry (repo : git.Repository) : rsl.ReferenceEntry :=
  match rsl.GetLatestReferenceEntryForRef repo policy.PolicyRef with
  | Ok e => e
  | _ => {| rsl.ID := plumbing.ZeroHash; rsl.RefName := ""; rsl.TargetID := plumbing.ZeroHash |}
  end.

(** The root tree of the commit an RSL entry records. *)
Definition rootTree (repo : git.Repository) (entry : rsl.ReferenceEntry)
    : list plumbing.TreeEntry :=
  match git.TreeObject repo (object.TreeHash (commitObject repo (rsl.TargetID entry))) with
  | Ok t => t
  | _ => []
  end.

(** The reference state log of a repository, newest entry first. *)
Definition logOf (repo : git.Repository) : list rsl.Entry :=
  match rsl.log repo with
  | Ok entries => entries
  | _ => []
  end.

(** The [i]-th reference entry of the log, counted from the oldest. *)
Definition referenceAt (repo : git.Repository) (i : nat) : rsl.ReferenceEntry :=
  match nth_error (rev (logOf repo)) i with
  | Some (rsl.Reference e) => e
  | _ => {| rsl.ID := plumbing.ZeroHash; rsl.RefName := ""; rsl.TargetID := plumbing.ZeroHash |}
  end.

(** A policy commit whose root tree has the metadata subtree only. *)
Definition repoWithoutKeysTree : git.Repository :=
  {| git.refs := {[ policy.PolicyRef := 10%N ]};
     git.blobs := ∅;
     git.trees := {[ 11%N := [ {| plumbing.Name := "metadata"; plumbing.Mode := plumbing.Dir;
                                  plumbing.EntryHash := 12%N |} ];
                     12%N := [] ]};
     git.commits := {[ 10%N := gitinterface.CreateCommitObject ("", "") 11%N plumbing.ZeroHash
                                 (object.Text "Policy") 0 ]} |}.

(** A policy commit whose root tree has a file next to the metadata
    subtree. *)
Definition repoWithForeignEntry : git.Repository :=
  {| git.refs := {[ policy.PolicyRef := 10%N ]};
     git.blobs := {[ 13%N := "# policy" ]};
     git.trees := {[ 11%N := [ {| plumbing.Name := "metadata"; plumbing.Mode := plumbing.Dir;
                                  plumbing.EntryHash := 12%N |};
                               {| plumbing.Name := "README.md"; plumbing.Mode := plumbing.Regular;
                                  plumbing.EntryHash := 13%N |} ];
                     12%N := [] ]};
     git.commits := {[ 10%N := gitinterface.CreateCommitObject ("", "") 11%N plumbing.ZeroHash
                                 (object.Text "Policy") 0 ]} |}.

Definition entryWithoutKeysTree : rsl.Entry :=
  rsl.Reference {| rsl.ID := 20%N; rsl.RefName := policy.PolicyRef; rsl.TargetID := 10%N |}.

(** An environment whose signer works, and one that signs the policy
    commit but fails on the RSL entry. *)
Definition withSigner (sign : object.Commit -> string + string) : Ext :=
  {| decodeRootMetadata := decodeRootMetadata X;
     decodeTargetsMetadata := decodeTargetsMetadata X;
     validateTargets := validateTargets X;
     matchPattern := matchPattern X;
     verifySignature := verifySignature X;
     unmarshalEnvelope := unmarshalEnvelope X;
     marshalEnvelope := marshalEnvelope X;
     loadKeyFromBytes := loadKeyFromBytes X;
     marshalKey := marshalKey X;
     hashBlob := hashBlob X;
     hashTree := hashTree X;
     hashCommit := hashCommit X;
     signGitObject := sign;
     gitConfig := gitConfig X;
     clockNow := clockNow X;
     isAncestor := isAncestor X |}.

Definition failingOnEntries : Ext :=
  withSigner (fun c =>
    match object.Message_ c with
    | object.Text _ => inr "-----BEGIN PGP SIGNATURE-----"
    | _ => inl "signing failed"
    end).

(** A heap with the state of scenario 3 plus delegated metadata. *)
Definition heap : policy.Heap :=
  {| policy.structs :=
       {[ 1%positive :=
            {| policy.RootEnvelopeF := Some (signed "root" [rootKey]);
               policy.TargetsEnvelopeF := Some (signed "targets-main" [rootKey]);
               policy.DelegationEnvelopesF := Some 2%positive;
               policy.RootPublicKeysF := [rootKey] |} ]};
     policy.envelopeMaps := {[ 2%positive := {[ "main" := signed "main-children" [gpgKey] ]} ]} |}.

(** Targets documents with a delegation whose own metadata delegates to
    its name again, a rule named as the top-level role, and a rule whose
    key no metadata declares. *)
Definition moreDocuments : list (string * tuf.TargetsMetadata) :=
  [ ("targets-loop",
     targets [gpgKey] [ delegation "loop" ["git:refs/heads/main"] ["gpg-key"] false; allowRule ]);
    ("loop-children",
     targets [gpgKey] [ delegation "loop" ["git:refs/heads/main"] ["gpg-key"] false; allowRule ]);
    ("targets-shadow",
     targets [gpgKey]
       [ delegation "targets" ["git:refs/heads/*"] ["gpg-key"] false;
         delegation "main" ["git:refs/heads/main"] ["gpg-key"] false; allowRule ]);
    ("targets-undeclared",
     targets [gpgKey]
       [ delegation "main" ["git:refs/heads/main"] ["gpg-key"; "lost-key"] false; allowRule ]) ].

Definition W : Ext :=
  {| decodeRootMetadata := decodeRootMetadata X;
     decodeTargetsMetadata := fun payload =>
       match assoc payload (targetsDocuments ++ moreDocuments) with
       | Some t => inr t
       | None => inl "illegal base64 data"
       end;
     validateTargets := validateTargets X;
     matchPattern := matchPattern X;
     verifySignature := verifySignature X;
     unmarshalEnvelope := unmarshalEnvelope X;
     marshalEnvelope := marshalEnvelope X;
     loadKeyFromBytes := loadKeyFromBytes X;
     marshalKey := marshalKey X;
     hashBlob := hashBlob X;
     hashTree := hashTree X;
     hashCommit := hashCommit X;
     signGitObject := signGitObject X;
     gitConfig := gitConfig X;
     clockNow := clockNow X;
     isAncestor := isAncestor X |}.

Definition stateWith (targetsPayload : string)
    (delegationEnvelopes : gmap string sslibdsse.Envelope) : policy.State :=
  {| policy.RootEnvelope := Some (signed "root" [rootKey]);
     policy.TargetsEnvelope := Some (signed targetsPayload [rootKey]);
     policy.DelegationEnvelopes := delegationEnvelopes;
     policy.RootPublicKeys := [rootKey] |}.

Definition stateWithLoop : policy.State :=
  stateWith "targets-loop" {[ "loop" := signed "loop-children" [gpgKey] ]}.

(** The policy of scenario 3 with delegated metadata for [main] that
    delegates no further, and a state whose targets payload no decoder
    knows. *)
Definition stateWithLeaf : policy.State :=
  stateWith "targets-main" {[ "main" := signed "leaf" [gpgKey] ]}.

Definition stateWithUndecodableTargets : policy.State := stateWith "not-a-document" ∅.

(** *** Object ids that do not collide

    The id of an object is the encoding of its fields, as a number that
    is never zero; the cached id of a commit is not one of its fields. *)

Definition entryFields (e : plumbing.TreeEntry) : list positive :=
  [ encode (plumbing.Name e);
    encode (match plumbing.Mode e with plumbing.Dir => true | plumbing.Regular => false end);
    encode (plumbing.EntryHash e) ].

Definition messageFields (m : object.Message) : list positive :=
  match m with
  | object.Text s => [1%positive; encode s]
  | object.ReferenceEntryMessage refName targetID =>
      [2%positive; encode refName; encode targetID]
  | object.AnnotationEntryMessage ids skip msg =>
      [3%positive; encode ids; encode skip; encode msg]
  end.

Definition signatureFields (s : object.Signature) : list positive :=
  [encode (object.Name s); encode (object.Email s); encode (object.When s)].

Definition commitFields (c : object.Commit) : list positive :=
  [ encode (object.TreeHash c); encode (object.ParentHashes c);
    encode (object.PGPSignature c);
    encode (signatureFields (object.Author c));
    encode (signatureFields (object.Committer c)) ]
  ++ messageFields (object.Message_ c).

(** The environment [X] with these ids. *)
Definition I : Ext :=
  {| decodeRootMetadata := decodeRootMetadata X;
     decodeTargetsMetadata := decodeTargetsMetadata X;
     validateTargets := validateTargets X;
     matchPattern := matchPattern X;
     verifySignature := verifySignature X;
     unmarshalEnvelope := unmarshalEnvelope X;
     marshalEnvelope := marshalEnvelope X;
     loadKeyFromBytes := loadKeyFromBytes X;
     marshalKey := marshalKey X;
     hashBlob := fun contents => N.pos (encode contents);
     hashTree := fun entries => N.pos (encode (entryFields <$> entries));
     hashCommit := fun c => N.pos (encode (commitFields c));
     signGitObject := signGitObject X;
     gitConfig := gitConfig X;
     clockNow := clockNow X;
     isAncestor := isAncestor X |}.

(** A repository with its policy namespace, and the first policy
    committed to it, under these ids. *)
Definition initialized : git.Repository := run policy.InitializeNamespace emptyRepository.

Definition committed : git.Repository :=
  run (policy.Commit I stateWithDelegatedMain "First state" false) initialized.

(** The policy of scenario 3 without its root public keys. *)
Definition stateWithoutRootKeys : policy.State :=
  {| policy.RootEnvelope := Some (signed "root" [rootKey]);
     policy.TargetsEnvelope := Some (signed "targets-main" [rootKey]);
     policy.DelegationEnvelopes := ∅;
     policy.RootPublicKeys := [] |}.

End fixture.

(** * Properties *)

(** ** Outcomes and the repository monad *)

Lemma bind_Ok {A B : Type} (m : result A) (f : A -> result B) (b : B) :
  m ≫= f = Ok b -> exists a, m = Ok a /\ f a = Ok b.
Proof. destruct m as [a| |]; simpl; intros H; try discriminate. eauto. Qed.

Lemma bind_Ok_l {A B : Type} (a : A) (f : A -> result B) : Ok a ≫= f = f a.
Proof. reflexivity. Qed.

Lemma lift_not_package_error {A : Type} (r : string + A) (e : Error) :
  lift r = Err e -> exists msg, e = ErrExternal msg.
Proof. destruct r as [msg|a]; simpl; intros H; inversion H; eauto. Qed.

Lemma lift_not_Panic {A : Type} (r : string + A) : lift r <> Panic.
Proof. destruct r; discriminate. Qed.

Lemma SetReference_same (repo : git.Repository) (name : string) (h : plumbing.Hash) :
  git.refs repo !! name = Some h -> git.SetReference repo name h = repo.
Proof.
  intros H. destruct repo as [refs blobs trees commits]. unfold git.SetReference, git.setRefs.
  simpl in *. f_equal. by apply insert_id.
Qed.

(** ** InitializeNamespace *)

(** C3. On a repository without the policy ref, [InitializeNamespace]
    succeeds and leaves [refs/gittuf/policy] at the zero hash; on a
    repository whose policy ref holds the zero hash it succeeds and
    changes nothing; on a repository whose policy ref holds any other
    hash it returns [ErrPolicyExists] and changes nothing. *)
Theorem InitializeNamespace_zero_or_exists (repo : git.Repository) :
  (git.refs repo !! policy.PolicyRef = None ->
     policy.InitializeNamespace repo
       = (Ok tt, git.SetReference repo policy.PolicyRef plumbing.ZeroHash)
     /\ git.Reference (snd (policy.InitializeNamespace repo)) policy.PolicyRef
          = Ok plumbing.ZeroHash)
  /\ (git.refs repo !! policy.PolicyRef = Some plumbing.ZeroHash ->
        policy.InitializeNamespace repo = (Ok tt, repo))
  /\ (forall h : plumbing.Hash, h <> plumbing.ZeroHash ->
        git.refs repo !! policy.PolicyRef = Some h ->
        policy.InitializeNamespace repo = (Err ErrPolicyExists, repo)).
Proof.
  unfold policy.InitializeNamespace, git.Reference. split; [| split].
  - intros ->. split; [reflexivity |].
    simpl. unfold git.Reference. simpl. by rewrite lookup_insert_eq.
  - intros H. rewrite H. simpl. by rewrite SetReference_same.
  - intros h Hh H. rewrite H. unfold plumbing.IsZero.
    destruct (N.eqb_spec h plumbing.ZeroHash); [contradiction | reflexivity].
Qed.

Lemma InitializeNamespace_zero_or_exists_witness :
  policy.InitializeNamespace fixture.emptyRepository
    = (Ok tt, git.SetReference fixture.emptyRepository policy.PolicyRef plumbing.ZeroHash)
  /\ policy.InitializeNamespace
       (git.SetReference fixture.emptyRepository policy.PolicyRef plumbing.ZeroHash)
     = (Ok tt, git.SetReference fixture.emptyRepository policy.PolicyRef plumbing.ZeroHash)
  /\ policy.InitializeNamespace (git.SetReference fixture.emptyRepository policy.PolicyRef 7%N)
     = (Err ErrPolicyExists, git.SetReference fixture.emptyRepository policy.PolicyRef 7%N).
Proof.
  split; [| split].
  - apply (InitializeNamespace_zero_or_exists fixture.emptyRepository). reflexivity.
  - apply (InitializeNamespace_zero_or_exists
             (git.SetReference fixture.emptyRepository policy.PolicyRef plumbing.ZeroHash)).
    reflexivity.
  - destruct (InitializeNamespace_zero_or_exists
                (git.SetReference fixture.emptyRepository policy.PolicyRef 7%N))
      as (_ & _ & H).
    apply (H 7%N); [discriminate | reflexivity].
Defined.

(** ** Accessors of a state *)

Section accessors.
Context (X : Ext).

(** C9. On a state without a targets envelope whose root envelope
    decodes, [PublicKeys] returns the nil map and a nil error: the root
    public keys and the keys of the root metadata are not returned. *)
Theorem PublicKeys_nil_without_targets (s : policy.State) (rootMetadata : tuf.RootMetadata) :
  policy.TargetsEnvelope s = None ->
  policy.GetRootMetadata X s = Ok rootMetadata ->
  policy.PublicKeys X s = Ok None.
Proof.
  intros Htargets Hroot. unfold policy.PublicKeys. rewrite Hroot. simpl.
  by rewrite Htargets.
Qed.

(** C10. [GetTargetsMetadata] returns [ErrMetadataNotFound] exactly for
    a role name other than [targets] without an entry among the
    delegation envelopes; for [targets] it dereferences the targets
    envelope, so that it panics exactly when the state has none and
    otherwise returns what decoding the envelope returns. *)
Theorem GetTargetsMetadata_not_found_or_panic (s : policy.State) (roleName : string) :
  (policy.GetTargetsMetadata X s roleName = Err ErrMetadataNotFound
     <-> roleName <> policy.TargetsRoleName
         /\ policy.DelegationEnvelopes s !! roleName = None)
  /\ (policy.GetTargetsMetadata X s policy.TargetsRoleName = Panic
        <-> policy.TargetsEnvelope s = None)
  /\ (forall e, policy.TargetsEnvelope s = Some e ->
        policy.GetTargetsMetadata X s policy.TargetsRoleName
          = lift (decodeTargetsMetadata X (sslibdsse.Payload e))).
Proof.
  unfold policy.GetTargetsMetadata, policy.decodeEnvelope. split; [| split].
  - split.
    + destruct (String.eqb_spec roleName policy.TargetsRoleName) as [->|Hne].
      * destruct (policy.TargetsEnvelope s); [|discriminate].
        intros H. apply lift_not_package_error in H as [msg H]. discriminate.
      * destruct (policy.DelegationEnvelopes s !! roleName); [|done].
        intros H. apply lift_not_package_error in H as [msg H]. discriminate.
    + intros [Hne Hnone].
      destruct (String.eqb_spec roleName policy.TargetsRoleName) as [->|_]; [done|].
      by rewrite Hnone.
  - rewrite String.eqb_refl. split.
    + destruct (policy.TargetsEnvelope s); [|done].
      intros H. by apply lift_not_Panic in H.
    + by intros ->.
  - intros e ->. by rewrite String.eqb_refl.
Qed.

End accessors.

Lemma PublicKeys_nil_without_targets_witness :
  policy.TargetsEnvelope fixture.stateWithOnlyRoot = None
  /\ policy.GetRootMetadata fixture.X fixture.stateWithOnlyRoot = Ok fixture.rootMetadata
  /\ policy.PublicKeys fixture.X fixture.stateWithOnlyRoot = Ok None.
Proof.
  split; [reflexivity | split; [reflexivity |]].
  apply (PublicKeys_nil_without_targets fixture.X fixture.stateWithOnlyRoot fixture.rootMetadata);
    reflexivity.
Defined.

Lemma GetTargetsMetadata_not_found_or_panic_witness :
  policy.GetTargetsMetadata fixture.X fixture.stateWithOnlyRoot "main" = Err ErrMetadataNotFound
  /\ policy.GetTargetsMetadata fixture.X fixture.stateWithOnlyRoot policy.TargetsRoleName = Panic.
Proof.
  split.
  - apply (GetTargetsMetadata_not_found_or_panic fixture.X fixture.stateWithOnlyRoot "main").
    split; [discriminate | reflexivity].
  - apply (GetTargetsMetadata_not_found_or_panic fixture.X fixture.stateWithOnlyRoot "main").
    reflexivity.
Defined.

(** ** Envelope verification *)

Section envelope.
Context (X : Ext).

Lemma acceptSignature_invariant env verifiers accepted sig :
  sig ∈ sslibdsse.Signatures env ->
  NoDup accepted -> Forall (dsse.backed X env verifiers) accepted ->
  NoDup (dsse.acceptSignature X env verifiers accepted sig)
  /\ Forall (dsse.backed X env verifiers) (dsse.acceptSignature X env verifiers accepted sig).
Proof.
  intros Hsig Hnd Hall. unfold dsse.acceptSignature.
  destruct (List.find _ verifiers) as [v|] eqn:Hfind; [| by split].
  apply List.find_some in Hfind as [Hin Hv].
  apply andb_true_iff in Hv as [Hok Hfresh].
  apply negb_true_iff, bool_decide_eq_false in Hfresh.
  split.
  - apply NoDup_app. split; [done | split].
    + intros id Hid Hid'. apply list_elem_of_singleton in Hid'. by subst.
    + apply NoDup_singleton.
  - apply Forall_app. split; [done |]. apply Forall_singleton.
    exists v, sig. by rewrite <- list_elem_of_In in Hin.
Qed.

Lemma acceptedKeyIDs_invariant env verifiers :
  NoDup (dsse.acceptedKeyIDs X env verifiers)
  /\ Forall (dsse.backed X env verifiers) (dsse.acceptedKeyIDs X env verifiers).
Proof.
  unfold dsse.acceptedKeyIDs.
  assert (Hgen : forall sigs accepted,
             (forall sig, sig ∈ sigs -> sig ∈ sslibdsse.Signatures env) ->
             NoDup accepted -> Forall (dsse.backed X env verifiers) accepted ->
             NoDup (fold_left (dsse.acceptSignature X env verifiers) sigs accepted)
             /\ Forall (dsse.backed X env verifiers)
                  (fold_left (dsse.acceptSignature X env verifiers) sigs accepted)).
  { induction sigs as [|sig sigs IH]; intros accepted Hsub Hnd Hall; [by split |].
    simpl.
    destruct (acceptSignature_invariant env verifiers accepted sig) as [Hnd' Hall'];
      [apply Hsub; left | done | done |].
    apply IH; [| done | done]. intros sig' Hin. apply Hsub. by right. }
  apply Hgen; [done | apply NoDup_nil_2 | apply Forall_nil_2].
Qed.

(** With as many distinct accepted key ids as there are verifiers, every
    verifier accepts a signature of the envelope. *)
Lemma all_verifiers_accept env verifiers :
  (length verifiers <= length (dsse.acceptedKeyIDs X env verifiers))%nat ->
  forall v, v ∈ verifiers ->
    exists sig, sig ∈ sslibdsse.Signatures env
      /\ verifySignature X (sslibdsse.VerifierKey v) env (sslibdsse.Sig sig) = true.
Proof.
  intros Hlen v Hv.
  destruct (acceptedKeyIDs_invariant env verifiers) as [Hnd Hall].
  set (accepted := dsse.acceptedKeyIDs X env verifiers) in *.
  set (ids := (fun v => tuf.KeyID (sslibdsse.VerifierKey v)) <$> verifiers).
  assert (Hsub : accepted ⊆+ ids).
  { apply NoDup_submseteq; [done |]. intros id Hid.
    rewrite Forall_forall in Hall. destruct (Hall id Hid) as (v' & _ & Hv' & <- & _).
    apply list_elem_of_fmap. eauto. }
  assert (Hperm : accepted ≡ₚ ids).
  { apply submseteq_length_Permutation; [done |]. unfold ids. by rewrite length_fmap. }
  assert (Hid : tuf.KeyID (sslibdsse.VerifierKey v) ∈ accepted).
  { rewrite Hperm. apply list_elem_of_fmap. eauto. }
  rewrite Forall_forall in Hall.
  destruct (Hall _ Hid) as (v' & sig & Hv' & Heq & Hsig & Hok).
  assert (v' = v) as ->.
  { assert (Hndids : NoDup ids) by (by rewrite <- Hperm).
    apply list_elem_of_lookup in Hv as [i Hi]. apply list_elem_of_lookup in Hv' as [j Hj].
    assert (i = j) as ->.
    { eapply NoDup_lookup; [exact Hndids | |].
      - unfold ids. rewrite list_lookup_fmap, Hi. reflexivity.
      - unfold ids. rewrite list_lookup_fmap, Hj. simpl. by rewrite Heq. }
    congruence. }
  eauto.
Qed.

Lemma verifiersOf_keys (keys : list tuf.Key) (verifiers : list sslibdsse.Verifier) :
  policy.verifiersOf (Some <$> keys) = Ok verifiers ->
  verifiers = (fun k => {| sslibdsse.VerifierKey := k |}) <$> keys.
Proof.
  unfold policy.verifiersOf. revert verifiers.
  induction keys as [|k keys IH]; intros verifiers H; simpl in H.
  - by inversion H.
  - apply bind_Ok in H as (v & Hv & H). apply bind_Ok in H as (vs & Hvs & H).
    inversion H; subst. rewrite (IH vs Hvs). simpl. f_equal.
    unfold signerverifier.NewSignerVerifierFromTUFKey in Hv.
    destruct (tuf.KeyType k); by inversion Hv.
Qed.

Lemma Verify_Ok_root (s : policy.State) :
  policy.Verify X s = Ok tt ->
  exists verifiers,
    policy.verifiersOf (Some <$> policy.RootPublicKeys s) = Ok verifiers
    /\ dsse.VerifyEnvelope X (policy.RootEnvelope s) verifiers (Z.of_nat (length verifiers))
       = Ok tt.
Proof.
  unfold policy.Verify, policy.verifyTop. intros H.
  apply bind_Ok in H as (top & H & _).
  apply bind_Ok in H as (verifiers & Hverifiers & H).
  apply bind_Ok in H as ([] & Henv & _). eauto.
Qed.

(** C6. [Verify] accepts a state only if its root envelope passes
    envelope verification with the verifiers of the state's root public
    keys and a threshold equal to their number; then every root public
    key has a signature of the root envelope that verifies under it, the
    root envelope carries a signature, and the list of root public keys
    is not empty. *)
Theorem Verify_requires_every_root_key (s : policy.State) :
  policy.Verify X s = Ok tt ->
  exists env,
    policy.RootEnvelope s = Some env
    /\ dsse.VerifyEnvelope X (Some env)
         ((fun k => {| sslibdsse.VerifierKey := k |}) <$> policy.RootPublicKeys s)
         (Z.of_nat (length (policy.RootPublicKeys s))) = Ok tt
    /\ (forall k, k ∈ policy.RootPublicKeys s ->
          exists sig, sig ∈ sslibdsse.Signatures env
            /\ verifySignature X k env (sslibdsse.Sig sig) = true)
    /\ sslibdsse.Signatures env <> []
    /\ policy.RootPublicKeys s <> [].
Proof.
  intros H. apply Verify_Ok_root in H as (verifiers & Hverifiers & Henv).
  apply verifiersOf_keys in Hverifiers. subst verifiers.
  rewrite length_fmap in Henv.
  destruct (policy.RootEnvelope s) as [env|] eqn:Hroot; [| discriminate].
  exists env. split; [done |]. split; [done |].
  unfold dsse.VerifyEnvelope in Henv.
  destruct (Z.ltb_spec (Z.of_nat (length (policy.RootPublicKeys s))) 1) as [|Hpos];
    [discriminate |].
  match type of Henv with
  | (if ?c then _ else _) = _ => destruct c eqn:Hcount; [discriminate |]
  end.
  apply Z.ltb_ge in Hcount.
  assert (Hall : forall k, k ∈ policy.RootPublicKeys s ->
            exists sig, sig ∈ sslibdsse.Signatures env
              /\ verifySignature X k env (sslibdsse.Sig sig) = true).
  { intros k Hk.
    apply (all_verifiers_accept env
             ((fun k => {| sslibdsse.VerifierKey := k |}) <$> policy.RootPublicKeys s)
             ltac:(rewrite length_fmap; lia) {| sslibdsse.VerifierKey := k |}).
    apply list_elem_of_fmap. eauto. }
  split; [done |].
  assert (Hkeys : policy.RootPublicKeys s <> []).
  { intros Hnil. rewrite Hnil in Hpos. simpl in Hpos. lia. }
  split; [| done].
  destruct (policy.RootPublicKeys s) as [|k keys]; [done |].
  destruct (Hall k) as (sig & Hsig & _); [left |].
  intros Hnil. rewrite Hnil in Hsig. by apply elem_of_nil in Hsig.
Qed.

End envelope.

Lemma Verify_requires_every_root_key_witness :
  policy.Verify fixture.X fixture.stateWithOnlyRoot = Ok tt
  /\ exists env,
       policy.RootEnvelope fixture.stateWithOnlyRoot = Some env
       /\ dsse.VerifyEnvelope fixture.X (Some env)
            ((fun k => {| sslibdsse.VerifierKey := k |})
               <$> policy.RootPublicKeys fixture.stateWithOnlyRoot)
            (Z.of_nat (length (policy.RootPublicKeys fixture.stateWithOnlyRoot))) = Ok tt
       /\ (forall k, k ∈ policy.RootPublicKeys fixture.stateWithOnlyRoot ->
             exists sig, sig ∈ sslibdsse.Signatures env
               /\ verifySignature fixture.X k env (sslibdsse.Sig sig) = true)
       /\ sslibdsse.Signatures env <> []
       /\ policy.RootPublicKeys fixture.stateWithOnlyRoot <> [].
Proof.
  split; [reflexivity |].
  apply (Verify_requires_every_root_key fixture.X fixture.stateWithOnlyRoot). reflexivity.
Defined.

(** ** Delegation envelopes that nothing delegates to *)

Lemma Verify_without_targets_ignores_delegations (X : Ext) (s : policy.State)
    (envs : gmap string sslibdsse.Envelope) :
  policy.TargetsEnvelope s = None ->
  policy.Verify X {| policy.RootEnvelope := policy.RootEnvelope s;
                     policy.TargetsEnvelope := None;
                     policy.DelegationEnvelopes := envs;
                     policy.RootPublicKeys := policy.RootPublicKeys s |}
  = policy.Verify X s.
Proof.
  intros H. unfold policy.Verify, policy.verifyTop. simpl. rewrite H.
  destruct (policy.verifiersOf (Some <$> policy.RootPublicKeys s)) as [verifiers| |];
    [| done | done].
  simpl. by destruct (dsse.VerifyEnvelope X _ _ _) as [[]| |].
Qed.

(** C7. A state that has a verified root, no targets envelope and a
    delegation envelope named [orphan] holds an envelope that no walk of
    the delegations graph reaches; [Verify] accepts it, where
    [ErrDanglingDelegationMetadata] is due. *)
Theorem Verify_accepts_unreachable_delegation :
  policy.TargetsEnvelope fixture.stateWithOrphan = None
  /\ policy.DelegationEnvelopes fixture.stateWithOrphan !! "orphan"
     = Some (fixture.signed "leaf" [fixture.devKey])
  /\ policy.Verify fixture.X fixture.stateWithOrphan = Ok tt.
Proof. repeat split. Qed.

(** ** The tree of a policy commit *)

Section load.
Context (X : Ext).

Lemma rootTreeIDs_foreign_name entries metadataTreeID keysTreeID :
  (exists e, e ∈ entries
     /\ plumbing.Name e <> policy.metadataTreeEntryName
     /\ plumbing.Name e <> policy.rootPublicKeysTreeEntryName) ->
  policy.rootTreeIDs entries metadataTreeID keysTreeID = Err ErrInvalidPolicyTree.
Proof.
  revert metadataTreeID keysTreeID.
  induction entries as [|e entries IH]; intros m k (e' & Hin & Hm & Hk).
  - by apply elem_of_nil in Hin.
  - simpl.
    destruct (String.eqb_spec (plumbing.Name e) policy.metadataTreeEntryName) as [Hem|Hem].
    { apply IH. exists e'. apply elem_of_cons in Hin as [->|Hin]; [done | eauto]. }
    destruct (String.eqb_spec (plumbing.Name e) policy.rootPublicKeysTreeEntryName) as [Hek|Hek].
    { apply IH. exists e'. apply elem_of_cons in Hin as [->|Hin]; [done | eauto]. }
    reflexivity.
Qed.

Lemma TreeObject_error repo h e :
  git.TreeObject repo h = Err e -> e = ErrObjectNotFound.
Proof. unfold git.TreeObject. destruct (git.trees repo !! h); intros H; by inversion H. Qed.

Lemma TreeObject_zero repo :
  git.trees repo !! plumbing.ZeroHash = None ->
  git.TreeObject repo plumbing.ZeroHash = Err ErrObjectNotFound.
Proof. unfold git.TreeObject. by intros ->. Qed.

Lemma TreeObject_Ok repo h t :
  git.TreeObject repo h = Ok t -> git.trees repo !! h = Some t.
Proof. unfold git.TreeObject. destruct (git.trees repo !! h); intros H; by inversion H. Qed.

(** [LoadStateForEntry] from the root tree on. *)
Lemma LoadStateForEntry_from_tree repo entry policyCommit tree :
  rsl.RefName entry = policy.PolicyRef ->
  git.CommitObject repo (rsl.TargetID entry) = Ok policyCommit ->
  git.TreeObject repo (object.TreeHash policyCommit) = Ok tree ->
  policy.LoadStateForEntry X repo (rsl.Reference entry)
  = if (2 <? length tree)%nat then Err ErrInvalidPolicyTree
    else
      ids ← policy.rootTreeIDs tree plumbing.ZeroHash plumbing.ZeroHash;
      metadataTree ← git.TreeObject repo (fst ids);
      keysTree ← git.TreeObject repo (snd ids);
      state ← policy.foldEach (policy.loadMetadataEntry X repo) metadataTree policy.emptyState;
      state ← policy.foldEach (policy.loadKeyEntry X repo) keysTree state;
      policy.Verify X state ;;
      Ok state.
Proof.
  intros Href Hcommit Htree. unfold policy.LoadStateForEntry.
  rewrite Href, String.eqb_refl. simpl. rewrite Hcommit. simpl. rewrite Htree. reflexivity.
Qed.

(** A root tree of fewer than two entries, all named [metadata] or
    [keys], passes the checks on the shape; the subtree it lacks is then
    read at the zero hash, which the store does not know. *)
Lemma LoadStateForEntry_short_tree (repo : git.Repository) (entry : rsl.ReferenceEntry)
    (policyCommit : object.Commit) (tree : list plumbing.TreeEntry) :
  rsl.RefName entry = policy.PolicyRef ->
  git.CommitObject repo (rsl.TargetID entry) = Ok policyCommit ->
  git.TreeObject repo (object.TreeHash policyCommit) = Ok tree ->
  git.trees repo !! plumbing.ZeroHash = None ->
  (length tree < 2)%nat ->
  (forall e, e ∈ tree ->
     plumbing.Name e = policy.metadataTreeEntryName
     \/ plumbing.Name e = policy.rootPublicKeysTreeEntryName) ->
  policy.LoadStateForEntry X repo (rsl.Reference entry) = Err ErrObjectNotFound.
Proof.
  intros Href Hcommit Htree Hzero Hlen Hnames.
  rewrite (LoadStateForEntry_from_tree repo entry policyCommit tree Href Hcommit Htree).
  pose proof (TreeObject_zero repo Hzero) as Hz.
  destruct tree as [|e1 [|e2 tree]]; simpl in Hlen; [| | lia].
  - simpl. by rewrite Hz.
  - destruct (2 <? length [e1])%nat eqn:Hl; [discriminate |]. clear Hl. simpl.
    destruct (Hnames e1) as [H1|H1]; [left | |].
    + rewrite H1, String.eqb_refl. simpl.
      destruct (git.TreeObject repo (plumbing.EntryHash e1)) as [t| e |] eqn:Ht; simpl.
      * by rewrite Hz.
      * by rewrite (TreeObject_error _ _ _ Ht).
      * unfold git.TreeObject in Ht.
        by destruct (git.trees repo !! plumbing.EntryHash e1).
    + rewrite H1. simpl. by rewrite Hz.
Qed.

(** C5, as amended. For a policy-ref reference entry whose commit and
    root tree can be read, in a repository where the zero hash names no
    tree: [LoadStateForEntry] returns [ErrInvalidPolicyTree] when the root
    tree has more than two entries or an entry named other than
    [metadata] and [keys]; and it accepts only a root tree made of exactly
    one [metadata] entry and one [keys] entry, both naming trees. *)
Theorem LoadStateForEntry_tree_shape (repo : git.Repository) (entry : rsl.ReferenceEntry)
    (policyCommit : object.Commit) (tree : list plumbing.TreeEntry) :
  rsl.RefName entry = policy.PolicyRef ->
  git.CommitObject repo (rsl.TargetID entry) = Ok policyCommit ->
  git.TreeObject repo (object.TreeHash policyCommit) = Ok tree ->
  git.trees repo !! plumbing.ZeroHash = None ->
  ((2 < length tree)%nat
     \/ (exists e, e ∈ tree
           /\ plumbing.Name e <> policy.metadataTreeEntryName
           /\ plumbing.Name e <> policy.rootPublicKeysTreeEntryName) ->
   policy.LoadStateForEntry X repo (rsl.Reference entry) = Err ErrInvalidPolicyTree)
  /\ (forall state,
        policy.LoadStateForEntry X repo (rsl.Reference entry) = Ok state ->
        exists metadataEntry keysEntry,
          (tree = [metadataEntry; keysEntry] \/ tree = [keysEntry; metadataEntry])
          /\ plumbing.Name metadataEntry = policy.metadataTreeEntryName
          /\ plumbing.Name keysEntry = policy.rootPublicKeysTreeEntryName
          /\ is_Some (git.trees repo !! plumbing.EntryHash metadataEntry)
          /\ is_Some (git.trees repo !! plumbing.EntryHash keysEntry)).
Proof.
  intros Href Hcommit Htree Hzero.
  rewrite (LoadStateForEntry_from_tree repo entry policyCommit tree Href Hcommit Htree).
  pose proof (TreeObject_zero repo Hzero) as Hz.
  split.
  - intros [Hlen|Hname].
    + apply Nat.ltb_lt in Hlen. by rewrite Hlen.
    + destruct (2 <? length tree)%nat; [done |].
      by rewrite (rootTreeIDs_foreign_name tree _ _ Hname).
  - intros state H.
    destruct (2 <? length tree)%nat eqn:Hlen; [discriminate |].
    apply Nat.ltb_ge in Hlen.
    apply bind_Ok in H as ([m k] & Hids & H).
    apply bind_Ok in H as (metadataTree & Hm & H).
    apply bind_Ok in H as (keysTree & Hk & _).
    simpl in Hm, Hk.
    assert (Hmz : m <> plumbing.ZeroHash) by (intros ->; congruence).
    assert (Hkz : k <> plumbing.ZeroHash) by (intros ->; congruence).
    apply TreeObject_Ok in Hm, Hk.
    destruct tree as [|e1 [|e2 [|e3 tree]]]; simpl in Hlen, Hids; [| | | lia].
    + inversion Hids; by subst.
    + destruct (String.eqb (plumbing.Name e1) policy.metadataTreeEntryName);
        [inversion Hids; by subst |].
      destruct (String.eqb (plumbing.Name e1) policy.rootPublicKeysTreeEntryName);
        [inversion Hids; by subst | discriminate].
    + destruct (String.eqb_spec (plumbing.Name e1) policy.metadataTreeEntryName) as [H1m|_].
      * destruct (String.eqb_spec (plumbing.Name e2) policy.metadataTreeEntryName) as [_|_];
          [inversion Hids; by subst |].
        destruct (String.eqb_spec (plumbing.Name e2) policy.rootPublicKeysTreeEntryName)
          as [H2k|_]; [| discriminate].
        inversion Hids; subst. exists e1, e2. rewrite Hm, Hk. eauto 10.
      * destruct (String.eqb_spec (plumbing.Name e1) policy.rootPublicKeysTreeEntryName)
          as [H1k|_]; [| discriminate].
        destruct (String.eqb_spec (plumbing.Name e2) policy.metadataTreeEntryName) as [H2m|_].
        -- inversion Hids; subst. exists e2, e1. rewrite Hm, Hk. eauto 10.
        -- destruct (String.eqb (plumbing.Name e2) policy.rootPublicKeysTreeEntryName);
             [inversion Hids; by subst | discriminate].
Qed.

End load.

Lemma LoadStateForEntry_tree_shape_witness :
  (policy.LoadStateForEntry fixture.X fixture.repo1
     (rsl.Reference (fixture.policyEntry fixture.repo1)) = Ok fixture.stateWithPolicy
   /\ exists metadataEntry keysEntry,
        (fixture.rootTree fixture.repo1 (fixture.policyEntry fixture.repo1)
           = [metadataEntry; keysEntry]
         \/ fixture.rootTree fixture.repo1 (fixture.policyEntry fixture.repo1)
           = [keysEntry; metadataEntry])
        /\ plumbing.Name metadataEntry = policy.metadataTreeEntryName
        /\ plumbing.Name keysEntry = policy.rootPublicKeysTreeEntryName
        /\ is_Some (git.trees fixture.repo1 !! plumbing.EntryHash metadataEntry)
        /\ is_Some (git.trees fixture.repo1 !! plumbing.EntryHash keysEntry))
  /\ policy.LoadStateForEntry fixture.X fixture.repoWithForeignEntry fixture.entryWithoutKeysTree
     = Err ErrInvalidPolicyTree.
Proof.
  assert (Hload : policy.LoadStateForEntry fixture.X fixture.repo1
                    (rsl.Reference (fixture.policyEntry fixture.repo1))
                  = Ok fixture.stateWithPolicy) by (vm_compute; reflexivity).
  split; [split; [exact Hload |] |].
  - destruct (LoadStateForEntry_tree_shape fixture.X fixture.repo1
                (fixture.policyEntry fixture.repo1)
                (fixture.commitObject fixture.repo1
                   (rsl.TargetID (fixture.policyEntry fixture.repo1)))
                (fixture.rootTree fixture.repo1 (fixture.policyEntry fixture.repo1)))
      as (_ & Haccept).
    + vm_compute. reflexivity.
    + vm_compute. reflexivity.
    + vm_compute. reflexivity.
    + vm_compute. reflexivity.
    + exact (Haccept _ Hload).
  - destruct (LoadStateForEntry_tree_shape fixture.X fixture.repoWithForeignEntry
                {| rsl.ID := 20%N; rsl.RefName := policy.PolicyRef; rsl.TargetID := 10%N |}
                (fixture.commitObject fixture.repoWithForeignEntry 10%N)
                (fixture.rootTree fixture.repoWithForeignEntry
                   {| rsl.ID := 20%N; rsl.RefName := policy.PolicyRef; rsl.TargetID := 10%N |}))
      as (Hreject & _).
    + reflexivity.
    + vm_compute. reflexivity.
    + vm_compute. reflexivity.
    + vm_compute. reflexivity.
    + apply Hreject. right.
      exists {| plumbing.Name := "README.md"; plumbing.Mode := plumbing.Regular;
                plumbing.EntryHash := 13%N |}.
      split; [| split; discriminate].
      vm_compute. apply list_elem_of_In. right. left. reflexivity.
Defined.

(** C5, as claimed, fails: the root tree of this policy commit has the
    single entry [metadata], which is not the two subtrees, and
    [LoadStateForEntry] rejects it with [ErrObjectNotFound], not with
    [ErrInvalidPolicyTree]. *)
Lemma LoadStateForEntry_missing_subtree :
  fixture.entryWithoutKeysTree
  = rsl.Reference {| rsl.ID := 20%N; rsl.RefName := policy.PolicyRef; rsl.TargetID := 10%N |}
  /\ fixture.rootTree fixture.repoWithoutKeysTree
       {| rsl.ID := 20%N; rsl.RefName := policy.PolicyRef; rsl.TargetID := 10%N |}
     = [ {| plumbing.Name := "metadata"; plumbing.Mode := plumbing.Dir;
            plumbing.EntryHash := 12%N |} ]
  /\ policy.LoadStateForEntry fixture.X fixture.repoWithoutKeysTree fixture.entryWithoutKeysTree
     = Err ErrObjectNotFound
  /\ policy.LoadStateForEntry fixture.X fixture.repoWithoutKeysTree fixture.entryWithoutKeysTree
     <> Err ErrInvalidPolicyTree.
Proof.
  split; [reflexivity | split; [vm_compute; reflexivity | split]].
  - vm_compute. reflexivity.
  - vm_compute. discriminate.
Qed.

(** ** The path resolver *)

Section resolver.
Context (X : Ext).

(** The last delegation of the queue is never examined. *)
Lemma findLoop_last_irrelevant fuel s path allPublicKeys queue last last' trustedKeys :
  policy.findLoop X fuel s path allPublicKeys (queue ++ [last]) trustedKeys
  = policy.findLoop X fuel s path allPublicKeys (queue ++ [last']) trustedKeys.
Proof.
  revert allPublicKeys queue trustedKeys.
  induction fuel as [|fuel IH]; intros allPublicKeys queue trustedKeys; [reflexivity |].
  destruct queue as [|d queue]; [reflexivity |].
  assert (Hcons : forall l : tuf.Delegation, exists d' queue', queue ++ [l] = d' :: queue').
  { intros l. destruct queue; simpl; eauto. }
  destruct (Hcons last) as (d1 & q1 & H1), (Hcons last') as (d2 & q2 & H2).
  simpl. rewrite H1, H2, <- H1, <- H2.
  destruct (policy.Matches X d path); [| apply IH].
  destruct (policy.HasTargetsRole s (tuf.Name d)); [| apply IH].
  destruct (policy.GetTargetsMetadata X s (tuf.Name d)) as [md| |]; [| done | done].
  destruct (tuf.Delegations_ md) as [dl|]; [| done].
  destruct (policy.assignAll allPublicKeys (tuf.Keys dl)) as [keys'| |]; [| done | done].
  destruct (tuf.Terminating d); [done |].
  destruct (tuf.Roles dl) as [|r roles]; [done |].
  rewrite !app_assoc. apply IH.
Qed.

(** One turn of the loop on a queue of at least two delegations. *)
Lemma findLoop_skip fuel s path allPublicKeys d next queue trustedKeys :
  policy.Matches X d path = false ->
  policy.findLoop X (S fuel) s path allPublicKeys (d :: next :: queue) trustedKeys
  = policy.findLoop X fuel s path allPublicKeys (next :: queue) trustedKeys.
Proof. intros H. simpl. by rewrite H. Qed.

Lemma findLoop_leaf fuel s path allPublicKeys d next queue trustedKeys :
  policy.Matches X d path = true ->
  policy.HasTargetsRole s (tuf.Name d) = false ->
  policy.findLoop X (S fuel) s path allPublicKeys (d :: next :: queue) trustedKeys
  = policy.findLoop X fuel s path allPublicKeys (next :: queue)
      (trustedKeys ++ (policy.keyOf allPublicKeys <$> tuf.KeyIDs (tuf.DRole d))).
Proof. intros H1 H2. simpl. by rewrite H1, H2. Qed.

Lemma findLoop_descend fuel s path allPublicKeys allPublicKeys' d next queue trustedKeys
    delegatedMetadata delegations child children :
  policy.Matches X d path = true ->
  policy.HasTargetsRole s (tuf.Name d) = true ->
  policy.GetTargetsMetadata X s (tuf.Name d) = Ok delegatedMetadata ->
  tuf.Delegations_ delegatedMetadata = Some delegations ->
  policy.assignAll allPublicKeys (tuf.Keys delegations) = Ok allPublicKeys' ->
  tuf.Roles delegations = child :: children ->
  tuf.Terminating d = false ->
  policy.findLoop X (S fuel) s path allPublicKeys (d :: next :: queue) trustedKeys
  = policy.findLoop X fuel s path allPublicKeys'
      (removelast (child :: children) ++ next :: queue)
      (trustedKeys ++ (policy.keyOf allPublicKeys <$> tuf.KeyIDs (tuf.DRole d))).
Proof. intros H1 H2 H3 H4 H5 H6 H7. simpl. by rewrite H1, H2, H3, H4, H5, H6, H7. Qed.

Lemma findLoop_terminating fuel s path allPublicKeys allPublicKeys' d next queue trustedKeys
    delegatedMetadata delegations :
  policy.Matches X d path = true ->
  policy.HasTargetsRole s (tuf.Name d) = true ->
  policy.GetTargetsMetadata X s (tuf.Name d) = Ok delegatedMetadata ->
  tuf.Delegations_ delegatedMetadata = Some delegations ->
  policy.assignAll allPublicKeys (tuf.Keys delegations) = Ok allPublicKeys' ->
  tuf.Terminating d = true ->
  policy.findLoop X (S fuel) s path allPublicKeys (d :: next :: queue) trustedKeys
  = policy.findLoop X fuel s path allPublicKeys' (tuf.Roles delegations)
      (trustedKeys ++ (policy.keyOf allPublicKeys <$> tuf.KeyIDs (tuf.DRole d))).
Proof. intros H1 H2 H3 H4 H5 H6. simpl. by rewrite H1, H2, H3, H4, H5, H6. Qed.

(** C1, as amended. (1) For a verified state whose top-level targets
    metadata has the roles [main], with the path [git:refs/heads/main] and
    the key id of [Kg], then a last entry, and which holds no delegated
    metadata named [main], [FindPublicKeysForPath] returns [[Kg]] for
    [git:refs/heads/main] and the empty list for
    [git:refs/heads/unprotected]. (2) The last entry of the queue, the
    allow-rule, never contributes a key. (3) A matching delegation that
    is not terminating and has delegated metadata puts its children,
    without their last entry, ahead of the remaining siblings. (4) A
    matching terminating delegation that has delegated metadata replaces
    the queue by its children: the remaining siblings are dropped. (5) A
    matching delegation without delegated metadata, terminating or not,
    leaves the remaining siblings in the queue. *)
Theorem FindPublicKeysForPath_resolution :
  (forall (s : policy.State) (Kg : tuf.Key) (targetsMetadata : tuf.TargetsMetadata)
          (keys : option (gmap string tuf.Key)) (mainRule allowRule : tuf.Delegation),
     policy.Verify X s = Ok tt ->
     policy.GetTargetsMetadata X s policy.TargetsRoleName = Ok targetsMetadata ->
     tuf.Delegations_ targetsMetadata
       = Some {| tuf.Keys := keys; tuf.Roles := [mainRule; allowRule] |} ->
     tuf.Name mainRule = "main" ->
     tuf.Paths mainRule = ["git:refs/heads/main"] ->
     tuf.KeyIDs (tuf.DRole mainRule) = [tuf.KeyID Kg] ->
     policy.keyOf keys (tuf.KeyID Kg) = Some Kg ->
     policy.DelegationEnvelopes s !! "main" = None ->
     matchPattern X "git:refs/heads/main" "git:refs/heads/main" = true ->
     matchPattern X "git:refs/heads/main" "git:refs/heads/unprotected" = false ->
     forall fuel, (2 <= fuel)%nat ->
       policy.FindPublicKeysForPath X fuel s "git:refs/heads/main" = Some (Ok [Some Kg])
       /\ policy.FindPublicKeysForPath X fuel s "git:refs/heads/unprotected" = Some (Ok []))
  /\ (forall fuel s path allPublicKeys queue last last' trustedKeys,
        policy.findLoop X fuel s path allPublicKeys (queue ++ [last]) trustedKeys
        = policy.findLoop X fuel s path allPublicKeys (queue ++ [last']) trustedKeys)
  /\ (forall fuel s path allPublicKeys allPublicKeys' d next queue trustedKeys
             delegatedMetadata delegations child children,
        policy.Matches X d path = true ->
        policy.HasTargetsRole s (tuf.Name d) = true ->
        policy.GetTargetsMetadata X s (tuf.Name d) = Ok delegatedMetadata ->
        tuf.Delegations_ delegatedMetadata = Some delegations ->
        policy.assignAll allPublicKeys (tuf.Keys delegations) = Ok allPublicKeys' ->
        tuf.Roles delegations = child :: children ->
        tuf.Terminating d = false ->
        policy.findLoop X (S fuel) s path allPublicKeys (d :: next :: queue) trustedKeys
        = policy.findLoop X fuel s path allPublicKeys'
            (removelast (child :: children) ++ next :: queue)
            (trustedKeys ++ (policy.keyOf allPublicKeys <$> tuf.KeyIDs (tuf.DRole d))))
  /\ (forall fuel s path allPublicKeys allPublicKeys' d next queue trustedKeys
             delegatedMetadata delegations,
        policy.Matches X d path = true ->
        policy.HasTargetsRole s (tuf.Name d) = true ->
        policy.GetTargetsMetadata X s (tuf.Name d) = Ok delegatedMetadata ->
        tuf.Delegations_ delegatedMetadata = Some delegations ->
        policy.assignAll allPublicKeys (tuf.Keys delegations) = Ok allPublicKeys' ->
        tuf.Terminating d = true ->
        policy.findLoop X (S fuel) s path allPublicKeys (d :: next :: queue) trustedKeys
        = policy.findLoop X fuel s path allPublicKeys' (tuf.Roles delegations)
            (trustedKeys ++ (policy.keyOf allPublicKeys <$> tuf.KeyIDs (tuf.DRole d))))
  /\ (forall fuel s path allPublicKeys d next queue trustedKeys,
        policy.Matches X d path = true ->
        policy.HasTargetsRole s (tuf.Name d) = false ->
        policy.findLoop X (S fuel) s path allPublicKeys (d :: next :: queue) trustedKeys
        = policy.findLoop X fuel s path allPublicKeys (next :: queue)
            (trustedKeys ++ (policy.keyOf allPublicKeys <$> tuf.KeyIDs (tuf.DRole d)))).
Proof.
  split; [| split; [| split; [| split]]].
  - intros s Kg targetsMetadata keys mainRule allowRule Hverify Htargets Hdelegations
      Hname Hpaths Hids Hkey Hnone Hmain Hother fuel Hfuel.
    unfold policy.FindPublicKeysForPath. rewrite Hverify, Htargets, Hdelegations. simpl.
    assert (Hrole : policy.HasTargetsRole s (tuf.Name mainRule) = false).
    { unfold policy.HasTargetsRole. rewrite Hname. simpl. by rewrite Hnone. }
    destruct fuel as [|[|fuel]]; [lia | lia |].
    split.
    + rewrite findLoop_leaf; [| unfold policy.Matches; rewrite Hpaths; simpl; by rewrite Hmain
                               | done].
      simpl. by rewrite Hids, (fmap_cons _ _ []), Hkey.
    + rewrite findLoop_skip; [done |].
      unfold policy.Matches. rewrite Hpaths. simpl. by rewrite Hother.
  - apply findLoop_last_irrelevant.
  - apply findLoop_descend.
  - apply findLoop_terminating.
  - apply findLoop_leaf.
Qed.

End resolver.

Lemma FindPublicKeysForPath_resolution_witness :
  policy.Verify fixture.X fixture.stateWithPolicy = Ok tt
  /\ policy.FindPublicKeysForPath fixture.X 2 fixture.stateWithPolicy "git:refs/heads/main"
     = Some (Ok [Some fixture.gpgKey])
  /\ policy.FindPublicKeysForPath fixture.X 2 fixture.stateWithPolicy "git:refs/heads/unprotected"
     = Some (Ok [])
  /\ policy.findLoop fixture.X 3 fixture.stateWithDelegatedMain "git:refs/heads/main"
       (fixture.keysOf "targets-main") (tuf.Roles (fixture.delegationsOf "targets-main")) []
     = Some (Ok [Some fixture.gpgKey; Some fixture.devKey])
  /\ policy.findLoop fixture.X 3 fixture.stateWithTerminatingDelegatedMain "git:refs/heads/main"
       (fixture.keysOf "targets-terminating")
       (tuf.Roles (fixture.delegationsOf "targets-terminating")) []
     = Some (Ok [Some fixture.gpgKey; Some fixture.devKey])
  /\ policy.findLoop fixture.X 3 fixture.stateWithTerminatingMain "git:refs/heads/main"
       (fixture.keysOf "targets-terminating")
       (tuf.Roles (fixture.delegationsOf "targets-terminating")) []
     = Some (Ok [Some fixture.gpgKey; Some fixture.devKey]).
Proof.
  destruct (FindPublicKeysForPath_resolution fixture.X)
    as (Hscenario & _ & Hdescend & Hterminating & Hleaf).
  split; [reflexivity |].
  split; [| split; [| split; [| split; [| ]]]].
  - apply (Hscenario fixture.stateWithPolicy fixture.gpgKey
             (fixture.targets [fixture.gpgKey]
                [fixture.delegation "main" ["git:refs/heads/main"] ["gpg-key"] false;
                 fixture.allowRule])
             (Some (list_to_map [("gpg-key", fixture.gpgKey)]))
             (fixture.delegation "main" ["git:refs/heads/main"] ["gpg-key"] false)
             fixture.allowRule); reflexivity.
  - apply (Hscenario fixture.stateWithPolicy fixture.gpgKey
             (fixture.targets [fixture.gpgKey]
                [fixture.delegation "main" ["git:refs/heads/main"] ["gpg-key"] false;
                 fixture.allowRule])
             (Some (list_to_map [("gpg-key", fixture.gpgKey)]))
             (fixture.delegation "main" ["git:refs/heads/main"] ["gpg-key"] false)
             fixture.allowRule); reflexivity.
  - change (tuf.Roles (fixture.delegationsOf "targets-main"))
      with [fixture.delegation "main" ["git:refs/heads/main"] ["gpg-key"] false;
            fixture.allowRule].
    rewrite (Hdescend 2%nat fixture.stateWithDelegatedMain "git:refs/heads/main"
               (fixture.keysOf "targets-main") (fixture.assigned "targets-main" "main-children")
               (fixture.delegation "main" ["git:refs/heads/main"] ["gpg-key"] false)
               fixture.allowRule [] []
               (fixture.targets [fixture.devKey]
                  [fixture.delegation "reviewers" ["git:refs/heads/main"] ["dev-key"] false;
                   fixture.allowRule])
               (fixture.delegationsOf "main-children")
               (fixture.delegation "reviewers" ["git:refs/heads/main"] ["dev-key"] false)
               [fixture.allowRule]); vm_compute; reflexivity.
  - change (tuf.Roles (fixture.delegationsOf "targets-terminating"))
      with [fixture.delegation "main" ["git:refs/heads/main"] ["gpg-key"] true;
            fixture.delegation "fallback" ["git:refs/heads/*"] ["dev-key"] false;
            fixture.allowRule].
    rewrite (Hterminating 2%nat fixture.stateWithTerminatingDelegatedMain "git:refs/heads/main"
               (fixture.keysOf "targets-terminating")
               (fixture.assigned "targets-terminating" "main-children")
               (fixture.delegation "main" ["git:refs/heads/main"] ["gpg-key"] true)
               (fixture.delegation "fallback" ["git:refs/heads/*"] ["dev-key"] false)
               [fixture.allowRule] []
               (fixture.targets [fixture.devKey]
                  [fixture.delegation "reviewers" ["git:refs/heads/main"] ["dev-key"] false;
                   fixture.allowRule])
               (fixture.delegationsOf "main-children")); vm_compute; reflexivity.
  - change (tuf.Roles (fixture.delegationsOf "targets-terminating"))
      with [fixture.delegation "main" ["git:refs/heads/main"] ["gpg-key"] true;
            fixture.delegation "fallback" ["git:refs/heads/*"] ["dev-key"] false;
            fixture.allowRule].
    rewrite (Hleaf 2%nat fixture.stateWithTerminatingMain "git:refs/heads/main"
               (fixture.keysOf "targets-terminating")
               (fixture.delegation "main" ["git:refs/heads/main"] ["gpg-key"] true)
               (fixture.delegation "fallback" ["git:refs/heads/*"] ["dev-key"] false)
               [fixture.allowRule] []); vm_compute; reflexivity.
Defined.

(** C1, as claimed, fails in two ways. In the first state the top-level
    targets metadata has the matching, terminating delegation [main]
    followed by the sibling [fallback]; [main] has no delegated metadata,
    and the key of [fallback] is returned all the same. In the second
    state the top-level targets metadata is the one of the claim, [main]
    then the allow-rule, and the state also holds delegated metadata for
    [main]: the key of its child is returned next to [Kg]. *)
Lemma FindPublicKeysForPath_resolution_counterexample :
  (policy.Verify fixture.X fixture.stateWithTerminatingMain = Ok tt
   /\ fixture.topLevelRoles fixture.stateWithTerminatingMain
      = [ fixture.delegation "main" ["git:refs/heads/main"] ["gpg-key"] true;
          fixture.delegation "fallback" ["git:refs/heads/*"] ["dev-key"] false;
          fixture.allowRule ]
   /\ policy.Matches fixture.X
        (fixture.delegation "main" ["git:refs/heads/main"] ["gpg-key"] true)
        "git:refs/heads/main" = true
   /\ policy.FindPublicKeysForPath fixture.X 3 fixture.stateWithTerminatingMain
        "git:refs/heads/main"
      = Some (Ok [Some fixture.gpgKey; Some fixture.devKey]))
  /\ (policy.Verify fixture.X fixture.stateWithDelegatedMain = Ok tt
      /\ fixture.topLevelRoles fixture.stateWithDelegatedMain
         = [ fixture.delegation "main" ["git:refs/heads/main"] ["gpg-key"] false;
             fixture.allowRule ]
      /\ policy.FindPublicKeysForPath fixture.X 3 fixture.stateWithDelegatedMain
           "git:refs/heads/main"
         = Some (Ok [Some fixture.gpgKey; Some fixture.devKey])
      /\ policy.FindPublicKeysForPath fixture.X 3 fixture.stateWithDelegatedMain
           "git:refs/heads/main"
         <> Some (Ok [Some fixture.gpgKey])).
Proof.
  split; [| split; [| split; [| split]]]; try (vm_compute; reflexivity).
  - repeat split; vm_compute; reflexivity.
  - vm_compute. discriminate.
Qed.

(** ** Writing a policy state *)

Section commit.
Context (X : Ext).

Lemma M_bind_inv {A B : Type} (m : git.M A) (f : A -> git.M B) repo r repo' :
  (m ≫= f) repo = (r, repo') ->
  (exists a repo1, m repo = (Ok a, repo1) /\ f a repo1 = (r, repo'))
  \/ (exists e, m repo = (Err e, repo') /\ r = Err e)
  \/ (m repo = (Panic, repo') /\ r = Panic).
Proof.
  unfold mbind, M_bind, git.bind.
  destruct (m repo) as [[a|e|] repo1]; intros H.
  - left. eauto.
  - right. left. inversion H. eauto.
  - right. right. by inversion H.
Qed.

Lemma keepsRefs_bind {A B : Type} (m : git.M A) (f : A -> git.M B) :
  git.keepsRefs m -> (forall a, git.keepsRefs (f a)) -> git.keepsRefs (m ≫= f).
Proof.
  intros Hm Hf repo. unfold mbind, M_bind, git.bind. specialize (Hm repo).
  destruct (m repo) as [[a|e|] repo1]; simpl in *; try done.
  rewrite <- Hm. apply Hf.
Qed.

Lemma keepsRefs_ret {A : Type} (a : A) : git.keepsRefs (git.ret a).
Proof. by intros repo. Qed.

Lemma keepsRefs_pure {A : Type} (r : result A) : git.keepsRefs (git.pure r).
Proof. by intros repo. Qed.

Lemma keepsRefs_forEachM {A B : Type} (f : A -> git.M B) (l : list A) :
  (forall a, git.keepsRefs (f a)) -> git.keepsRefs (git.forEachM f l).
Proof.
  intros Hf. induction l as [|a l IH]; simpl.
  - apply keepsRefs_ret.
  - apply (keepsRefs_bind (f a)); [apply Hf |]. intros b.
    apply (keepsRefs_bind (git.forEachM f l)); [apply IH |]. intros bs. apply keepsRefs_ret.
Qed.

Lemma keepsRefs_WriteBlob contents : git.keepsRefs (gitinterface.WriteBlob X contents).
Proof. by intros repo. Qed.

Lemma keepsRefs_WriteTree entries : git.keepsRefs (gitinterface.WriteTree X entries).
Proof. by intros repo. Qed.

Lemma keepsRefs_writePolicyTree s : git.keepsRefs (policy.writePolicyTree X s).
Proof.
  unfold policy.writePolicyTree.
  apply keepsRefs_bind.
  { apply keepsRefs_forEachM. intros file. unfold policy.writeMetadataEntry.
    apply keepsRefs_bind; [apply keepsRefs_pure |]. intros contents.
    apply keepsRefs_bind; [apply keepsRefs_WriteBlob |]. intros blobID. apply keepsRefs_ret. }
  intros metadataEntries. apply keepsRefs_bind; [apply keepsRefs_WriteTree |].
  intros metadataTreeID. apply keepsRefs_bind.
  { apply keepsRefs_forEachM. intros key. unfold policy.writeKeyEntry.
    apply keepsRefs_bind; [apply keepsRefs_pure |]. intros contents.
    apply keepsRefs_bind; [apply keepsRefs_WriteBlob |]. intros blobID. apply keepsRefs_ret. }
  intros keysEntries. apply keepsRefs_bind; [apply keepsRefs_WriteTree |].
  intros keysTreeID. apply keepsRefs_WriteTree.
Qed.

(** [ApplyCommit] on a reference that still holds the hash read. *)
Lemma ApplyCommit_run commit refName cur repo :
  git.refs repo !! refName = Some cur ->
  gitinterface.ApplyCommit X commit refName cur repo
  = (Ok (hashCommit X commit),
     {| git.refs := <[refName := hashCommit X commit]> (git.refs repo);
        git.blobs := git.blobs repo; git.trees := git.trees repo;
        git.commits := <[hashCommit X commit := commit]> (git.commits repo) |}).
Proof.
  intros H. unfold gitinterface.ApplyCommit, gitinterface.WriteCommit.
  unfold mbind, M_bind, git.bind, git.CheckAndSetReference.
  cbn [git.refs fst snd]. rewrite H, N.eqb_refl. reflexivity.
Qed.

(** [gitinterface.Commit], step by step. *)
Lemma Commit_run treeHash refName message sign repo :
  gitinterface.Commit X treeHash refName message sign repo
  = match gitConfig X with
    | inl msg => (Err (ErrExternal msg), repo)
    | inr config =>
        let cur := default plumbing.ZeroHash (git.refs repo !! refName) in
        let repo1 := match git.refs repo !! refName with
                     | Some _ => repo
                     | None => git.SetReference repo refName plumbing.ZeroHash
                     end in
        let commit :=
          gitinterface.CreateCommitObject config treeHash cur message (clockNow X) in
        if sign then
          match signGitObject X (object.withSignature "" commit) with
          | inl msg => (Err (ErrExternal msg), repo1)
          | inr signature =>
              gitinterface.ApplyCommit X (object.withSignature signature commit) refName cur
                repo1
          end
        else gitinterface.ApplyCommit X commit refName cur repo1
    end.
Proof.
  unfold gitinterface.Commit, mbind, M_bind, git.bind, git.pure, git.Reference.
  destruct (gitConfig X) as [msg|config]; [reflexivity |]. simpl.
  destruct (git.refs repo !! refName) as [cur|] eqn:Hcur; simpl.
  - destruct sign; [| reflexivity]. unfold gitinterface.signCommit.
    by destruct (signGitObject X _).
  - unfold git.Reference. simpl. rewrite lookup_insert_eq. simpl.
    destruct sign; [| reflexivity]. unfold gitinterface.signCommit.
    by destruct (signGitObject X _).
Qed.

Lemma Commit_Ok treeHash refName message sign repo h repo' :
  gitinterface.Commit X treeHash refName message sign repo = (Ok h, repo') ->
  exists commit,
    h = hashCommit X commit
    /\ object.Message_ commit = message
    /\ object.TreeHash commit = treeHash
    /\ git.refs repo' = <[refName := h]> (git.refs repo)
    /\ git.commits repo' = <[h := commit]> (git.commits repo).
Proof.
  rewrite Commit_run. destruct (gitConfig X) as [msg|config]; [discriminate |]. simpl.
  set (cur := default plumbing.ZeroHash (git.refs repo !! refName)).
  set (repo1 := match git.refs repo !! refName with
                | Some _ => repo
                | None => git.SetReference repo refName plumbing.ZeroHash
                end).
  assert (Hcur : git.refs repo1 !! refName = Some cur).
  { unfold repo1, cur. destruct (git.refs repo !! refName) eqn:E; simpl; [done |].
    apply lookup_insert_eq. }
  assert (Hrefs : forall h',
            <[refName := h']> (git.refs repo1) = <[refName := h']> (git.refs repo)).
  { intros h'. unfold repo1. destruct (git.refs repo !! refName); [done |].
    simpl. apply insert_insert_eq. }
  assert (Hcommits : git.commits repo1 = git.commits repo).
  { unfold repo1. by destruct (git.refs repo !! refName). }
  destruct sign.
  - destruct (signGitObject X _) as [msg|signature]; [discriminate |].
    rewrite (ApplyCommit_run _ _ _ _ Hcur). intros H. inversion H; subst.
    eexists. split; [reflexivity |]. simpl. by rewrite Hrefs, Hcommits.
  - rewrite (ApplyCommit_run _ _ _ _ Hcur). intros H. inversion H; subst.
    eexists. split; [reflexivity |]. simpl. by rewrite Hrefs, Hcommits.
Qed.

Lemma Commit_failed treeHash refName message sign repo r repo' :
  gitinterface.Commit X treeHash refName message sign repo = (r, repo') ->
  (forall h, r <> Ok h) ->
  (exists e, r = Err e)
  /\ (forall name, name <> refName \/ is_Some (git.refs repo !! refName) ->
        git.refs repo' !! name = git.refs repo !! name).
Proof.
  rewrite Commit_run. destruct (gitConfig X) as [msg|config].
  { intros H _. inversion H; subst. eauto. }
  simpl.
  set (cur := default plumbing.ZeroHash (git.refs repo !! refName)).
  set (repo1 := match git.refs repo !! refName with
                | Some _ => repo
                | None => git.SetReference repo refName plumbing.ZeroHash
                end).
  assert (Hcur : git.refs repo1 !! refName = Some cur).
  { unfold repo1, cur. destruct (git.refs repo !! refName) eqn:E; simpl; [done |].
    apply lookup_insert_eq. }
  assert (Hother : forall name, name <> refName \/ is_Some (git.refs repo !! refName) ->
            git.refs repo1 !! name = git.refs repo !! name).
  { intros name Hname. unfold repo1.
    destruct (git.refs repo !! refName) eqn:E; [done |]. simpl.
    destruct Hname as [Hne|[x Hx]]; [| discriminate]. by apply lookup_insert_ne. }
  destruct sign.
  - destruct (signGitObject X _) as [msg|signature].
    + intros H _. inversion H; subst. eauto.
    + rewrite (ApplyCommit_run _ _ _ _ Hcur). intros H Hr. inversion H; subst.
      by destruct (Hr (hashCommit X (object.withSignature signature
                (gitinterface.CreateCommitObject config treeHash cur message (clockNow X))))).
  - rewrite (ApplyCommit_run _ _ _ _ Hcur). intros H Hr. inversion H; subst.
    by destruct (Hr (hashCommit X
              (gitinterface.CreateCommitObject config treeHash cur message (clockNow X)))).
Qed.

Lemma PolicyRef_not_RSL : policy.PolicyRef <> rsl.Ref.
Proof. discriminate. Qed.

(** The end of [Commit] when the RSL entry cannot be appended. *)
Lemma recordOrReset_failed originalCommitID commitID sign repo e repo1 :
  rsl.CommitReferenceEntry X policy.PolicyRef commitID sign repo = (Err e, repo1) ->
  policy.recordOrReset X originalCommitID commitID sign repo
  = (Err e, git.SetReference repo1 policy.PolicyRef originalCommitID).
Proof. intros H. unfold policy.recordOrReset. by rewrite H. Qed.

Lemma CommitReferenceEntry_inv refName targetID sign repo r repo' :
  rsl.CommitReferenceEntry X refName targetID sign repo = (r, repo') ->
  (exists h, r = Ok tt
     /\ gitinterface.Commit X (gitinterface.EmptyTree X) rsl.Ref
          (object.ReferenceEntryMessage refName targetID) sign repo = (Ok h, repo'))
  \/ (exists e, r = Err e
        /\ gitinterface.Commit X (gitinterface.EmptyTree X) rsl.Ref
             (object.ReferenceEntryMessage refName targetID) sign repo = (Err e, repo')).
Proof.
  unfold rsl.CommitReferenceEntry. intros H.
  apply M_bind_inv in H as [(h & repo1 & Hc & Hr)|[(e & Hc & ->)|[Hc ->]]].
  - inversion Hr; subst. eauto.
  - eauto.
  - apply Commit_failed in Hc as [[e He] _]; [discriminate | discriminate].
Qed.

Lemma Commit_inv s commitMessage sign repo r repo' :
  policy.Commit X s commitMessage sign repo = (r, repo') ->
  (exists treeID originalCommitID commitID repo1 repo2 message,
     policy.writePolicyTree X s repo = (Ok treeID, repo1)
     /\ git.refs repo1 = git.refs repo
     /\ git.refs repo !! policy.PolicyRef = Some originalCommitID
     /\ gitinterface.Commit X treeID policy.PolicyRef (object.Text message) sign repo1
        = (Ok commitID, repo2)
     /\ policy.recordOrReset X originalCommitID commitID sign repo2 = (r, repo'))
  \/ ((forall u, r <> Ok u)
      /\ git.refs repo' !! policy.PolicyRef = git.refs repo !! policy.PolicyRef).
Proof.
  unfold policy.Commit. intros H.
  apply M_bind_inv in H as [(u & repo0 & Hverify & H)|[(e & Hverify & ->)|[Hverify ->]]];
    unfold git.pure in Hverify; injection Hverify as Hverify <-;
    [| right; split; [intros ?; congruence | reflexivity]
     | right; split; [intros ?; congruence | reflexivity]].
  pose proof (keepsRefs_writePolicyTree s repo) as Hk.
  apply M_bind_inv in H as [(treeID & repo1 & Htree & H)|[(e & Htree & ->)|[Htree ->]]];
    rewrite Htree in Hk; simpl in Hk;
    [| right; split; [intros ?; congruence | by rewrite Hk]
     | right; split; [intros ?; congruence | by rewrite Hk]].
  apply M_bind_inv in H as [(original & repo1' & Href & H)|[(e & Href & ->)|[Href ->]]];
    unfold git.read in Href; injection Href as Href <-;
    [| right; split; [intros ?; congruence | by rewrite Hk]
     | right; split; [intros ?; congruence | by rewrite Hk]].
  assert (Horiginal : git.refs repo !! policy.PolicyRef = Some original).
  { unfold git.Reference in Href. rewrite Hk in Href.
    destruct (git.refs repo !! policy.PolicyRef); by inversion Href. }
  apply M_bind_inv in H as [(commitID & repo2 & Hcommit & H)|[(e & Hcommit & ->)|[Hcommit ->]]].
  - left. exists treeID, original, commitID, repo1, repo2. eexists.
    split; [exact Htree |]. split; [exact Hk |]. split; [exact Horiginal |].
    split; [exact Hcommit | exact H].
  - right. split; [intros ?; congruence |].
    apply Commit_failed in Hcommit as [_ Hother]; [| intros h; congruence].
    rewrite Hother, Hk; [done |]. right. rewrite Hk. eauto.
  - apply Commit_failed in Hcommit as [[e He] _]; [discriminate | intros h; congruence].
Qed.

(** C4. When [Commit] succeeds, the policy ref points at the policy
    commit it wrote, whose tree is the policy tree of the state, and the
    head of the RSL is a reference entry for the policy ref whose target
    is that commit. When the RSL entry cannot be appended, the policy ref
    is reset to the hash read before the policy commit was made; and
    whenever [Commit] does not succeed, the policy ref holds what it held
    before the call. *)
Theorem Commit_links_policy_and_RSL (s : policy.State) (commitMessage : string) (sign : bool)
    (repo repo' : git.Repository) (r : result unit) :
  policy.Commit X s commitMessage sign repo = (r, repo') ->
  (r = Ok tt ->
   exists commitID entryID policyCommit,
     commitID = hashCommit X policyCommit
     /\ Ok (object.TreeHash policyCommit) = fst (policy.writePolicyTree X s repo)
     /\ git.refs repo' !! policy.PolicyRef = Some commitID
     /\ git.refs repo' !! rsl.Ref = Some entryID
     /\ rsl.GetLatestEntry repo'
        = Ok (rsl.Reference {| rsl.ID := entryID; rsl.RefName := policy.PolicyRef;
                               rsl.TargetID := commitID |}))
  /\ (r <> Ok tt -> git.refs repo' !! policy.PolicyRef = git.refs repo !! policy.PolicyRef)
  /\ (forall originalCommitID commitID repo1 e repo2,
        rsl.CommitReferenceEntry X policy.PolicyRef commitID sign repo1 = (Err e, repo2) ->
        policy.recordOrReset X originalCommitID commitID sign repo1
        = (Err e, git.SetReference repo2 policy.PolicyRef originalCommitID)).
Proof.
  intros H. split; [| split].
  - intros ->. apply Commit_inv in H as [H|[H _]]; [| by destruct (H tt)].
    destruct H as (treeID & original & commitID & repo1 & repo2 & message
                   & Htree & Hrefs & Horiginal & Hcommit & Hrecord).
    apply Commit_Ok in Hcommit as (policyCommit & Hid & _ & Htreehash & Hrefs2 & _).
    unfold policy.recordOrReset in Hrecord.
    destruct (rsl.CommitReferenceEntry X policy.PolicyRef commitID sign repo2)
      as [[[]|e|] repo3] eqn:Hentry; [| | discriminate].
    2: { unfold gitinterface.ResetDueToError in Hrecord. discriminate. }
    inversion Hrecord; subst repo3.
    apply CommitReferenceEntry_inv in Hentry as [(entryID & _ & Hentry)|(e & He & _)];
      [| discriminate].
    apply Commit_Ok in Hentry as (entryCommit & Heid & Hmessage & _ & Hrefs3 & Hcommits3).
    exists commitID, entryID, policyCommit.
    split; [done |]. split; [by rewrite Htree, Htreehash |].
    split; [| split].
    + rewrite Hrefs3, lookup_insert_ne, Hrefs2, lookup_insert_eq; [done |].
      intros Heq. by apply PolicyRef_not_RSL.
    + by rewrite Hrefs3, lookup_insert_eq.
    + unfold rsl.GetLatestEntry, git.Reference.
      rewrite Hrefs3, lookup_insert_eq. simpl.
      unfold rsl.GetEntry, git.CommitObject. rewrite Hcommits3, lookup_insert_eq. simpl.
      unfold rsl.parseEntry. simpl. by rewrite Hmessage.
  - intros Hr. apply Commit_inv in H as [H|[_ H]]; [| done].
    destruct H as (treeID & original & commitID & repo1 & repo2 & message
                   & Htree & Hrefs & Horiginal & Hcommit & Hrecord).
    unfold policy.recordOrReset in Hrecord.
    destruct (rsl.CommitReferenceEntry X policy.PolicyRef commitID sign repo2)
      as [[[]|e|] repo3] eqn:Hentry.
    + inversion Hrecord; subst. by destruct Hr.
    + unfold gitinterface.ResetDueToError in Hrecord. inversion Hrecord; subst.
      simpl. by rewrite lookup_insert_eq.
    + apply CommitReferenceEntry_inv in Hentry as [(h & Hh & _)|(e & He & _)]; discriminate.
  - intros original commitID repo1 e repo2. apply recordOrReset_failed.
Qed.

End commit.

Lemma Commit_links_policy_and_RSL_witness :
  (exists commitID entryID,
     git.refs fixture.repo1 !! policy.PolicyRef = Some commitID
     /\ git.refs fixture.repo1 !! rsl.Ref = Some entryID
     /\ rsl.GetLatestEntry fixture.repo1
        = Ok (rsl.Reference {| rsl.ID := entryID; rsl.RefName := policy.PolicyRef;
                               rsl.TargetID := commitID |}))
  /\ git.refs (snd (policy.Commit fixture.failingOnEntries fixture.stateWithDelegatedMain
                      "Second state" true fixture.repo1)) !! policy.PolicyRef
     = git.refs fixture.repo1 !! policy.PolicyRef.
Proof.
  split.
  - destruct (Commit_links_policy_and_RSL fixture.X fixture.stateWithPolicy "First state" false
                (snd (policy.InitializeNamespace fixture.emptyRepository)) fixture.repo1 (Ok tt))
      as (Hok & _); [vm_compute; reflexivity |].
    destruct (Hok eq_refl) as (commitID & entryID & policyCommit & _ & _ & H1 & H2 & H3).
    eauto.
  - destruct (Commit_links_policy_and_RSL fixture.failingOnEntries
                fixture.stateWithDelegatedMain "Second state" true fixture.repo1
                (snd (policy.Commit fixture.failingOnEntries fixture.stateWithDelegatedMain
                        "Second state" true fixture.repo1))
                (Err (ErrExternal "signing failed")))
      as (_ & Hfail & _); [vm_compute; reflexivity |].
    apply Hfail. discriminate.
Defined.

(** ** The policy of a commit *)

Section history.
Context (X : Ext).

Lemma CommitObject_extends repo repo' h c :
  git.extends repo repo' -> git.CommitObject repo h = Ok c -> git.CommitObject repo' h = Ok c.
Proof.
  intros (_ & _ & Hsub). unfold git.CommitObject.
  destruct (git.commits repo !! h) as [c0|] eqn:E; [| discriminate].
  by rewrite (lookup_weaken _ _ _ _ E Hsub).
Qed.

Lemma TreeObject_extends repo repo' h t :
  git.extends repo repo' -> git.TreeObject repo h = Ok t -> git.TreeObject repo' h = Ok t.
Proof.
  intros (_ & Hsub & _). unfold git.TreeObject.
  destruct (git.trees repo !! h) as [t0|] eqn:E; [| discriminate].
  by rewrite (lookup_weaken _ _ _ _ E Hsub).
Qed.

Lemma ReadBlob_extends repo repo' h b :
  git.extends repo repo' ->
  gitinterface.ReadBlob repo h = Ok b -> gitinterface.ReadBlob repo' h = Ok b.
Proof.
  intros (Hsub & _ & _). unfold gitinterface.ReadBlob.
  destruct (git.blobs repo !! h) as [b0|] eqn:E; [| discriminate].
  by rewrite (lookup_weaken _ _ _ _ E Hsub).
Qed.

Lemma KnowsCommit_extends repo repo' commitID commit knows :
  git.extends repo repo' ->
  gitinterface.KnowsCommit X repo commitID commit = Ok knows ->
  gitinterface.KnowsCommit X repo' commitID commit = Ok knows.
Proof.
  intros Hext. unfold gitinterface.KnowsCommit.
  destruct (N.eqb commitID (object.Hash commit)); [done |].
  intros H. apply bind_Ok in H as (c & Hc & H).
  by rewrite (CommitObject_extends _ _ _ _ Hext Hc).
Qed.

Lemma foldEach_extends {A B : Type} (f f' : B -> A -> result B) (l : list A) (b b' : B) :
  (forall b a b', f b a = Ok b' -> f' b a = Ok b') ->
  policy.foldEach f l b = Ok b' -> policy.foldEach f' l b = Ok b'.
Proof.
  intros Hf. revert b. induction l as [|a l IH]; intros b H; simpl in *; [done |].
  apply bind_Ok in H as (b1 & H1 & H). rewrite (Hf _ _ _ H1). simpl. by apply IH.
Qed.

Lemma LoadStateForEntry_extends repo repo' e state :
  git.extends repo repo' ->
  policy.LoadStateForEntry X repo e = Ok state ->
  policy.LoadStateForEntry X repo' e = Ok state.
Proof.
  intros Hext. unfold policy.LoadStateForEntry. destruct e as [entry|a]; [| done].
  destruct (negb (String.eqb (rsl.RefName entry) policy.PolicyRef)); [done |].
  intros H. apply bind_Ok in H as (policyCommit & Hcommit & H).
  apply bind_Ok in H as (tree & Htree & H).
  rewrite (CommitObject_extends _ _ _ _ Hext Hcommit). simpl.
  rewrite (TreeObject_extends _ _ _ _ Hext Htree). simpl.
  destruct (2 <? length tree)%nat; [done |].
  apply bind_Ok in H as (ids & Hids & H). rewrite Hids. simpl.
  apply bind_Ok in H as (metadataTree & Hm & H).
  apply bind_Ok in H as (keysTree & Hk & H).
  rewrite (TreeObject_extends _ _ _ _ Hext Hm). simpl.
  rewrite (TreeObject_extends _ _ _ _ Hext Hk). simpl.
  apply bind_Ok in H as (state1 & H1 & H).
  apply bind_Ok in H as (state2 & H2 & H).
  rewrite (foldEach_extends (policy.loadMetadataEntry X repo) (policy.loadMetadataEntry X repo')
             _ _ _ ltac:(
               intros b a b'; unfold policy.loadMetadataEntry; intros Hb;
               apply bind_Ok in Hb as (contents & Hc & Hb);
               by rewrite (ReadBlob_extends _ _ _ _ Hext Hc)) H1).
  simpl.
  rewrite (foldEach_extends (policy.loadKeyEntry X repo) (policy.loadKeyEntry X repo')
             _ _ _ ltac:(
               intros b a b'; unfold policy.loadKeyEntry; intros Hb;
               apply bind_Ok in Hb as (contents & Hc & Hb);
               by rewrite (ReadBlob_extends _ _ _ _ Hext Hc)) H2).
  done.
Qed.

(** The first entry that knows a commit stays the first when entries are
    added after it. *)
Lemma firstKnowing_app repo repo' commit entries newer first :
  git.extends repo repo' ->
  rsl.firstKnowing X repo commit entries = Ok first ->
  rsl.firstKnowing X repo' commit (entries ++ newer) = Ok first.
Proof.
  intros Hext. induction entries as [|[e|a] entries IH]; simpl; [done | | done].
  intros H. apply bind_Ok in H as (knows & Hknows & H).
  rewrite (KnowsCommit_extends _ _ _ _ _ Hext Hknows). simpl.
  destruct knows; [done | by apply IH].
Qed.

Lemma firstKnowing_elem repo commit entries first :
  rsl.firstKnowing X repo commit entries = Ok first -> rsl.Reference first ∈ entries.
Proof.
  induction entries as [|[e|a] entries IH]; simpl; [done | |].
  - intros H. apply bind_Ok in H as (knows & _ & H).
    destruct knows; [inversion H; left | right; by apply IH].
  - intros H. right. by apply IH.
Qed.

Lemma firstKnowing_none repo commit entries :
  (forall e, rsl.Reference e ∈ entries ->
     gitinterface.KnowsCommit X repo (rsl.TargetID e) commit = Ok false) ->
  rsl.firstKnowing X repo commit entries = Err ErrNoRecordOfCommit.
Proof.
  induction entries as [|[e|a] entries IH]; intros H; simpl; [done | |].
  - rewrite (H e); [| left]. simpl. apply IH. intros e' He'. apply H. by right.
  - apply IH. intros e' He'. apply H. by right.
Qed.

Lemma firstKnowing_split repo commit older first newer :
  (forall e, rsl.Reference e ∈ older ->
     gitinterface.KnowsCommit X repo (rsl.TargetID e) commit = Ok false) ->
  gitinterface.KnowsCommit X repo (rsl.TargetID first) commit = Ok true ->
  rsl.firstKnowing X repo commit (older ++ rsl.Reference first :: newer) = Ok first.
Proof.
  induction older as [|[e|a] older IH]; intros H Hfirst; simpl.
  - by rewrite Hfirst.
  - rewrite (H e); [| left]. simpl. apply IH; [| done]. intros e' He'. apply H. by right.
  - apply IH; [| done]. intros e' He'. apply H. by right.
Qed.

(** The entries older than an entry of the log are the same when newer
    entries with other ids sit on top. *)
Lemma before_app id newer entries :
  id ∉ rsl.GetID <$> newer ->
  rsl.before id (newer ++ entries) = rsl.before id entries.
Proof.
  induction newer as [|e newer IH]; intros Hid; simpl; [done |].
  rewrite fmap_cons in Hid. apply not_elem_of_cons in Hid as [Hne Hid].
  destruct (N.eqb_spec (rsl.GetID e) id); [congruence | by apply IH].
Qed.

Lemma before_here id e older :
  rsl.GetID e = id -> rsl.before id (e :: older) = Ok older.
Proof. intros <-. simpl. by rewrite N.eqb_refl. Qed.

Lemma latestFor_split refName between entry older :
  (forall e, rsl.Reference e ∈ between -> rsl.RefName e <> refName) ->
  rsl.RefName entry = refName ->
  rsl.latestFor refName (between ++ rsl.Reference entry :: older) = Ok entry.
Proof.
  induction between as [|[e|a] between IH]; intros H Hentry; simpl.
  - by rewrite Hentry, String.eqb_refl.
  - destruct (String.eqb_spec (rsl.RefName e) refName) as [Heq|_].
    + by destruct (H e ltac:(left)).
    + apply IH; [| done]. intros e' He'. apply H. by right.
  - apply IH; [| done]. intros e' He'. apply H. by right.
Qed.

Lemma elem_of_rev {A : Type} (x : A) (l : list A) : x ∈ rev l <-> x ∈ l.
Proof. rewrite !list_elem_of_In. symmetry. apply in_rev. Qed.

Lemma elem_of_fmap_rev {A B : Type} (f : A -> B) (y : B) (l : list A) :
  y ∈ f <$> rev l -> y ∈ f <$> l.
Proof.
  intros Hy. apply list_elem_of_fmap in Hy as (x & -> & Hx).
  apply list_elem_of_fmap_2. by apply elem_of_rev.
Qed.

(** C2. (1) When the log, read from the oldest entry on, has a policy
    entry, then entries that are not policy entries, then the first
    reference entry from whose target the commit is reachable, and
    whatever entries after it, [GetStateForCommit] loads the state of
    that policy entry. (2) First-seen semantics: a state returned for a
    commit is returned again in any later repository, which holds the
    same objects and more, and whose log has newer entries on top,
    whatever they record. (3) For a commit that no reference entry of the
    log knows, [GetStateForCommit] returns no state and no error. *)
Theorem GetStateForCommit_first_seen (commit : object.Commit) :
  (forall repo older policyEntry between firstSeen newer,
     rsl.log repo
       = Ok (rev (older ++ rsl.Reference policyEntry :: between
                    ++ rsl.Reference firstSeen :: newer)) ->
     rsl.ID firstSeen ∉ rsl.GetID <$> newer ->
     rsl.RefName policyEntry = policy.PolicyRef ->
     (forall e, rsl.Reference e ∈ between -> rsl.RefName e <> policy.PolicyRef) ->
     (forall e, rsl.Reference e ∈ older ++ rsl.Reference policyEntry :: between ->
        gitinterface.KnowsCommit X repo (rsl.TargetID e) commit = Ok false) ->
     gitinterface.KnowsCommit X repo (rsl.TargetID firstSeen) commit = Ok true ->
     policy.GetStateForCommit X repo commit
     = (state ← policy.LoadStateForEntry X repo (rsl.Reference policyEntry); Ok (Some state)))
  /\ (forall repo repo' entries newer state,
        rsl.log repo = Ok entries ->
        rsl.log repo' = Ok (newer ++ entries) ->
        NoDup (rsl.GetID <$> newer ++ entries) ->
        git.extends repo repo' ->
        policy.GetStateForCommit X repo commit = Ok (Some state) ->
        policy.GetStateForCommit X repo' commit = Ok (Some state))
  /\ (forall repo entries,
        rsl.log repo = Ok entries ->
        (forall e, rsl.Reference e ∈ entries ->
           gitinterface.KnowsCommit X repo (rsl.TargetID e) commit = Ok false) ->
        policy.GetStateForCommit X repo commit = Ok None).
Proof.
  split; [| split].
  - intros repo older policyEntry between firstSeen newer Hlog Hfresh Hpolicy Hbetween
      Hunknown Hknown.
    unfold policy.GetStateForCommit, rsl.GetFirstReferenceEntryForCommit.
    rewrite Hlog. simpl. rewrite rev_involutive.
    replace (older ++ rsl.Reference policyEntry :: between ++ rsl.Reference firstSeen :: newer)
      with ((older ++ rsl.Reference policyEntry :: between) ++ rsl.Reference firstSeen :: newer)
      by (by rewrite <- app_assoc).
    rewrite (firstKnowing_split _ _ _ _ _ Hunknown Hknown).
    assert (Hrev : rev (older ++ rsl.Reference policyEntry :: between
                          ++ rsl.Reference firstSeen :: newer)
                   = rev newer ++ rsl.Reference firstSeen
                       :: rev between ++ rsl.Reference policyEntry :: rev older).
    { repeat (rewrite rev_app_distr || simpl). by rewrite <- !app_assoc. }
    unfold rsl.GetLatestReferenceEntryForRefBefore. rewrite Hlog, Hrev. simpl.
    rewrite before_app.
    2: { intros Hin. apply Hfresh. by apply elem_of_fmap_rev in Hin. }
    rewrite before_here by done. simpl.
    rewrite latestFor_split; [done | | done].
    intros e He. apply Hbetween. by apply elem_of_rev.
  - intros repo repo' entries newer state Hlog Hlog' Hnodup Hext H.
    unfold policy.GetStateForCommit, rsl.GetFirstReferenceEntryForCommit in *.
    rewrite Hlog, bind_Ok_l in H. rewrite Hlog', bind_Ok_l.
    destruct (rsl.firstKnowing X repo commit (rev entries)) as [first|e|] eqn:Hfirst;
      [| by destruct e | done].
    rewrite rev_app_distr.
    rewrite (firstKnowing_app _ _ _ _ (rev newer) _ Hext Hfirst).
    apply bind_Ok in H as (policyEntry & Hbefore & H).
    apply bind_Ok in H as (state' & Hload & H).
    unfold rsl.GetLatestReferenceEntryForRefBefore in *.
    rewrite Hlog, bind_Ok_l in Hbefore. rewrite Hlog', bind_Ok_l.
    rewrite before_app.
    2: { apply firstKnowing_elem in Hfirst. rewrite elem_of_rev in Hfirst.
         rewrite fmap_app in Hnodup. apply NoDup_app in Hnodup as (_ & Hdisjoint & _).
         intros Hin. apply (Hdisjoint _ Hin).
         apply list_elem_of_fmap. exists (rsl.Reference first). by split. }
    rewrite Hbefore, bind_Ok_l.
    by rewrite (LoadStateForEntry_extends _ _ _ _ Hext Hload), bind_Ok_l.
  - intros repo entries Hlog Hunknown.
    unfold policy.GetStateForCommit, rsl.GetFirstReferenceEntryForCommit.
    rewrite Hlog. simpl. rewrite firstKnowing_none; [done |].
    intros e He. apply Hunknown. by apply elem_of_rev.
Qed.

End history.

Lemma map_subseteq_by_list {K A : Type} `{Countable K} (m1 m2 : gmap K A) :
  Forall (fun p => m2 !! fst p = Some (snd p)) (map_to_list m1) -> m1 ⊆ m2.
Proof.
  intros Hall. apply map_subseteq_spec. intros i x Hix. rewrite Forall_forall in Hall.
  apply (Hall (i, x)). by apply elem_of_map_to_list.
Qed.


Lemma GetStateForCommit_first_seen_witness :
  policy.GetStateForCommit fixture.Y fixture.repo3
    (fixture.commitObject fixture.repo5 fixture.commit2) = Ok (Some fixture.stateWithPolicy)
  /\ policy.GetStateForCommit fixture.Y fixture.repo5
       (fixture.commitObject fixture.repo5 fixture.commit2) = Ok (Some fixture.stateWithPolicy)
  /\ policy.GetStateForCommit fixture.Y fixture.repo1
       (fixture.commitObject fixture.repo5 fixture.commit2) = Ok None.
Proof.
  destruct (GetStateForCommit_first_seen fixture.Y
              (fixture.commitObject fixture.repo5 fixture.commit2))
    as (Hfirst & Hstable & Hnone).
  assert (H3 : policy.GetStateForCommit fixture.Y fixture.repo3
                 (fixture.commitObject fixture.repo5 fixture.commit2)
               = Ok (Some fixture.stateWithPolicy)).
  { rewrite (Hfirst fixture.repo3 [] (fixture.referenceAt fixture.repo3 0)
               [rsl.Reference (fixture.referenceAt fixture.repo3 1)]
               (fixture.referenceAt fixture.repo3 2) []).
    - vm_compute. reflexivity.
    - vm_compute. reflexivity.
    - apply not_elem_of_nil.
    - vm_compute. reflexivity.
    - intros e He. apply list_elem_of_singleton in He.
      assert (e = fixture.referenceAt fixture.repo3 1) as -> by congruence.
      vm_compute. discriminate.
    - intros e He. rewrite app_nil_l in He.
      apply elem_of_cons in He as [He|He]; [| apply list_elem_of_singleton in He].
      + assert (e = fixture.referenceAt fixture.repo3 0) as -> by congruence.
        vm_compute. reflexivity.
      + assert (e = fixture.referenceAt fixture.repo3 1) as -> by congruence.
        vm_compute. reflexivity.
    - vm_compute. reflexivity. }
  split; [exact H3 | split].
  - apply (Hstable fixture.repo3 fixture.repo5 (fixture.logOf fixture.repo3)
             (firstn 2 (fixture.logOf fixture.repo5))).
    + vm_compute. reflexivity.
    + vm_compute. reflexivity.
    + apply (bool_decide_unpack _). vm_compute. reflexivity.
    + unfold git.extends; split; [| split]; apply map_subseteq_by_list; vm_compute;
        repeat constructor.
    + exact H3.
  - apply (Hnone fixture.repo1 (fixture.logOf fixture.repo1)).
    + vm_compute. reflexivity.
    + intros e He. vm_compute in He. apply list_elem_of_singleton in He.
      match type of He with
      | rsl.Reference _ = rsl.Reference ?e' => assert (e = e') as -> by congruence
      end.
      vm_compute. reflexivity.
Defined.

(** ** [Verify] and the state it is called on *)

Section frame.
Context (X : Ext).

(** The equations of the loop of [Verify]. *)
Lemma verifyLoop_nil n envs keys : policy.verifyLoop X n envs keys [] = Ok envs.
Proof. by destruct n. Qed.

Lemma verifyLoop_skip n envs keys d queue :
  envs !! tuf.Name d = None ->
  policy.verifyLoop X n envs keys (d :: queue) = policy.verifyLoop X n envs keys queue.
Proof. intros H. destruct n; simpl; by rewrite H. Qed.

Lemma verifyLoop_exhausted envs keys d queue env :
  envs !! tuf.Name d = Some env ->
  policy.verifyLoop X 0 envs keys (d :: queue) = Panic.
Proof. intros H. simpl. by rewrite H. Qed.

Lemma verifyLoop_step n envs keys d queue env :
  envs !! tuf.Name d = Some env ->
  policy.verifyLoop X (S n) envs keys (d :: queue)
  = (delegationMetadata ← policy.verifyDelegation X keys d env;
     match tuf.Delegations_ delegationMetadata with
     | None => policy.verifyLoop X n (delete (tuf.Name d) envs) keys queue
     | Some delegations =>
         keys' ← policy.assignAll keys (tuf.Keys delegations);
         policy.verifyLoop X n (delete (tuf.Name d) envs) keys'
           (queue ++ tuf.Roles delegations)
     end).
Proof. intros H. simpl. by rewrite H. Qed.

Lemma verifyLoopHeap_nil n l keys h :
  policy.verifyLoopHeap X n l keys [] h = (Ok tt, h).
Proof. by destruct n. Qed.

Lemma verifyLoopHeap_skip n l keys d queue h envs :
  policy.envelopeMaps h !! l = Some envs ->
  envs !! tuf.Name d = None ->
  policy.verifyLoopHeap X n l keys (d :: queue) h = policy.verifyLoopHeap X n l keys queue h.
Proof. intros Hl H. destruct n; simpl; by rewrite Hl, H. Qed.

Lemma verifyLoopHeap_exhausted l keys d queue h envs env :
  policy.envelopeMaps h !! l = Some envs ->
  envs !! tuf.Name d = Some env ->
  policy.verifyLoopHeap X 0 l keys (d :: queue) h = (Panic, h).
Proof. intros Hl H. simpl. by rewrite Hl, H. Qed.

Lemma verifyLoopHeap_step n l keys d queue h envs env :
  policy.envelopeMaps h !! l = Some envs ->
  envs !! tuf.Name d = Some env ->
  policy.verifyLoopHeap X (S n) l keys (d :: queue) h
  = let h' := policy.setMap h l (delete (tuf.Name d) envs) in
    match policy.verifyDelegation X keys d env with
    | Err e => (Err e, h')
    | Panic => (Panic, h')
    | Ok delegationMetadata =>
        match tuf.Delegations_ delegationMetadata with
        | None => policy.verifyLoopHeap X n l keys queue h'
        | Some delegations =>
            match policy.assignAll keys (tuf.Keys delegations) with
            | Err e => (Err e, h')
            | Panic => (Panic, h')
            | Ok keys' =>
                policy.verifyLoopHeap X n l keys' (queue ++ tuf.Roles delegations) h'
            end
        end
    end.
Proof. intros Hl H. simpl. by rewrite Hl, H. Qed.

(** The fuel of the loop: with at least as much fuel as envelopes left,
    the result does not depend on the fuel, so that the branch without
    fuel is never taken from [Verify]. *)
Lemma verifyLoop_fuel n m envs keys queue :
  (size envs <= n)%nat -> (size envs <= m)%nat ->
  policy.verifyLoop X n envs keys queue = policy.verifyLoop X m envs keys queue.
Proof.
  revert m envs keys queue.
  induction n as [|n IHn]; intros m envs keys queue Hn Hm;
    induction queue as [|d queue IHq].
  - by rewrite !verifyLoop_nil.
  - assert (envs = ∅) as -> by (apply map_size_empty_inv; lia).
    rewrite !verifyLoop_skip by apply lookup_empty. exact IHq.
  - by rewrite !verifyLoop_nil.
  - destruct (envs !! tuf.Name d) as [env|] eqn:Hd.
    2: { rewrite !verifyLoop_skip by done. exact IHq. }
    assert (Hsize : size (delete (tuf.Name d) envs) = pred (size envs))
      by (apply map_size_delete_Some; eauto).
    assert (size envs <> 0)%nat.
    { intros Hz. apply map_size_empty_inv in Hz. subst. by rewrite lookup_empty in Hd. }
    destruct m as [|m]; [lia |].
    rewrite !(verifyLoop_step _ _ _ _ _ _ Hd).
    destruct (policy.verifyDelegation X keys d env) as [metadata|e|]; [| done | done].
    rewrite !bind_Ok_l.
    destruct (tuf.Delegations_ metadata) as [delegations|].
    + destruct (policy.assignAll keys (tuf.Keys delegations)) as [keys'|e|]; [| done | done].
      rewrite !bind_Ok_l. apply IHn; lia.
    + apply IHn; lia.
Qed.

(** The loop on the heap computes what the loop on values computes, and
    writes to the map object [l] only. *)
Lemma verifyLoopHeap_refines n l keys queue h envs :
  policy.envelopeMaps h !! l = Some envs ->
  exists h',
    policy.verifyLoopHeap X n l keys queue h
    = (policy.verifyLoop X n envs keys queue ≫= (fun _ => Ok tt), h')
    /\ policy.structs h' = policy.structs h
    /\ (forall l', l' <> l -> policy.envelopeMaps h' !! l' = policy.envelopeMaps h !! l')
    /\ (forall remaining, policy.verifyLoop X n envs keys queue = Ok remaining ->
          policy.envelopeMaps h' !! l = Some remaining).
Proof.
  revert keys queue h envs.
  induction n as [|n IHn]; intros keys queue h envs Hl;
    induction queue as [|d queue IHq].
  - rewrite verifyLoopHeap_nil, verifyLoop_nil.
    exists h. do 3 (split; [done |]). intros remaining H. inversion H. by subst.
  - destruct (envs !! tuf.Name d) as [env|] eqn:Hd.
    + rewrite (verifyLoopHeap_exhausted _ _ _ _ _ _ _ Hl Hd), (verifyLoop_exhausted _ _ _ _ _ Hd).
      exists h. by do 3 (split; [done |]).
    + by rewrite (verifyLoopHeap_skip _ _ _ _ _ _ _ Hl Hd), (verifyLoop_skip _ _ _ _ _ Hd).
  - rewrite verifyLoopHeap_nil, verifyLoop_nil.
    exists h. do 3 (split; [done |]). intros remaining H. inversion H. by subst.
  - destruct (envs !! tuf.Name d) as [env|] eqn:Hd.
    2: by rewrite (verifyLoopHeap_skip _ _ _ _ _ _ _ Hl Hd), (verifyLoop_skip _ _ _ _ _ Hd).
    rewrite (verifyLoopHeap_step _ _ _ _ _ _ _ _ Hl Hd), (verifyLoop_step _ _ _ _ _ _ Hd).
    cbv zeta.
    set (h1 := policy.setMap h l (delete (tuf.Name d) envs)).
    assert (Hl1 : policy.envelopeMaps h1 !! l = Some (delete (tuf.Name d) envs))
      by apply lookup_insert_eq.
    assert (Hother : forall l', l' <> l ->
              policy.envelopeMaps h1 !! l' = policy.envelopeMaps h !! l').
    { intros l' Hne. unfold h1. simpl. by apply lookup_insert_ne. }
    destruct (policy.verifyDelegation X keys d env) as [metadata|e|].
    2, 3: exists h1; by do 3 (split; [done |]).
    rewrite bind_Ok_l.
    destruct (tuf.Delegations_ metadata) as [delegations|].
    + destruct (policy.assignAll keys (tuf.Keys delegations)) as [keys'|e|].
      2, 3: exists h1; by do 3 (split; [done |]).
      rewrite bind_Ok_l.
      destruct (IHn keys' (queue ++ tuf.Roles delegations) h1 _ Hl1)
        as (h' & Hrun & Hstructs & Hcells & Hremaining).
      exists h'. split; [exact Hrun |]. split; [by rewrite Hstructs |].
      split; [| exact Hremaining].
      intros l' Hne. by rewrite Hcells, Hother.
    + destruct (IHn keys queue h1 _ Hl1) as (h' & Hrun & Hstructs & Hcells & Hremaining).
      exists h'. split; [exact Hrun |]. split; [by rewrite Hstructs |].
      split; [| exact Hremaining].
      intros l' Hne. by rewrite Hcells, Hother.
Qed.

(** One call of [Verify] on the heap: the verdict is that of [Verify] on
    the state the struct stands for, the structs are untouched, and so is
    every map object that existed before the call. *)
Lemma VerifyHeap_run p h st :
  policy.structs h !! p = Some st ->
  exists h',
    policy.VerifyHeap X p h = (policy.Verify X (policy.contents h st), h')
    /\ policy.structs h' = policy.structs h
    /\ (forall l m, policy.envelopeMaps h !! l = Some m ->
          policy.envelopeMaps h' !! l = Some m).
Proof.
  intros Hp. unfold policy.VerifyHeap, policy.Verify. rewrite Hp.
  destruct (policy.verifyTop X (policy.contents h st)) as [[delegations|]|e|].
  2, 3, 4: by exists h.
  rewrite bind_Ok_l. cbv zeta.
  set (l := fresh (dom (policy.envelopeMaps h))).
  assert (Hfresh : policy.envelopeMaps h !! l = None).
  { apply not_elem_of_dom. apply is_fresh. }
  set (envs := policy.DelegationEnvelopes (policy.contents h st)).
  destruct (verifyLoopHeap_refines (size envs) l (tuf.Keys delegations)
              (tuf.Roles delegations) (policy.setMap h l envs) envs)
    as (h' & Hrun & Hstructs & Hcells & Hremaining); [apply lookup_insert_eq |].
  assert (Hkept : forall l' m, policy.envelopeMaps h !! l' = Some m ->
            policy.envelopeMaps h' !! l' = Some m).
  { intros l' m Hm. assert (l' <> l) by congruence.
    rewrite Hcells by done. simpl. by rewrite lookup_insert_ne. }
  rewrite Hrun.
  destruct (policy.verifyLoop X (size envs) envs (tuf.Keys delegations)
              (tuf.Roles delegations)) as [remaining|e|] eqn:Hloop.
  - rewrite !bind_Ok_l, (Hremaining remaining eq_refl).
    exists h'. split; [by destruct (size remaining =? 0)%nat | by split].
  - by exists h'.
  - by exists h'.
Qed.

(** C8. [Verify], called on a state whose delegation envelopes, if any,
    are an allocated map object, leaves the struct as it was, with the
    same root envelope, targets envelope, map of delegation envelopes and
    root public keys; the map object and every other map object on the
    heap hold what they held; the verdict is a function of the state, and
    a second call returns the verdict of the first. *)
Theorem Verify_leaves_state_unchanged (p : positive) (h : policy.Heap)
    (st : policy.StateStruct) :
  policy.structs h !! p = Some st ->
  (forall l, policy.DelegationEnvelopesF st = Some l ->
     is_Some (policy.envelopeMaps h !! l)) ->
  policy.structs (snd (policy.VerifyHeap X p h)) !! p = Some st
  /\ policy.contents (snd (policy.VerifyHeap X p h)) st = policy.contents h st
  /\ (forall l m, policy.envelopeMaps h !! l = Some m ->
        policy.envelopeMaps (snd (policy.VerifyHeap X p h)) !! l = Some m)
  /\ fst (policy.VerifyHeap X p h) = policy.Verify X (policy.contents h st)
  /\ fst (policy.VerifyHeap X p (snd (policy.VerifyHeap X p h)))
     = fst (policy.VerifyHeap X p h).
Proof.
  intros Hp Hallocated.
  destruct (VerifyHeap_run p h st Hp) as (h' & Hrun & Hstructs & Hkept).
  rewrite Hrun. simpl.
  assert (Hp' : policy.structs h' !! p = Some st) by (by rewrite Hstructs).
  assert (Hcontents : policy.contents h' st = policy.contents h st).
  { unfold policy.contents. destruct (policy.DelegationEnvelopesF st) as [l|] eqn:Hl; [| done].
    simpl. destruct (Hallocated l eq_refl) as [m Hm]. by rewrite (Hkept l m Hm), Hm. }
  split; [done |]. split; [done |]. split; [done |]. split; [done |].
  destruct (VerifyHeap_run p h' st Hp') as (h'' & Hrun' & _).
  rewrite Hrun'. simpl. by rewrite Hcontents.
Qed.

End frame.

Lemma Verify_leaves_state_unchanged_witness :
  policy.structs fixture.heap !! 1%positive
  = policy.structs (snd (policy.VerifyHeap fixture.X 1%positive fixture.heap)) !! 1%positive
  /\ policy.envelopeMaps (snd (policy.VerifyHeap fixture.X 1%positive fixture.heap)) !! 2%positive
     = Some {[ "main" := fixture.signed "main-children" [fixture.gpgKey] ]}
  /\ fst (policy.VerifyHeap fixture.X 1%positive fixture.heap) = Ok tt
  /\ fst (policy.VerifyHeap fixture.X 1%positive
            (snd (policy.VerifyHeap fixture.X 1%positive fixture.heap))) = Ok tt.
Proof.
  destruct (Verify_leaves_state_unchanged fixture.X 1%positive fixture.heap
              {| policy.RootEnvelopeF := Some (fixture.signed "root" [fixture.rootKey]);
                 policy.TargetsEnvelopeF := Some (fixture.signed "targets-main" [fixture.rootKey]);
                 policy.DelegationEnvelopesF := Some 2%positive;
                 policy.RootPublicKeysF := [fixture.rootKey] |})
    as (Hstruct & _ & Hmaps & Hverdict & Hagain).
  - vm_compute. reflexivity.
  - intros l Hl. cbn [policy.DelegationEnvelopesF] in Hl.
    assert (l = 2%positive) as -> by congruence. vm_compute. eauto.
  - split; [by rewrite Hstruct |]. split; [apply Hmaps; vm_compute; reflexivity |].
    split; [rewrite Hverdict; vm_compute; reflexivity |].
    rewrite Hagain, Hverdict. vm_compute. reflexivity.
Defined.

(** ** The delegation of a role, and delegations that name themselves *)

Section lookups.
Context (X : Ext).

Lemma foldEach_decode_lookup (l : list (string * sslibdsse.Envelope))
    (acc table : gmap string tuf.TargetsMetadata) :
  policy.foldEach (fun acc (role : string * sslibdsse.Envelope) =>
              targetsMetadata ← policy.decodeEnvelope X (Some (snd role));
              Ok (<[fst role := targetsMetadata]> acc)) l acc = Ok table ->
  forall name m, table !! name = Some m ->
    acc !! name = Some m
    \/ exists env, (name, env) ∈ l /\ policy.decodeEnvelope X (Some env) = Ok m.
Proof.
  revert acc. induction l as [|[n e] l IH]; intros acc H name m Hm; simpl in H.
  - inversion H; subst. by left.
  - apply bind_Ok in H as (acc' & Hacc' & H).
    apply bind_Ok in Hacc' as (t & Ht & Hacc'). inversion Hacc'; subst acc'. simpl in *.
    destruct (IH _ H name m Hm) as [Hl|(env & Hin & Hd)].
    + destruct (decide (n = name)) as [->|Hne].
      * rewrite lookup_insert_eq in Hl. inversion Hl; subst. right. exists e. split; [left | done].
      * rewrite lookup_insert_ne in Hl by done. by left.
    + right. exists env. split; [by right | done].
Qed.

Lemma foldEach_decode_dom (l : list (string * sslibdsse.Envelope))
    (acc table : gmap string tuf.TargetsMetadata) :
  policy.foldEach (fun acc (role : string * sslibdsse.Envelope) =>
              targetsMetadata ← policy.decodeEnvelope X (Some (snd role));
              Ok (<[fst role := targetsMetadata]> acc)) l acc = Ok table ->
  forall name, (is_Some (acc !! name) \/ name ∈ l.*1) -> is_Some (table !! name).
Proof.
  revert acc. induction l as [|[n e] l IH]; intros acc H name Hname; simpl in H.
  - inversion H; subst. destruct Hname as [Hname|Hname]; [done |]. by apply elem_of_nil in Hname.
  - apply bind_Ok in H as (acc' & Hacc' & H).
    apply bind_Ok in Hacc' as (t & Ht & Hacc'). inversion Hacc'; subst acc'. simpl in *.
    apply (IH _ H). destruct Hname as [Hname|Hname].
    + left. destruct (decide (n = name)) as [->|Hne].
      * rewrite lookup_insert_eq. eauto.
      * by rewrite lookup_insert_ne.
    + apply elem_of_cons in Hname as [->|Hname]; [| by right].
      left. rewrite lookup_insert_eq. eauto.
Qed.

Lemma decodeDelegationEnvelopes_lookup s table name m :
  policy.decodeDelegationEnvelopes X s = Ok table ->
  table !! name = Some m ->
  exists env, policy.DelegationEnvelopes s !! name = Some env
    /\ policy.decodeEnvelope X (Some env) = Ok m.
Proof.
  intros H Hm. destruct (foldEach_decode_lookup _ _ _ H name m Hm) as [Hl|(env & Hin & Hd)].
  - by rewrite lookup_empty in Hl.
  - exists env. split; [| done]. by apply elem_of_map_to_list.
Qed.

Lemma decodeDelegationEnvelopes_complete s table name env :
  policy.decodeDelegationEnvelopes X s = Ok table ->
  policy.DelegationEnvelopes s !! name = Some env ->
  exists m, table !! name = Some m /\ policy.decodeEnvelope X (Some env) = Ok m.
Proof.
  intros H Henv.
  destruct (foldEach_decode_dom _ _ _ H name) as [m Hm].
  { right. apply list_elem_of_fmap. exists (name, env). split; [done |].
    by apply elem_of_map_to_list. }
  exists m. split; [done |].
  destruct (decodeDelegationEnvelopes_lookup _ _ _ _ H Hm) as (env' & Henv' & Hd).
  congruence.
Qed.

Lemma findDelegationLoop_sound fuel s table roleName queue d :
  policy.decodeDelegationEnvelopes X s = Ok table ->
  (forall d', d' ∈ queue -> policy.declared X s d') ->
  policy.findDelegationLoop fuel s table roleName queue = Some (Ok d) ->
  tuf.Name d = roleName /\ policy.declared X s d.
Proof.
  intros Htable. revert queue.
  induction fuel as [|fuel IH]; intros queue Hq H; simpl in H; [discriminate |].
  destruct queue as [|d' queue]; [discriminate |].
  destruct (String.eqb_spec (tuf.Name d') roleName) as [Heq|Hne].
  - inversion H; subst d'. split; [done |]. apply Hq. left.
  - destruct (policy.HasTargetsRole s (tuf.Name d')).
    + destruct (table !! tuf.Name d') as [m|] eqn:Hm; [| discriminate].
      destruct (tuf.Delegations_ m) as [ds|] eqn:Hds; [| discriminate].
      apply IH in H; [done |]. intros d'' Hin. apply elem_of_app in Hin as [Hin|Hin].
      * apply Hq. by right.
      * destruct (decodeDelegationEnvelopes_lookup _ _ _ _ Htable Hm) as (env & Henv & Hd).
        right. exists (tuf.Name d'), env, m, ds. done.
    + apply IH in H; [done |]. intros d'' Hin. apply Hq. by right.
Qed.

Lemma findDelegationEntry_sound fuel s roleName d :
  policy.findDelegationEntry X fuel s roleName = Some (Ok d) ->
  tuf.Name d = roleName /\ policy.declared X s d.
Proof.
  unfold policy.findDelegationEntry. intros H.
  destruct (policy.GetTargetsMetadata X s policy.TargetsRoleName) as [top|e|] eqn:Htop;
    [| discriminate | discriminate].
  destruct (policy.decodeDelegationEnvelopes X s) as [table|e|] eqn:Htable;
    [| discriminate | discriminate].
  destruct (tuf.Delegations_ top) as [ds|] eqn:Hds; [| discriminate].
  eapply findDelegationLoop_sound; [exact Htable | | exact H].
  intros d' Hin. left. exists top, ds. done.
Qed.

(** X1. Whatever [FindAuthorizedSigningKeyIDs] answers comes from a
    state that passes [Verify]: for the root role the key ids of the root
    role of the root metadata, none if the root metadata has no such role;
    for the targets role the key ids of the targets role, which the root
    metadata then has; for any other role the key ids of a delegation of
    that name that the top-level targets metadata or the metadata of a
    delegation envelope declares. *)
Theorem FindAuthorizedSigningKeyIDs_sound (fuel : nat) (s : policy.State) (roleName : string)
    (keyIDs : list string) :
  policy.FindAuthorizedSigningKeyIDs X fuel s roleName = Some (Ok keyIDs) ->
  policy.Verify X s = Ok tt
  /\ exists rootMetadata,
       policy.GetRootMetadata X s = Ok rootMetadata
       /\ (roleName = policy.RootRoleName ->
             keyIDs = tuf.KeyIDs (default tuf.zeroRole
                                    (tuf.RootRoles rootMetadata !! policy.RootRoleName)))
       /\ (roleName = policy.TargetsRoleName ->
             exists targetsRole,
               tuf.RootRoles rootMetadata !! policy.TargetsRoleName = Some targetsRole
               /\ keyIDs = tuf.KeyIDs targetsRole)
       /\ (roleName <> policy.RootRoleName -> roleName <> policy.TargetsRoleName ->
             exists d, policy.declared X s d /\ tuf.Name d = roleName
                       /\ keyIDs = tuf.KeyIDs (tuf.DRole d)).
Proof.
  unfold policy.FindAuthorizedSigningKeyIDs. intros H.
  destruct (policy.Verify X s) as [[]|e|] eqn:Hverify; [| discriminate | discriminate].
  split; [done |].
  destruct (policy.GetRootMetadata X s) as [rm|e|] eqn:Hroot; [| discriminate | discriminate].
  exists rm. split; [done |].
  destruct (String.eqb_spec roleName policy.RootRoleName) as [->|Hnr].
  { inversion H; subst. split; [done |]. split; [discriminate | done]. }
  destruct (String.eqb_spec roleName policy.TargetsRoleName) as [->|Hnt].
  { destruct (tuf.RootRoles rm !! policy.TargetsRoleName) as [r|] eqn:Hr; [| discriminate].
    inversion H; subst. split; [done |]. split; [eauto | done]. }
  split; [done |]. split; [done |]. intros _ _.
  destruct (policy.findDelegationEntry X fuel s roleName) as [[d|e|]|] eqn:Hfind;
    try discriminate.
  inversion H; subst. apply findDelegationEntry_sound in Hfind as [Hname Hd]. eauto.
Qed.

(** The entries of the queue ahead of the first entry of the name
    sought: they are taken off one by one, and what they delegate to goes
    to the end of the queue. *)
Lemma findDelegationLoop_first_match s table roleName before d :
  tuf.Name d = roleName ->
  (forall d', d' ∈ before ->
     tuf.Name d' <> roleName
     /\ (policy.HasTargetsRole s (tuf.Name d') = true ->
         exists m ds, table !! tuf.Name d' = Some m /\ tuf.Delegations_ m = Some ds)) ->
  forall fuel after, (length before < fuel)%nat ->
    policy.findDelegationLoop fuel s table roleName (before ++ d :: after) = Some (Ok d).
Proof.
  intros Hname. induction before as [|d' before IH]; intros Hbefore fuel after Hfuel.
  - destruct fuel as [|fuel]; [simpl in Hfuel; lia |]. simpl.
    by rewrite (proj2 (String.eqb_eq _ _) Hname).
  - destruct fuel as [|fuel]; [simpl in Hfuel; lia |]. simpl in *.
    destruct (Hbefore d') as [Hne Hmeta]; [left |].
    rewrite (proj2 (String.eqb_neq _ _) Hne).
    assert (Hrest : forall d'', d'' ∈ before ->
              tuf.Name d'' <> roleName
              /\ (policy.HasTargetsRole s (tuf.Name d'') = true ->
                  exists m ds, table !! tuf.Name d'' = Some m /\ tuf.Delegations_ m = Some ds)).
    { intros d'' Hin. apply Hbefore. by right. }
    destruct (policy.HasTargetsRole s (tuf.Name d')).
    + destruct Hmeta as (m & ds & -> & ->); [done |].
      rewrite <- app_assoc. simpl. apply IH; [done | lia].
    + apply IH; [done | lia].
Qed.

Lemma findDelegationLoop_not_found s table roleName queue :
  (forall d, d ∈ queue ->
     tuf.Name d <> roleName /\ policy.HasTargetsRole s (tuf.Name d) = false) ->
  forall fuel, (length queue < fuel)%nat ->
    policy.findDelegationLoop fuel s table roleName queue = Some (Err ErrDelegationNotFound).
Proof.
  induction queue as [|d queue IH]; intros Hq fuel Hfuel.
  - destruct fuel; [simpl in Hfuel; lia | done].
  - destruct fuel as [|fuel]; [simpl in Hfuel; lia |]. simpl in *.
    destruct (Hq d) as [Hne Hno]; [left |].
    rewrite (proj2 (String.eqb_neq _ _) Hne), Hno.
    apply IH; [| lia]. intros d' Hin. apply Hq. by right.
Qed.

(** X2. [findDelegationEntry] is breadth first: a delegation of the
    top-level targets metadata is found ahead of whatever the delegations
    before it delegate to, in as many steps as there are delegations
    before it; and when no top-level delegation has the name sought or
    delegated metadata, the answer is [ErrDelegationNotFound]. *)
Theorem findDelegationEntry_breadth_first (s : policy.State) (roleName : string)
    (top : tuf.TargetsMetadata) (delegations : tuf.Delegations)
    (table : gmap string tuf.TargetsMetadata) :
  policy.GetTargetsMetadata X s policy.TargetsRoleName = Ok top ->
  tuf.Delegations_ top = Some delegations ->
  policy.decodeDelegationEnvelopes X s = Ok table ->
  (forall before d after,
     tuf.Roles delegations = before ++ d :: after ->
     tuf.Name d = roleName ->
     (forall d', d' ∈ before ->
        tuf.Name d' <> roleName
        /\ (policy.HasTargetsRole s (tuf.Name d') = true ->
            exists m ds, table !! tuf.Name d' = Some m /\ tuf.Delegations_ m = Some ds)) ->
     forall fuel, (length before < fuel)%nat ->
       policy.findDelegationEntry X fuel s roleName = Some (Ok d))
  /\ ((forall d, d ∈ tuf.Roles delegations ->
         tuf.Name d <> roleName /\ policy.HasTargetsRole s (tuf.Name d) = false) ->
      forall fuel, (length (tuf.Roles delegations) < fuel)%nat ->
        policy.findDelegationEntry X fuel s roleName = Some (Err ErrDelegationNotFound)).
Proof.
  intros Htop Hds Htable. unfold policy.findDelegationEntry. rewrite Htop, Htable, Hds.
  split.
  - intros before d after -> Hname Hbefore fuel Hfuel.
    by apply findDelegationLoop_first_match.
  - intros Hall fuel Hfuel. by apply findDelegationLoop_not_found.
Qed.

Lemma Verify_Ok_root_metadata s t :
  policy.Verify X s = Ok tt -> policy.TargetsEnvelope s = Some t ->
  exists rootMetadata, policy.GetRootMetadata X s = Ok rootMetadata.
Proof.
  unfold policy.Verify, policy.verifyTop. intros H Ht. rewrite Ht in H.
  apply bind_Ok in H as (top & H & _).
  apply bind_Ok in H as (verifiers & _ & H).
  apply bind_Ok in H as ([] & _ & H).
  apply bind_Ok in H as (rm & Hrm & _). eauto.
Qed.

Lemma GetTargetsMetadata_top_Ok s top :
  policy.GetTargetsMetadata X s policy.TargetsRoleName = Ok top ->
  exists t, policy.TargetsEnvelope s = Some t.
Proof.
  unfold policy.GetTargetsMetadata. simpl.
  destruct (policy.TargetsEnvelope s); [eauto | discriminate].
Qed.

(** X3. A rule of the top-level targets metadata that is named as the
    top-level role itself makes the lookup of a later role crash. *)
Theorem FindAuthorizedSigningKeyIDs_rule_named_targets (s : policy.State) (roleName : string)
    (top : tuf.TargetsMetadata) (delegations : tuf.Delegations)
    (before after : list tuf.Delegation) (d : tuf.Delegation) :
  policy.Verify X s = Ok tt ->
  policy.GetTargetsMetadata X s policy.TargetsRoleName = Ok top ->
  tuf.Delegations_ top = Some delegations ->
  policy.DelegationEnvelopes s = ∅ ->
  tuf.Roles delegations = before ++ d :: after ->
  tuf.Name d = policy.TargetsRoleName ->
  (forall d', d' ∈ before ->
     tuf.Name d' <> roleName /\ tuf.Name d' <> policy.TargetsRoleName) ->
  roleName <> policy.RootRoleName -> roleName <> policy.TargetsRoleName ->
  forall fuel, (length before < fuel)%nat ->
    policy.FindAuthorizedSigningKeyIDs X fuel s roleName = Some Panic.
Proof.
  intros Hverify Htop Hds Hempty Hroles Hname Hbefore Hnr Hnt fuel Hfuel.
  destruct (GetTargetsMetadata_top_Ok _ _ Htop) as [t Ht].
  destruct (Verify_Ok_root_metadata _ _ Hverify Ht) as [rm Hrm].
  unfold policy.FindAuthorizedSigningKeyIDs. rewrite Hverify, Hrm.
  rewrite (proj2 (String.eqb_neq _ _) Hnr), (proj2 (String.eqb_neq _ _) Hnt).
  unfold policy.findDelegationEntry, policy.decodeDelegationEnvelopes.
  rewrite Htop, Hempty, map_to_list_empty. simpl. rewrite Hds, Hroles.
  assert (Hloop : forall fuel after', (length before < fuel)%nat ->
            policy.findDelegationLoop fuel s ∅ roleName (before ++ d :: after') = Some Panic).
  { clear Hfuel fuel Hroles. induction before as [|d' before IH]; intros fuel after' Hfuel.
    - destruct fuel as [|fuel]; [simpl in Hfuel; lia |]. simpl.
      rewrite Hname. rewrite (proj2 (String.eqb_neq _ _)) by done.
      unfold policy.HasTargetsRole. simpl. by rewrite Ht, lookup_empty.
    - destruct fuel as [|fuel]; [simpl in Hfuel; lia |]. simpl in *.
      destruct (Hbefore d') as [Hne Hne']; [left |].
      rewrite (proj2 (String.eqb_neq _ _) Hne).
      unfold policy.HasTargetsRole at 1.
      rewrite (proj2 (String.eqb_neq _ _) Hne'), Hempty, lookup_empty.
      apply IH; [| lia]. intros d'' Hin. apply Hbefore. by right. }
  by rewrite Hloop.
Qed.

(** The loop of [findDelegationEntry] on a queue that holds a
    delegation whose own metadata delegates to its name again. *)
Lemma findDelegationLoop_diverges s table roleName name m ds :
  policy.HasTargetsRole s name = true ->
  table !! name = Some m -> tuf.Delegations_ m = Some ds ->
  (exists d, d ∈ tuf.Roles ds /\ tuf.Name d = name) ->
  (forall name' m' ds' d, table !! name' = Some m' -> tuf.Delegations_ m' = Some ds' ->
     d ∈ tuf.Roles ds' ->
     tuf.Name d <> roleName
     /\ (policy.HasTargetsRole s (tuf.Name d) = true ->
         exists m'' ds'', table !! tuf.Name d = Some m'' /\ tuf.Delegations_ m'' = Some ds'')) ->
  forall fuel queue,
    (forall d, d ∈ queue ->
       tuf.Name d <> roleName
       /\ (policy.HasTargetsRole s (tuf.Name d) = true ->
           exists m'' ds'', table !! tuf.Name d = Some m'' /\ tuf.Delegations_ m'' = Some ds'')) ->
    (exists d, d ∈ queue /\ tuf.Name d = name) ->
    policy.findDelegationLoop fuel s table roleName queue = None.
Proof.
  intros Hhas Hm Hds (dl & Hdl & Hdlname) Hclosed.
  induction fuel as [|fuel IH]; intros queue Hq (d & Hd & Hdname); [done |].
  simpl. destruct queue as [|d' queue]; [by apply elem_of_nil in Hd |].
  destruct (Hq d') as [Hne Hmeta]; [left |].
  rewrite (proj2 (String.eqb_neq _ _) Hne).
  destruct (policy.HasTargetsRole s (tuf.Name d')) eqn:Hhas'.
  - destruct Hmeta as (m' & ds' & Hm' & Hds'); [done |]. rewrite Hm', Hds'.
    apply IH.
    + intros d'' Hin. apply elem_of_app in Hin as [Hin|Hin].
      * apply Hq. by right.
      * by apply (Hclosed _ _ _ _ Hm' Hds').
    + apply elem_of_cons in Hd as [->|Hd].
      * rewrite Hdname in Hm'. assert (m' = m) as -> by congruence.
        assert (ds' = ds) as -> by congruence.
        exists dl. split; [| done]. apply elem_of_app. by right.
      * exists d. split; [| done]. apply elem_of_app. by left.
  - apply IH.
    + intros d'' Hin. apply Hq. by right.
    + apply elem_of_cons in Hd as [->|Hd]; [congruence |]. eauto.
Qed.

(** X4. On a state that passes [Verify] and in which a top-level
    delegation has delegated metadata that delegates to the same name
    again, [FindAuthorizedSigningKeyIDs] does not return for a role that
    no metadata declares: whatever the fuel, the loop is still running. *)
Theorem FindAuthorizedSigningKeyIDs_diverges (s : policy.State) (roleName : string)
    (top : tuf.TargetsMetadata) (delegations : tuf.Delegations)
    (table : gmap string tuf.TargetsMetadata)
    (d : tuf.Delegation) (env : sslibdsse.Envelope) (m : tuf.TargetsMetadata)
    (ds : tuf.Delegations) (d' : tuf.Delegation) :
  policy.Verify X s = Ok tt ->
  policy.GetTargetsMetadata X s policy.TargetsRoleName = Ok top ->
  tuf.Delegations_ top = Some delegations ->
  policy.decodeDelegationEnvelopes X s = Ok table ->
  (* the delegation that delegates to its own name *)
  d ∈ tuf.Roles delegations ->
  tuf.Name d <> policy.TargetsRoleName ->
  policy.DelegationEnvelopes s !! tuf.Name d = Some env ->
  policy.decodeEnvelope X (Some env) = Ok m ->
  tuf.Delegations_ m = Some ds ->
  d' ∈ tuf.Roles ds -> tuf.Name d' = tuf.Name d ->
  (* no metadata declares the role, or a rule named as the top-level role *)
  (forall d'', policy.declared X s d'' ->
     tuf.Name d'' <> roleName /\ tuf.Name d'' <> policy.TargetsRoleName) ->
  (* the metadata of the delegation envelopes have delegations *)
  (forall name' m', table !! name' = Some m' -> is_Some (tuf.Delegations_ m')) ->
  roleName <> policy.RootRoleName -> roleName <> policy.TargetsRoleName ->
  forall fuel, policy.FindAuthorizedSigningKeyIDs X fuel s roleName = None.
Proof.
  intros Hverify Htop Hds Htable Hd Hdt Henv Hm Hmds Hd' Hd'name Hdeclared Hhave Hnr Hnt fuel.
  destruct (GetTargetsMetadata_top_Ok _ _ Htop) as [t Ht].
  destruct (Verify_Ok_root_metadata _ _ Hverify Ht) as [rm Hrm].
  unfold policy.FindAuthorizedSigningKeyIDs. rewrite Hverify, Hrm.
  rewrite (proj2 (String.eqb_neq _ _) Hnr), (proj2 (String.eqb_neq _ _) Hnt).
  unfold policy.findDelegationEntry. rewrite Htop, Htable, Hds.
  assert (Hok : forall d'', policy.declared X s d'' ->
            tuf.Name d'' <> roleName
            /\ (policy.HasTargetsRole s (tuf.Name d'') = true ->
                exists m'' ds'', table !! tuf.Name d'' = Some m''
                                 /\ tuf.Delegations_ m'' = Some ds'')).
  { intros d'' Hdecl. destruct (Hdeclared d'' Hdecl) as [Hne Hne']. split; [done |].
    unfold policy.HasTargetsRole. rewrite (proj2 (String.eqb_neq _ _) Hne').
    destruct (policy.DelegationEnvelopes s !! tuf.Name d'') as [env''|] eqn:Henv''; [| done].
    intros _.
    destruct (decodeDelegationEnvelopes_complete _ _ _ _ Htable Henv'') as (m'' & Hm'' & _).
    destruct (Hhave _ _ Hm'') as [ds'' Hds'']. eauto. }
  destruct (decodeDelegationEnvelopes_complete _ _ _ _ Htable Henv) as (m0 & Hm0 & Hdec0).
  assert (m0 = m) as -> by congruence.
  rewrite (findDelegationLoop_diverges s table roleName (tuf.Name d) m ds); try done.
  - unfold policy.HasTargetsRole. by rewrite (proj2 (String.eqb_neq _ _) Hdt), Henv.
  - eauto.
  - intros name' m' ds' d'' Hm' Hds' Hin. apply Hok.
    destruct (decodeDelegationEnvelopes_lookup _ _ _ _ Htable Hm') as (env' & Henv' & Hdec').
    right. exists name', env', m', ds'. done.
  - intros d'' Hin. apply Hok. left. exists top, delegations. done.
  - eauto.
Qed.


(** The keys found so far are kept: the loop only appends. *)
Lemma findLoop_appends fuel s path allPublicKeys queue trustedKeys keys :
  policy.findLoop X fuel s path allPublicKeys queue trustedKeys = Some (Ok keys) ->
  exists more, keys = trustedKeys ++ more.
Proof.
  revert allPublicKeys queue trustedKeys.
  induction fuel as [|fuel IH]; intros allPublicKeys queue trustedKeys H; [discriminate |].
  simpl in H. destruct queue as [|d [|next queue]].
  - inversion H. exists []. by rewrite app_nil_r.
  - inversion H. exists []. by rewrite app_nil_r.
  - assert (Hstep : forall allPublicKeys' queue',
              policy.findLoop X fuel s path allPublicKeys' queue'
                (trustedKeys ++ (policy.keyOf allPublicKeys <$> tuf.KeyIDs (tuf.DRole d)))
              = Some (Ok keys) ->
              exists more, keys = trustedKeys ++ more).
    { intros allPublicKeys' queue' H'. apply IH in H' as [more ->].
      rewrite <- app_assoc. eauto. }
    destruct (policy.Matches X d path); [| by apply IH in H].
    destruct (policy.HasTargetsRole s (tuf.Name d)); [| by apply Hstep in H].
    destruct (policy.GetTargetsMetadata X s (tuf.Name d)) as [md|e|]; try discriminate.
    destruct (tuf.Delegations_ md) as [dl|]; [| discriminate].
    destruct (policy.assignAll allPublicKeys (tuf.Keys dl)) as [keys'|e|]; try discriminate.
    destruct (tuf.Terminating d); [by apply Hstep in H |].
    destruct (tuf.Roles dl) as [|r roles]; [discriminate |]. by apply Hstep in H.
Qed.

(** X5. A key id of a matching delegation that the keys of the
    top-level targets metadata do not declare is answered with a nil key:
    when the first delegation of the top-level targets metadata matches
    the path and is followed by another, the keys returned hold a nil key
    for each such key id. *)
Theorem FindPublicKeysForPath_nil_key (s : policy.State) (path : string)
    (top : tuf.TargetsMetadata) (delegations : tuf.Delegations)
    (d next : tuf.Delegation) (rest : list tuf.Delegation) (keyID : string)
    (fuel : nat) (keys : list (option tuf.Key)) :
  policy.GetTargetsMetadata X s policy.TargetsRoleName = Ok top ->
  tuf.Delegations_ top = Some delegations ->
  tuf.Roles delegations = d :: next :: rest ->
  policy.Matches X d path = true ->
  keyID ∈ tuf.KeyIDs (tuf.DRole d) ->
  policy.keyOf (tuf.Keys delegations) keyID = None ->
  policy.FindPublicKeysForPath X fuel s path = Some (Ok keys) ->
  policy.Verify X s = Ok tt /\ None ∈ keys.
Proof.
  intros Htop Hds Hroles Hmatch HkeyID Hkey H.
  unfold policy.FindPublicKeysForPath in H.
  destruct (policy.Verify X s) as [[]|e|] eqn:Hverify; [| discriminate | discriminate].
  split; [done |].
  rewrite Htop, Hds, Hroles in H.
  destruct fuel as [|fuel]; [discriminate |]. simpl in H. rewrite Hmatch in H.
  assert (Hnil : None ∈ policy.keyOf (tuf.Keys delegations) <$> tuf.KeyIDs (tuf.DRole d)).
  { apply list_elem_of_fmap. eauto. }
  assert (Hstep : forall allPublicKeys' queue',
            policy.findLoop X fuel s path allPublicKeys' queue'
              (policy.keyOf (tuf.Keys delegations) <$> tuf.KeyIDs (tuf.DRole d))
            = Some (Ok keys) -> None ∈ keys).
  { intros allPublicKeys' queue' H'. apply findLoop_appends in H' as [more ->].
    apply elem_of_app. by left. }
  destruct (policy.HasTargetsRole s (tuf.Name d)); [| by apply Hstep in H].
  destruct (policy.GetTargetsMetadata X s (tuf.Name d)) as [md|e|]; try discriminate.
  destruct (tuf.Delegations_ md) as [dl|]; [| discriminate].
  destruct (policy.assignAll (tuf.Keys delegations) (tuf.Keys dl)) as [keys'|e|];
    try discriminate.
  destruct (tuf.Terminating d); [by apply Hstep in H |].
  destruct (tuf.Roles dl) as [|r roles]; [discriminate |]. by apply Hstep in H.
Qed.

(** The loop of [FindPublicKeysForPath] on a queue headed by a matching
    delegation whose delegated metadata starts with a matching delegation
    of the same name. *)
Lemma findLoop_diverges s path name m ds d0 more :
  policy.HasTargetsRole s name = true ->
  policy.GetTargetsMetadata X s name = Ok m ->
  tuf.Delegations_ m = Some ds ->
  tuf.Roles ds = d0 :: more -> more <> [] ->
  tuf.Name d0 = name -> policy.Matches X d0 path = true ->
  forall fuel allPublicKeys d tail trustedKeys,
    is_Some allPublicKeys ->
    tuf.Name d = name -> policy.Matches X d path = true -> tail <> [] ->
    policy.findLoop X fuel s path allPublicKeys (d :: tail) trustedKeys = None.
Proof.
  intros Hhas Hm Hds Hroles Hmore Hname0 Hmatch0.
  induction fuel as [|fuel IH]; intros allPublicKeys d tail trustedKeys [k ->] Hname Hmatch Htail;
    [done |].
  simpl. destruct tail as [|next tail]; [done |].
  rewrite Hmatch, Hname, Hhas, Hm, Hds.
  assert (Hassign : exists k', policy.assignAll (Some k) (tuf.Keys ds) = Ok (Some k')).
  { unfold policy.assignAll. destruct (tuf.Keys ds) as [src|]; [| eauto].
    destruct (size src =? 0)%nat; eauto. }
  destruct Hassign as [k' ->].
  destruct (tuf.Terminating d).
  - rewrite Hroles. by apply IH.
  - rewrite Hroles. destruct more as [|r more']; [done |].
    change (removelast (d0 :: r :: more')) with (d0 :: removelast (r :: more')).
    rewrite <- app_comm_cons. apply IH; try done.
    intros Hnil. by apply app_eq_nil in Hnil as [_ Hnil].
Qed.

(** X6. On a state that passes [Verify], [FindPublicKeysForPath] does
    not return for a path that the first top-level delegation matches when
    that delegation has delegated metadata whose first delegation has the
    same name and matches the path too: whatever the fuel, the loop is
    still running. *)
Theorem FindPublicKeysForPath_diverges (s : policy.State) (path : string)
    (top : tuf.TargetsMetadata) (delegations : tuf.Delegations)
    (d next : tuf.Delegation) (rest : list tuf.Delegation)
    (m : tuf.TargetsMetadata) (ds : tuf.Delegations)
    (d0 next0 : tuf.Delegation) (rest0 : list tuf.Delegation) :
  policy.Verify X s = Ok tt ->
  policy.GetTargetsMetadata X s policy.TargetsRoleName = Ok top ->
  tuf.Delegations_ top = Some delegations ->
  is_Some (tuf.Keys delegations) ->
  tuf.Roles delegations = d :: next :: rest ->
  policy.Matches X d path = true ->
  policy.HasTargetsRole s (tuf.Name d) = true ->
  policy.GetTargetsMetadata X s (tuf.Name d) = Ok m ->
  tuf.Delegations_ m = Some ds ->
  tuf.Roles ds = d0 :: next0 :: rest0 ->
  tuf.Name d0 = tuf.Name d -> policy.Matches X d0 path = true ->
  forall fuel, policy.FindPublicKeysForPath X fuel s path = None.
Proof.
  intros Hverify Htop Hdelegations Hkeys Hroles Hmatch Hhas Hm Hds Hroles0 Hname0 Hmatch0 fuel.
  unfold policy.FindPublicKeysForPath. rewrite Hverify, Htop, Hdelegations, Hroles.
  by apply (findLoop_diverges s path (tuf.Name d) m ds d0 (next0 :: rest0)).
Qed.

End lookups.

Lemma FindAuthorizedSigningKeyIDs_sound_witness :
  policy.FindAuthorizedSigningKeyIDs fixture.X 2 fixture.stateWithPolicy "main"
  = Some (Ok ["gpg-key"])
  /\ policy.Verify fixture.X fixture.stateWithPolicy = Ok tt
  /\ exists d, policy.declared fixture.X fixture.stateWithPolicy d /\ tuf.Name d = "main"
               /\ ["gpg-key"] = tuf.KeyIDs (tuf.DRole d).
Proof.
  split; [vm_compute; reflexivity |].
  destruct (FindAuthorizedSigningKeyIDs_sound fixture.X 2 fixture.stateWithPolicy "main"
              ["gpg-key"]) as (Hverify & rm & _ & _ & _ & Hd); [vm_compute; reflexivity |].
  split; [exact Hverify |]. apply Hd; discriminate.
Defined.

Lemma findDelegationEntry_breadth_first_witness :
  policy.findDelegationEntry fixture.X 2 fixture.stateWithDelegatedMain "allow-rule"
  = Some (Ok fixture.allowRule)
  /\ policy.findDelegationEntry fixture.X 3 fixture.stateWithPolicy "reviewers"
     = Some (Err ErrDelegationNotFound).
Proof.
  split.
  - destruct (findDelegationEntry_breadth_first fixture.X fixture.stateWithDelegatedMain
                "allow-rule"
                (fixture.targets [fixture.gpgKey]
                   [fixture.delegation "main" ["git:refs/heads/main"] ["gpg-key"] false;
                    fixture.allowRule])
                (fixture.delegationsOf "targets-main")
                {[ "main" := fixture.targets [fixture.devKey]
                     [fixture.delegation "reviewers" ["git:refs/heads/main"] ["dev-key"] false;
                      fixture.allowRule] ]})
      as [Hfound _]; [vm_compute; reflexivity | reflexivity | vm_compute; reflexivity |].
    apply (Hfound [fixture.delegation "main" ["git:refs/heads/main"] ["gpg-key"] false]
                  fixture.allowRule []); [reflexivity | reflexivity | | simpl; lia].
    intros d' Hin. apply list_elem_of_singleton in Hin as ->. split; [discriminate |].
    intros _. eexists _, _. split; [apply lookup_singleton_eq | reflexivity].
  - destruct (findDelegationEntry_breadth_first fixture.X fixture.stateWithPolicy
                "reviewers"
                (fixture.targets [fixture.gpgKey]
                   [fixture.delegation "main" ["git:refs/heads/main"] ["gpg-key"] false;
                    fixture.allowRule])
                (fixture.delegationsOf "targets-main") ∅)
      as [_ Hnone]; [vm_compute; reflexivity | reflexivity | vm_compute; reflexivity |].
    apply Hnone; [| simpl; lia].
    intros d Hin. apply elem_of_cons in Hin as [->|Hin]; [by split |].
    apply list_elem_of_singleton in Hin as ->. by split.
Defined.

Lemma FindAuthorizedSigningKeyIDs_rule_named_targets_witness :
  policy.Verify fixture.W (fixture.stateWith "targets-shadow" ∅) = Ok tt
  /\ policy.FindAuthorizedSigningKeyIDs fixture.W 1 (fixture.stateWith "targets-shadow" ∅)
       "main" = Some Panic.
Proof.
  split; [vm_compute; reflexivity |].
  apply (FindAuthorizedSigningKeyIDs_rule_named_targets fixture.W
           (fixture.stateWith "targets-shadow" ∅) "main"
           (fixture.targets [fixture.gpgKey]
              [fixture.delegation "targets" ["git:refs/heads/*"] ["gpg-key"] false;
               fixture.delegation "main" ["git:refs/heads/main"] ["gpg-key"] false;
               fixture.allowRule])
           {| tuf.Keys := Some (list_to_map [("gpg-key", fixture.gpgKey)]);
              tuf.Roles := [fixture.delegation "targets" ["git:refs/heads/*"] ["gpg-key"] false;
                            fixture.delegation "main" ["git:refs/heads/main"] ["gpg-key"] false;
                            fixture.allowRule] |}
           [] [fixture.delegation "main" ["git:refs/heads/main"] ["gpg-key"] false;
               fixture.allowRule]
           (fixture.delegation "targets" ["git:refs/heads/*"] ["gpg-key"] false));
    try reflexivity; try discriminate; try (vm_compute; reflexivity).
  intros d' Hin. by apply elem_of_nil in Hin.
Defined.

Lemma FindPublicKeysForPath_nil_key_witness :
  policy.FindPublicKeysForPath fixture.W 2 (fixture.stateWith "targets-undeclared" ∅)
    "git:refs/heads/main" = Some (Ok [Some fixture.gpgKey; None])
  /\ policy.Verify fixture.W (fixture.stateWith "targets-undeclared" ∅) = Ok tt
  /\ None ∈ [Some fixture.gpgKey; None].
Proof.
  split; [vm_compute; reflexivity |].
  apply (FindPublicKeysForPath_nil_key fixture.W (fixture.stateWith "targets-undeclared" ∅)
           "git:refs/heads/main"
           (fixture.targets [fixture.gpgKey]
              [fixture.delegation "main" ["git:refs/heads/main"] ["gpg-key"; "lost-key"] false;
               fixture.allowRule])
           {| tuf.Keys := Some (list_to_map [("gpg-key", fixture.gpgKey)]);
              tuf.Roles := [fixture.delegation "main" ["git:refs/heads/main"]
                              ["gpg-key"; "lost-key"] false;
                            fixture.allowRule] |}
           (fixture.delegation "main" ["git:refs/heads/main"] ["gpg-key"; "lost-key"] false)
           fixture.allowRule [] "lost-key" 2);
    try reflexivity; try (vm_compute; reflexivity).
  right. left.
Defined.

Lemma FindPublicKeysForPath_diverges_witness :
  policy.Verify fixture.W fixture.stateWithLoop = Ok tt
  /\ forall fuel,
       policy.FindPublicKeysForPath fixture.W fuel fixture.stateWithLoop "git:refs/heads/main"
       = None.
Proof.
  split; [vm_compute; reflexivity |].
  apply (FindPublicKeysForPath_diverges fixture.W fixture.stateWithLoop "git:refs/heads/main"
           (fixture.targets [fixture.gpgKey]
              [fixture.delegation "loop" ["git:refs/heads/main"] ["gpg-key"] false;
               fixture.allowRule])
           {| tuf.Keys := Some (list_to_map [("gpg-key", fixture.gpgKey)]);
              tuf.Roles := [fixture.delegation "loop" ["git:refs/heads/main"] ["gpg-key"] false;
                            fixture.allowRule] |}
           (fixture.delegation "loop" ["git:refs/heads/main"] ["gpg-key"] false)
           fixture.allowRule []
           (fixture.targets [fixture.gpgKey]
              [fixture.delegation "loop" ["git:refs/heads/main"] ["gpg-key"] false;
               fixture.allowRule])
           {| tuf.Keys := Some (list_to_map [("gpg-key", fixture.gpgKey)]);
              tuf.Roles := [fixture.delegation "loop" ["git:refs/heads/main"] ["gpg-key"] false;
                            fixture.allowRule] |}
           (fixture.delegation "loop" ["git:refs/heads/main"] ["gpg-key"] false)
           fixture.allowRule []);
    try reflexivity; try (vm_compute; reflexivity).
  eauto.
Defined.

Lemma FindAuthorizedSigningKeyIDs_diverges_witness :
  policy.Verify fixture.W fixture.stateWithLoop = Ok tt
  /\ forall fuel,
       policy.FindAuthorizedSigningKeyIDs fixture.W fuel fixture.stateWithLoop "reviewers"
       = None.
Proof.
  split; [vm_compute; reflexivity |].
  set (loop := fixture.delegation "loop" ["git:refs/heads/main"] ["gpg-key"] false).
  set (doc := fixture.targets [fixture.gpgKey] [loop; fixture.allowRule]).
  set (ds := {| tuf.Keys := Some (list_to_map [("gpg-key", fixture.gpgKey)]);
                tuf.Roles := [loop; fixture.allowRule] |}).
  assert (Hdeclared : forall d, policy.declared fixture.W fixture.stateWithLoop d ->
            d = loop \/ d = fixture.allowRule).
  { intros d [(top & ds' & Htop & Hds' & Hin)|(name & env & m & ds' & Henv & Hdec & Hds' & Hin)].
    - assert (Htop' : policy.GetTargetsMetadata fixture.W fixture.stateWithLoop
                        policy.TargetsRoleName = Ok doc) by (vm_compute; reflexivity).
      assert (top = doc) as -> by congruence.
      assert (Hds : tuf.Delegations_ doc = Some ds) by reflexivity.
      assert (ds' = ds) as -> by congruence.
      apply elem_of_cons in Hin as [->|Hin]; [by left |].
      apply list_elem_of_singleton in Hin as ->. by right.
    - change (policy.DelegationEnvelopes fixture.stateWithLoop)
        with ({[ "loop" := fixture.signed "loop-children" [fixture.gpgKey] ]}
              : gmap string sslibdsse.Envelope) in Henv.
      apply lookup_singleton_Some in Henv as [<- <-].
      assert (Hdec' : policy.decodeEnvelope fixture.W
                        (Some (fixture.signed "loop-children" [fixture.gpgKey])) = Ok doc)
        by (vm_compute; reflexivity).
      assert (m = doc) as -> by congruence.
      assert (Hds : tuf.Delegations_ doc = Some ds) by reflexivity.
      assert (ds' = ds) as -> by congruence.
      apply elem_of_cons in Hin as [->|Hin]; [by left |].
      apply list_elem_of_singleton in Hin as ->. by right. }
  apply (FindAuthorizedSigningKeyIDs_diverges fixture.W fixture.stateWithLoop "reviewers"
           doc ds {[ "loop" := doc ]} loop (fixture.signed "loop-children" [fixture.gpgKey])
           doc ds loop);
    try reflexivity; try discriminate; try (vm_compute; reflexivity).
  - left.
  - left.
  - intros d Hd. by destruct (Hdeclared d Hd) as [->| ->].
  - intros name' m' Hm'. apply lookup_singleton_Some in Hm' as [_ <-]. eauto.
Defined.

(** ** What a verified state holds *)

Section verified.
Context (X : Ext).




Lemma verifiersOf_lookup {A : Type} (f : A -> option tuf.Key) (ids : list A)
    (verifiers : list sslibdsse.Verifier) :
  policy.verifiersOf (f <$> ids) = Ok verifiers ->
  forall v, v ∈ verifiers -> exists id, id ∈ ids /\ f id = Some (sslibdsse.VerifierKey v).
Proof.
  unfold policy.verifiersOf. revert verifiers.
  induction ids as [|id ids IH]; intros verifiers H v Hv; simpl in H.
  - inversion H; subst. by apply elem_of_nil in Hv.
  - apply bind_Ok in H as (v0 & Hv0 & H). apply bind_Ok in H as (vs & Hvs & H).
    inversion H; subst. apply elem_of_cons in Hv as [->|Hv].
    + exists id. split; [left |]. unfold signerverifier.NewSignerVerifierFromTUFKey in Hv0.
      destruct (f id) as [k|]; [| discriminate].
      destruct (tuf.KeyType k); inversion Hv0; done.
    + destruct (IH vs Hvs v Hv) as (id' & Hin & Hf). exists id'. split; [by right | done].
Qed.

(** X8. In a state that passes [Verify], the targets envelope carries
    valid signatures by at least as many keys with distinct key ids as the
    threshold of the targets role of the root metadata, which is at least
    one; each of these keys is a key of the root metadata listed under a
    key id of the targets role. *)
Theorem Verify_targets_signed_by_root_declared_keys (s : policy.State)
    (targetsEnvelope : sslibdsse.Envelope) :
  policy.Verify X s = Ok tt ->
  policy.TargetsEnvelope s = Some targetsEnvelope ->
  exists rootMetadata targetsRole signers,
    policy.GetRootMetadata X s = Ok rootMetadata
    /\ tuf.RootRoles rootMetadata !! policy.TargetsRoleName = Some targetsRole
    /\ 1 <= tuf.Threshold targetsRole <= Z.of_nat (length signers)
    /\ NoDup (tuf.KeyID <$> signers)
    /\ forall key, key ∈ signers ->
         (exists keyID, keyID ∈ tuf.KeyIDs targetsRole
                        /\ tuf.RootKeys rootMetadata !! keyID = Some key)
         /\ exists sig, sig ∈ sslibdsse.Signatures targetsEnvelope
              /\ verifySignature X key targetsEnvelope (sslibdsse.Sig sig) = true.
Proof.
  intros H Ht. unfold policy.Verify in H.
  apply bind_Ok in H as (top & Htop & _).
  unfold policy.verifyTop in Htop. rewrite Ht in Htop.
  apply bind_Ok in Htop as (rootVerifiers & _ & Htop).
  apply bind_Ok in Htop as ([] & _ & Htop).
  apply bind_Ok in Htop as (rm & Hrm & Htop).
  apply bind_Ok in Htop as (verifiers & Hverifiers & Htop).
  apply bind_Ok in Htop as ([] & Henv & _).
  unfold dsse.VerifyEnvelope in Henv.
  set (role := default tuf.zeroRole (tuf.RootRoles rm !! policy.TargetsRoleName)) in *.
  destruct (Z.ltb_spec (tuf.Threshold role) 1) as [|Hpos]; [discriminate |].
  match type of Henv with
  | (if ?c then _ else _) = _ => destruct c eqn:Hcount; [discriminate |]
  end.
  apply Z.ltb_ge in Hcount.
  destruct (tuf.RootRoles rm !! policy.TargetsRoleName) as [targetsRole|] eqn:Hrole.
  2: { unfold role in Hpos. simpl in Hpos. lia. }
  simpl in role. subst role.
  destruct (acceptedKeyIDs_invariant X targetsEnvelope verifiers) as [Hnd Hall].
  rewrite Forall_forall in Hall.
  (* one signing key for each accepted key id *)
  assert (Hsigners : forall ids, NoDup ids ->
            (forall id, id ∈ ids -> dsse.backed X targetsEnvelope verifiers id) ->
            exists signers, tuf.KeyID <$> signers = ids
              /\ forall key, key ∈ signers ->
                   (exists keyID, keyID ∈ tuf.KeyIDs targetsRole
                                  /\ tuf.RootKeys rm !! keyID = Some key)
                   /\ exists sig, sig ∈ sslibdsse.Signatures targetsEnvelope
                        /\ verifySignature X key targetsEnvelope (sslibdsse.Sig sig) = true).
  { induction ids as [|id ids IH]; intros Hnd' Hb.
    - exists []. split; [done |]. intros key Hkey. by apply elem_of_nil in Hkey.
    - apply NoDup_cons in Hnd' as [_ Hnd'].
      destruct IH as (signers & Hids & Hkeys); [done | intros id' Hin; apply Hb; by right |].
      destruct (Hb id) as (v & sig & Hv & Hid & Hsig & Hok); [left |].
      destruct (verifiersOf_lookup _ _ _ Hverifiers v Hv) as (keyID & HkeyID & Hkey).
      exists (sslibdsse.VerifierKey v :: signers). split; [by rewrite fmap_cons, Hid, Hids |].
      intros key Hin. apply elem_of_cons in Hin as [->|Hin]; [| by apply Hkeys].
      split; eauto. }
  destruct (Hsigners _ Hnd Hall) as (signers & Hids & Hkeys).
  exists rm, targetsRole, signers. split; [done |]. split; [done |].
  split; [| split; [by rewrite Hids | done]].
  split; [done |]. rewrite <- (length_fmap tuf.KeyID), Hids. done.
Qed.



End verified.

(** X10. A state without delegation envelopes is verified without its
    targets metadata being decoded or validated: the verdict of [Verify]
    is the same under any two decoders and validators of targets
    metadata. *)
Theorem Verify_without_delegations_skips_targets_metadata (X X' : Ext) (s : policy.State) :
  decodeRootMetadata X = decodeRootMetadata X' ->
  verifySignature X = verifySignature X' ->
  policy.DelegationEnvelopes s = ∅ ->
  policy.Verify X s = policy.Verify X' s.
Proof.
  intros Hroot Hsig Hempty.
  unfold policy.Verify, policy.verifyTop, policy.GetRootMetadata, dsse.VerifyEnvelope,
    dsse.acceptedKeyIDs, dsse.acceptSignature.
  rewrite Hempty, map_size_empty, Hroot, Hsig. simpl.
  destruct (policy.verifiersOf (Some <$> policy.RootPublicKeys s)) as [vs|e|]; [| done | done].
  simpl. destruct (policy.RootEnvelope s) as [env|]; [| done].
  destruct (Z.of_nat (length vs) <? 1); [done |].
  match goal with |- context [if ?c then _ else _] => destruct c end; [done |].
  simpl. destruct (policy.TargetsEnvelope s) as [t|]; [| done].
  destruct (decodeRootMetadata X' (sslibdsse.Payload env)) as [msg|rm]; [done |]. simpl.
  destruct (policy.verifiersOf _) as [tvs|e|]; [| done | done]. simpl.
  destruct (_ <? 1); [done |].
  match goal with |- context [if ?c then _ else _] => destruct c end; done.
Qed.


Lemma Verify_targets_signed_by_root_declared_keys_witness :
  policy.Verify fixture.X fixture.stateWithPolicy = Ok tt
  /\ exists rootMetadata targetsRole signers,
       policy.GetRootMetadata fixture.X fixture.stateWithPolicy = Ok rootMetadata
       /\ tuf.RootRoles rootMetadata !! policy.TargetsRoleName = Some targetsRole
       /\ 1 <= tuf.Threshold targetsRole <= Z.of_nat (length signers)
       /\ NoDup (tuf.KeyID <$> signers)
       /\ forall key, key ∈ signers ->
            (exists keyID, keyID ∈ tuf.KeyIDs targetsRole
                           /\ tuf.RootKeys rootMetadata !! keyID = Some key)
            /\ exists sig,
                 sig ∈ sslibdsse.Signatures (fixture.signed "targets-main" [fixture.rootKey])
                 /\ verifySignature fixture.X key
                      (fixture.signed "targets-main" [fixture.rootKey]) (sslibdsse.Sig sig)
                    = true.
Proof.
  split; [vm_compute; reflexivity |].
  apply (Verify_targets_signed_by_root_declared_keys fixture.X fixture.stateWithPolicy
           (fixture.signed "targets-main" [fixture.rootKey]));
    [vm_compute; reflexivity | reflexivity].
Defined.


Lemma Verify_without_delegations_skips_targets_metadata_witness :
  policy.GetTargetsMetadata fixture.X fixture.stateWithUndecodableTargets
    policy.TargetsRoleName = Err (ErrExternal "illegal base64 data")
  /\ policy.Verify fixture.X fixture.stateWithUndecodableTargets = Ok tt
  /\ policy.Verify fixture.X fixture.stateWithUndecodableTargets
     = policy.Verify fixture.W fixture.stateWithUndecodableTargets.
Proof.
  split; [vm_compute; reflexivity |]. split; [vm_compute; reflexivity |].
  apply (Verify_without_delegations_skips_targets_metadata fixture.X fixture.W
           fixture.stateWithUndecodableTargets); reflexivity.
Defined.

Section keys.
Context (X : Ext).

Lemma default_keys_lookup (keys : option (gmap string tuf.Key)) (id : string) :
  default ∅ keys !! id = policy.keyOf keys id.
Proof. destruct keys; [done | apply lookup_empty]. Qed.

Lemma root_keys_fold (l : list tuf.Key) (acc : gmap string tuf.Key) :
  let result := fold_left (fun acc key => <[tuf.KeyID key := key]> acc) l acc in
  (forall id, is_Some (acc !! id) -> is_Some (result !! id))
  /\ (forall k, k ∈ l -> is_Some (result !! tuf.KeyID k))
  /\ (forall id k, result !! id = Some k -> acc !! id = Some k \/ (k ∈ l /\ tuf.KeyID k = id)).
Proof.
  revert acc. induction l as [|key l IH]; intros acc; simpl.
  - split; [done |]. split; [intros k Hk; by apply elem_of_nil in Hk | by left].
  - destruct (IH (<[tuf.KeyID key := key]> acc)) as (Hacc & Hl & Hfrom).
    split; [| split].
    + intros id Hid. apply Hacc. destruct (decide (tuf.KeyID key = id)) as [->|Hne].
      * rewrite lookup_insert_eq. eauto.
      * by rewrite lookup_insert_ne.
    + intros k Hk. apply elem_of_cons in Hk as [->|Hk]; [| by apply Hl].
      apply Hacc. rewrite lookup_insert_eq. eauto.
    + intros id k Hk. destruct (Hfrom id k Hk) as [Hins|[Hin Hid]].
      * destruct (decide (tuf.KeyID key = id)) as [<-|Hne].
        -- rewrite lookup_insert_eq in Hins. inversion Hins; subst. right. split; [left | done].
        -- rewrite lookup_insert_ne in Hins by done. by left.
      * right. split; [by right | done].
Qed.

(** The loop of [PublicKeys] over the delegation envelopes. *)
Lemma delegated_keys_fold s (l : list (string * sslibdsse.Envelope))
    (acc result : gmap string tuf.Key) :
  policy.foldEach (fun acc (role : string * sslibdsse.Envelope) =>
      delegatedMetadata ← policy.GetTargetsMetadata X s (fst role);
      match tuf.Delegations_ delegatedMetadata with
      | None => Panic
      | Some delegations => Ok (default ∅ (tuf.Keys delegations) ∪ acc)
      end) l acc = Ok result ->
  (forall id, is_Some (acc !! id) -> is_Some (result !! id))
  /\ (forall name env md dd id, (name, env) ∈ l ->
        policy.GetTargetsMetadata X s name = Ok md -> tuf.Delegations_ md = Some dd ->
        is_Some (policy.keyOf (tuf.Keys dd) id) -> is_Some (result !! id))
  /\ (forall id k, result !! id = Some k ->
        acc !! id = Some k
        \/ exists name env md dd, (name, env) ∈ l
             /\ policy.GetTargetsMetadata X s name = Ok md /\ tuf.Delegations_ md = Some dd
             /\ policy.keyOf (tuf.Keys dd) id = Some k).
Proof.
  revert acc. induction l as [|[name env] l IH]; intros acc H; simpl in H.
  - inversion H; subst. split; [done |]. split; [| by left].
    intros ? ? ? ? ? Hin. by apply elem_of_nil in Hin.
  - apply bind_Ok in H as (acc' & Hacc' & H).
    apply bind_Ok in Hacc' as (md & Hmd & Hacc'). simpl in Hmd.
    destruct (tuf.Delegations_ md) as [dd|] eqn:Hdd; [| discriminate].
    inversion Hacc'; subst acc'. destruct (IH _ H) as (Hkeep & Hl & Hfrom).
    split; [| split].
    + intros id Hid. apply Hkeep. destruct Hid as [k Hk].
      destruct (default ∅ (tuf.Keys dd) !! id) as [k'|] eqn:Hk'.
      * exists k'. by apply lookup_union_Some_l.
      * exists k. by rewrite lookup_union_r.
    + intros name' env' md' dd' id Hin Hmd' Hdd' [k Hk].
      apply elem_of_cons in Hin as [Heq|Hin]; [| by eapply Hl].
      inversion Heq; subst name' env'. assert (md' = md) as -> by congruence.
      assert (dd' = dd) as -> by congruence.
      apply Hkeep. exists k. apply lookup_union_Some_l. by rewrite default_keys_lookup.
    + intros id k Hk. destruct (Hfrom id k Hk) as [Hu|(name' & env' & md' & dd' & Hin & ?)].
      * apply lookup_union_Some_raw in Hu as [Hu|[_ Hu]]; [| by left].
        right. exists name, env, md, dd. rewrite default_keys_lookup in Hu.
        split; [left | done].
      * right. exists name', env', md', dd'. split; [by right | done].
Qed.

(** X11. The keys [PublicKeys] returns, for a state with a targets
    envelope, are the keys of the state and no others: every root public
    key, every key of the root metadata, of the top-level targets metadata
    and of the metadata of each delegation envelope has an entry under its
    key id, and every entry is a key of one of these under that key id. *)
Theorem PublicKeys_collects_declared_keys (s : policy.State)
    (allKeys : gmap string tuf.Key) :
  policy.PublicKeys X s = Ok (Some allKeys) ->
  exists rootMetadata targetsMetadata delegations,
    policy.GetRootMetadata X s = Ok rootMetadata
    /\ policy.GetTargetsMetadata X s policy.TargetsRoleName = Ok targetsMetadata
    /\ tuf.Delegations_ targetsMetadata = Some delegations
    /\ (forall key, key ∈ policy.RootPublicKeys s -> is_Some (allKeys !! tuf.KeyID key))
    /\ (forall id, is_Some (tuf.RootKeys rootMetadata !! id) -> is_Some (allKeys !! id))
    /\ (forall id, is_Some (policy.keyOf (tuf.Keys delegations) id) -> is_Some (allKeys !! id))
    /\ (forall name env md dd id,
          policy.DelegationEnvelopes s !! name = Some env ->
          policy.GetTargetsMetadata X s name = Ok md -> tuf.Delegations_ md = Some dd ->
          is_Some (policy.keyOf (tuf.Keys dd) id) -> is_Some (allKeys !! id))
    /\ (forall id key, allKeys !! id = Some key ->
          (key ∈ policy.RootPublicKeys s /\ tuf.KeyID key = id)
          \/ tuf.RootKeys rootMetadata !! id = Some key
          \/ policy.keyOf (tuf.Keys delegations) id = Some key
          \/ exists name env md dd,
               policy.DelegationEnvelopes s !! name = Some env
               /\ policy.GetTargetsMetadata X s name = Ok md
               /\ tuf.Delegations_ md = Some dd
               /\ policy.keyOf (tuf.Keys dd) id = Some key).
Proof.
  unfold policy.PublicKeys. intros H.
  apply bind_Ok in H as (rm & Hrm & H).
  destruct (policy.TargetsEnvelope s) as [t|]; [| discriminate].
  apply bind_Ok in H as (tm & Htm & H).
  destruct (tuf.Delegations_ tm) as [ds|] eqn:Hds; [| discriminate].
  apply bind_Ok in H as (result & Hfold & H). inversion H; subst result.
  exists rm, tm, ds. do 3 (split; [done |]).
  destruct (root_keys_fold (policy.RootPublicKeys s) ∅) as (_ & Hroot & Hrootfrom).
  set (rootKeys := fold_left (fun acc key => <[tuf.KeyID key := key]> acc)
                     (policy.RootPublicKeys s) ∅) in *.
  destruct (delegated_keys_fold _ _ _ _ Hfold) as (Hkeep & Hl & Hfrom).
  assert (Hunion : forall (m1 m2 : gmap string tuf.Key) id,
            is_Some (m1 !! id) \/ is_Some (m2 !! id) -> is_Some ((m1 ∪ m2) !! id)).
  { intros m1 m2 id [[k Hk]|[k Hk]].
    - exists k. by apply lookup_union_Some_l.
    - destruct (m1 !! id) as [k'|] eqn:Hk'.
      + exists k'. by apply lookup_union_Some_l.
      + exists k. by rewrite lookup_union_r. }
  split; [| split; [| split; [| split]]].
  - intros key Hkey. apply Hkeep, Hunion. right. apply Hunion. right. by apply Hroot.
  - intros id Hid. apply Hkeep, Hunion. right. apply Hunion. by left.
  - intros id Hid. apply Hkeep, Hunion. left. by rewrite default_keys_lookup.
  - intros name env md dd id Henv Hmd Hdd Hid. eapply Hl; try done.
    by apply elem_of_map_to_list.
  - intros id key Hkey.
    destruct (Hfrom id key Hkey) as [Hu|(name & env & md & dd & Hin & Hmd & Hdd & Hk)].
    + apply lookup_union_Some_raw in Hu as [Hu|[_ Hu]].
      { right. right. left. by rewrite default_keys_lookup in Hu. }
      apply lookup_union_Some_raw in Hu as [Hu|[_ Hu]]; [right; by left |].
      destruct (Hrootfrom id key Hu) as [Hempty|Hin]; [by rewrite lookup_empty in Hempty |].
      by left.
    + do 3 right. exists name, env, md, dd. split; [| done]. by apply elem_of_map_to_list.
Qed.

Lemma delegated_keys_fold_panics s (l : list (string * sslibdsse.Envelope))
    (acc : gmap string tuf.Key) :
  (forall name env, (name, env) ∈ l -> exists md, policy.GetTargetsMetadata X s name = Ok md) ->
  (exists name env md, (name, env) ∈ l /\ policy.GetTargetsMetadata X s name = Ok md
                       /\ tuf.Delegations_ md = None) ->
  policy.foldEach (fun acc (role : string * sslibdsse.Envelope) =>
      delegatedMetadata ← policy.GetTargetsMetadata X s (fst role);
      match tuf.Delegations_ delegatedMetadata with
      | None => Panic
      | Some delegations => Ok (default ∅ (tuf.Keys delegations) ∪ acc)
      end) l acc = Panic.
Proof.
  revert acc. induction l as [|[name env] l IH]; intros acc Hall (n & e & md & Hin & Hmd & Hnone).
  - by apply elem_of_nil in Hin.
  - simpl. destruct (Hall name env) as [md0 Hmd0]; [left |]. rewrite Hmd0. simpl.
    destruct (tuf.Delegations_ md0) as [dd|] eqn:Hdd; [| done]. simpl.
    apply IH; [intros n' e' Hin'; apply (Hall n' e'); by right |].
    apply elem_of_cons in Hin as [Heq|Hin]; [| eauto 6].
    inversion Heq; subst. congruence.
Qed.

(** X12. [Verify] lets the metadata of a delegation envelope be
    without delegations; [PublicKeys] does not: on a state whose
    envelopes all decode and in which a delegation envelope has such
    metadata, it dereferences the nil delegations. *)
Theorem PublicKeys_panics_on_metadata_without_delegations (s : policy.State)
    (rootMetadata : tuf.RootMetadata) (targetsMetadata : tuf.TargetsMetadata)
    (delegations : tuf.Delegations) (name : string) (env : sslibdsse.Envelope)
    (md : tuf.TargetsMetadata) :
  policy.GetRootMetadata X s = Ok rootMetadata ->
  policy.GetTargetsMetadata X s policy.TargetsRoleName = Ok targetsMetadata ->
  tuf.Delegations_ targetsMetadata = Some delegations ->
  (forall name' env', policy.DelegationEnvelopes s !! name' = Some env' ->
     exists md', policy.GetTargetsMetadata X s name' = Ok md') ->
  policy.DelegationEnvelopes s !! name = Some env ->
  policy.GetTargetsMetadata X s name = Ok md ->
  tuf.Delegations_ md = None ->
  policy.PublicKeys X s = Panic.
Proof.
  intros Hrm Htm Hds Hall Henv Hmd Hnone. unfold policy.PublicKeys. rewrite Hrm. simpl.
  destruct (policy.TargetsEnvelope s) as [t|] eqn:Ht.
  2: { unfold policy.GetTargetsMetadata in Htm. simpl in Htm. by rewrite Ht in Htm. }
  rewrite Htm. simpl. rewrite Hds.
  rewrite delegated_keys_fold_panics; [done | |].
  - intros name' env' Hin. apply (Hall name' env'). by apply elem_of_map_to_list.
  - exists name, env, md. split; [by apply elem_of_map_to_list | done].
Qed.

(** X13. [FindPublicKeysForPath] on a state that passes [Verify]
    panics when the first delegation of the top-level targets metadata
    matches the path, is followed by another, and has delegated metadata
    that is without delegations, or that has no delegation at all while
    the first delegation is not terminating. *)
Theorem FindPublicKeysForPath_panics_on_leaf_metadata (s : policy.State) (path : string)
    (top : tuf.TargetsMetadata) (delegations : tuf.Delegations)
    (d next : tuf.Delegation) (rest : list tuf.Delegation) (md : tuf.TargetsMetadata) :
  policy.Verify X s = Ok tt ->
  policy.GetTargetsMetadata X s policy.TargetsRoleName = Ok top ->
  tuf.Delegations_ top = Some delegations ->
  tuf.Roles delegations = d :: next :: rest ->
  policy.Matches X d path = true ->
  policy.HasTargetsRole s (tuf.Name d) = true ->
  policy.GetTargetsMetadata X s (tuf.Name d) = Ok md ->
  (tuf.Delegations_ md = None
   \/ exists dd, tuf.Delegations_ md = Some dd /\ tuf.Roles dd = []
                 /\ tuf.Terminating d = false /\ is_Some (tuf.Keys delegations)) ->
  forall fuel, (0 < fuel)%nat -> policy.FindPublicKeysForPath X fuel s path = Some Panic.
Proof.
  intros Hverify Htop Hds Hroles Hmatch Hhas Hmd Hleaf fuel Hfuel.
  unfold policy.FindPublicKeysForPath. rewrite Hverify, Htop, Hds, Hroles.
  destruct fuel as [|fuel]; [lia |]. simpl. rewrite Hmatch, Hhas, Hmd.
  destruct Hleaf as [->|(dd & -> & Hnil & Hterm & [k Hk])]; [done |].
  rewrite Hk. unfold policy.assignAll.
  destruct (tuf.Keys dd) as [src|]; [destruct (size src =? 0)%nat |]; by rewrite Hterm, Hnil.
Qed.

End keys.

Lemma PublicKeys_collects_declared_keys_witness :
  policy.PublicKeys fixture.X fixture.stateWithDelegatedMain
  = Ok (Some (list_to_map [("root-key", fixture.rootKey); ("gpg-key", fixture.gpgKey);
                           ("dev-key", fixture.devKey)]))
  /\ forall key, key ∈ policy.RootPublicKeys fixture.stateWithDelegatedMain ->
       is_Some ((list_to_map [("root-key", fixture.rootKey); ("gpg-key", fixture.gpgKey);
                              ("dev-key", fixture.devKey)] : gmap string tuf.Key)
                !! tuf.KeyID key).
Proof.
  assert (H : policy.PublicKeys fixture.X fixture.stateWithDelegatedMain
              = Ok (Some (list_to_map [("root-key", fixture.rootKey);
                                       ("gpg-key", fixture.gpgKey);
                                       ("dev-key", fixture.devKey)])))
    by (vm_compute; reflexivity).
  split; [exact H |].
  destruct (PublicKeys_collects_declared_keys fixture.X _ _ H)
    as (rm & tm & ds & _ & _ & _ & Hroot & _). exact Hroot.
Defined.

Lemma PublicKeys_panics_on_metadata_without_delegations_witness :
  policy.Verify fixture.X fixture.stateWithLeaf = Ok tt
  /\ policy.PublicKeys fixture.X fixture.stateWithLeaf = Panic.
Proof.
  split; [vm_compute; reflexivity |].
  apply (PublicKeys_panics_on_metadata_without_delegations fixture.X fixture.stateWithLeaf
           fixture.rootMetadata
           (fixture.targets [fixture.gpgKey]
              [fixture.delegation "main" ["git:refs/heads/main"] ["gpg-key"] false;
               fixture.allowRule])
           (fixture.delegationsOf "targets-main") "main"
           (fixture.signed "leaf" [fixture.gpgKey])
           {| tuf.Version := 1; tuf.Expires := ""; tuf.Delegations_ := None |});
    try reflexivity; try (vm_compute; reflexivity).
  intros name' env' Henv.
  change (policy.DelegationEnvelopes fixture.stateWithLeaf)
    with ({[ "main" := fixture.signed "leaf" [fixture.gpgKey] ]}
          : gmap string sslibdsse.Envelope) in Henv.
  apply lookup_singleton_Some in Henv as [<- <-]. eexists. vm_compute. reflexivity.
Defined.

Lemma FindPublicKeysForPath_panics_on_leaf_metadata_witness :
  policy.Verify fixture.X fixture.stateWithLeaf = Ok tt
  /\ policy.FindPublicKeysForPath fixture.X 1 fixture.stateWithLeaf "git:refs/heads/main"
     = Some Panic.
Proof.
  split; [vm_compute; reflexivity |].
  apply (FindPublicKeysForPath_panics_on_leaf_metadata fixture.X fixture.stateWithLeaf
           "git:refs/heads/main"
           (fixture.targets [fixture.gpgKey]
              [fixture.delegation "main" ["git:refs/heads/main"] ["gpg-key"] false;
               fixture.allowRule])
           (fixture.delegationsOf "targets-main")
           (fixture.delegation "main" ["git:refs/heads/main"] ["gpg-key"] false)
           fixture.allowRule []
           {| tuf.Version := 1; tuf.Expires := ""; tuf.Delegations_ := None |});
    try reflexivity; try (vm_compute; reflexivity).
  by left.
Defined.

(** ** Commits on a reference *)

Section commits.
Context (X : Ext).

Lemma Commit_run_objects treeHash refName message sign repo r repo' :
  gitinterface.Commit X treeHash refName message sign repo = (r, repo') ->
  git.blobs repo' = git.blobs repo /\ git.trees repo' = git.trees repo.
Proof.
  rewrite Commit_run. destruct (gitConfig X) as [msg|config].
  { intros H. by inversion H. }
  cbv zeta.
  set (cur := default plumbing.ZeroHash (git.refs repo !! refName)).
  set (repo1 := match git.refs repo !! refName with
                | Some _ => repo
                | None => git.SetReference repo refName plumbing.ZeroHash
                end).
  assert (Hcur : git.refs repo1 !! refName = Some cur).
  { unfold repo1, cur. destruct (git.refs repo !! refName) eqn:E; simpl; [done |].
    apply lookup_insert_eq. }
  assert (Hobjects : git.blobs repo1 = git.blobs repo /\ git.trees repo1 = git.trees repo).
  { unfold repo1. by destruct (git.refs repo !! refName). }
  destruct sign.
  - destruct (signGitObject X _) as [msg|signature].
    + intros H. by inversion H.
    + rewrite (ApplyCommit_run _ _ _ _ _ Hcur). intros H. by inversion H.
  - rewrite (ApplyCommit_run _ _ _ _ _ Hcur). intros H. by inversion H.
Qed.

(** X14. When [Commit] succeeds, the target reference holds the id it
    returns, and the commit stored under that id has the tree and the
    message given, the same author and committer, and for its parents
    the commit the reference held before, or none if the reference was
    not set or held the zero hash; no other reference and no blob or tree
    is touched. *)
Theorem Commit_records_commit (treeHash : plumbing.Hash) (targetRef : string)
    (message : object.Message) (sign : bool) (repo repo' : git.Repository)
    (h : plumbing.Hash) :
  gitinterface.Commit X treeHash targetRef message sign repo = (Ok h, repo') ->
  git.Reference repo' targetRef = Ok h
  /\ (exists commit,
        git.CommitObject repo' h = Ok (object.withHash h commit)
        /\ h = hashCommit X commit
        /\ object.TreeHash commit = treeHash
        /\ object.Message_ commit = message
        /\ object.Author commit = object.Committer commit
        /\ object.When (object.Author commit) = clockNow X
        /\ object.ParentHashes commit
           = match git.refs repo !! targetRef with
             | Some old => if plumbing.IsZero old then [] else [old]
             | None => []
             end
        /\ (sign = false -> object.PGPSignature commit = ""))
  /\ (forall name, name <> targetRef -> git.refs repo' !! name = git.refs repo !! name)
  /\ git.blobs repo' = git.blobs repo /\ git.trees repo' = git.trees repo.
Proof.
  intros H. pose proof (Commit_run_objects _ _ _ _ _ _ _ H) as Hobjects.
  split; [| split; [| split; [| exact Hobjects]]].
  - apply Commit_Ok in H as (commit & _ & _ & _ & Hrefs & _).
    unfold git.Reference. by rewrite Hrefs, lookup_insert_eq.
  - rewrite Commit_run in H. destruct (gitConfig X) as [msg|config]; [discriminate |].
    cbv zeta in H.
    set (cur := default plumbing.ZeroHash (git.refs repo !! targetRef)) in *.
    set (repo1 := match git.refs repo !! targetRef with
                  | Some _ => repo
                  | None => git.SetReference repo targetRef plumbing.ZeroHash
                  end) in *.
    assert (Hcur : git.refs repo1 !! targetRef = Some cur).
    { unfold repo1, cur. destruct (git.refs repo !! targetRef) eqn:E; simpl; [done |].
      apply lookup_insert_eq. }
    assert (Hparents : (if plumbing.IsZero cur then [] else [cur])
                       = match git.refs repo !! targetRef with
                         | Some old => if plumbing.IsZero old then [] else [old]
                         | None => []
                         end).
    { unfold cur. by destruct (git.refs repo !! targetRef). }
    destruct sign.
    + destruct (signGitObject X _) as [msg|signature]; [discriminate |].
      rewrite (ApplyCommit_run _ _ _ _ _ Hcur) in H. inversion H; subst. eexists.
      split; [unfold git.CommitObject; simpl; by rewrite lookup_insert_eq |].
      simpl. by rewrite Hparents.
    + rewrite (ApplyCommit_run _ _ _ _ _ Hcur) in H. inversion H; subst. eexists.
      split; [unfold git.CommitObject; simpl; by rewrite lookup_insert_eq |].
      simpl. by rewrite Hparents.
  - intros name Hne. apply Commit_Ok in H as (commit & _ & _ & _ & Hrefs & _).
    by rewrite Hrefs, lookup_insert_ne.
Qed.

(** X15. Two commits in a row on one reference form a chain: the
    second commit has the first for its only parent, provided the id of
    the first is not the zero hash. *)
Theorem Commit_chains (treeHash treeHash' : plumbing.Hash) (targetRef : string)
    (message message' : object.Message) (sign sign' : bool)
    (repo repo1 repo2 : git.Repository) (h1 h2 : plumbing.Hash) :
  gitinterface.Commit X treeHash targetRef message sign repo = (Ok h1, repo1) ->
  gitinterface.Commit X treeHash' targetRef message' sign' repo1 = (Ok h2, repo2) ->
  h1 <> plumbing.ZeroHash ->
  exists commit2,
    git.CommitObject repo2 h2 = Ok commit2
    /\ object.ParentHashes commit2 = [h1]
    /\ object.TreeHash commit2 = treeHash'
    /\ git.Reference repo2 targetRef = Ok h2.
Proof.
  intros H1 H2 Hnz.
  apply Commit_Ok in H1 as (commit1 & _ & _ & _ & Hrefs1 & _).
  rewrite Commit_run in H2. destruct (gitConfig X) as [msg|config]; [discriminate |].
  cbv zeta in H2.
  assert (Hcur : git.refs repo1 !! targetRef = Some h1) by (by rewrite Hrefs1, lookup_insert_eq).
  rewrite Hcur in H2. simpl in H2.
  assert (Hzero : plumbing.IsZero h1 = false).
  { unfold plumbing.IsZero. by apply N.eqb_neq. }
  destruct sign'.
  - destruct (signGitObject X _) as [msg|signature]; [discriminate |].
    rewrite (ApplyCommit_run _ _ _ _ _ Hcur) in H2. inversion H2; subst. eexists.
    split; [unfold git.CommitObject; simpl; by rewrite lookup_insert_eq |].
    simpl. rewrite Hzero. split; [done |]. split; [done |].
    unfold git.Reference. simpl. by rewrite lookup_insert_eq.
  - rewrite (ApplyCommit_run _ _ _ _ _ Hcur) in H2. inversion H2; subst. eexists.
    split; [unfold git.CommitObject; simpl; by rewrite lookup_insert_eq |].
    simpl. rewrite Hzero. split; [done |]. split; [done |].
    unfold git.Reference. simpl. by rewrite lookup_insert_eq.
Qed.


(** X17. [ApplyCommit] stores the commit before it moves the
    reference: when the reference no longer holds the hash that was read,
    the answer is [ErrReferenceHasChanged], the reference is left as it
    is, and the commit object is in the store all the same. *)
Theorem ApplyCommit_on_moved_reference (commit : object.Commit) (refName : string)
    (curRefHash now : plumbing.Hash) (repo : git.Repository) :
  git.refs repo !! refName = Some now -> now <> curRefHash ->
  exists repo',
    gitinterface.ApplyCommit X commit refName curRefHash repo
    = (Err ErrReferenceHasChanged, repo')
    /\ git.refs repo' = git.refs repo
    /\ git.CommitObject repo' (hashCommit X commit)
       = Ok (object.withHash (hashCommit X commit) commit).
Proof.
  intros Hnow Hne. eexists.
  unfold gitinterface.ApplyCommit, gitinterface.WriteCommit.
  unfold mbind, M_bind, git.bind, git.CheckAndSetReference. cbn [git.refs fst snd].
  rewrite Hnow, (proj2 (N.eqb_neq _ _) Hne).
  split; [reflexivity |]. split; [reflexivity |].
  unfold git.CommitObject. simpl. by rewrite lookup_insert_eq.
Qed.

End commits.

Section signatures.
Context (verifyPGP : object.Commit -> string -> option string)
        (encodeWithoutSignature : object.Commit -> string + string)
        (verifyGitsignSignature : tuf.Key -> string -> string -> option string).

(** X18. [VerifyCommitSignature] returns nil only for a key of the
    GPG type that [commit.Verify] accepts for the commit, or for a key of
    the Sigstore type for which the commit can be encoded without its
    signature and [verifyGitsignSignature] accepts the encoded commit and
    the commit's signature; for a key of any other type the answer is
    [ErrUnknownSigningMethod], whatever the commit. *)
Theorem VerifyCommitSignature_accepts (commit : object.Commit) (key : tuf.Key) :
  (gitinterface.VerifyCommitSignature verifyPGP encodeWithoutSignature verifyGitsignSignature
     commit (Some key) = Ok None
   <-> (tuf.KeyType key = tuf.PGP /\ verifyPGP commit (tuf.KeyVal key) = None)
       \/ (tuf.KeyType key = tuf.Fulcio
           /\ exists commitContents,
                encodeWithoutSignature commit = inr commitContents
                /\ verifyGitsignSignature key commitContents (object.PGPSignature commit)
                   = None))
  /\ (tuf.KeyType key <> tuf.PGP -> tuf.KeyType key <> tuf.Fulcio ->
      gitinterface.VerifyCommitSignature verifyPGP encodeWithoutSignature
        verifyGitsignSignature commit (Some key)
      = Ok (Some gitinterface.ErrUnknownSigningMethod)).
Proof.
  unfold gitinterface.VerifyCommitSignature, gitinterface.getCommitBytesWithoutSignature.
  split.
  - split.
    + intros H. destruct (tuf.KeyType key); try discriminate.
      * left. split; [done |]. by destruct (verifyPGP commit (tuf.KeyVal key)).
      * right. split; [done |].
        destruct (encodeWithoutSignature commit) as [err|contents]; [discriminate |].
        exists contents. split; [done |].
        by destruct (verifyGitsignSignature key contents (object.PGPSignature commit)).
    + intros [[-> ->]|[-> (contents & -> & ->)]]; done.
  - intros Hpgp Hfulcio. by destruct (tuf.KeyType key).
Qed.

End signatures.

Lemma Commit_records_commit_witness :
  git.Reference (fixture.run (fixture.commitOn fixture.main "Initial commit") fixture.repo1)
    fixture.main = Ok fixture.commit1
  /\ exists commit,
       git.CommitObject (fixture.run (fixture.commitOn fixture.main "Initial commit")
                           fixture.repo1) fixture.commit1
       = Ok (object.withHash fixture.commit1 commit)
       /\ object.Message_ commit = object.Text "Initial commit"
       /\ object.ParentHashes commit = [].
Proof.
  destruct (Commit_records_commit fixture.X (gitinterface.EmptyTree fixture.X) fixture.main
              (object.Text "Initial commit") false fixture.repo1
              (fixture.run (fixture.commitOn fixture.main "Initial commit") fixture.repo1)
              fixture.commit1)
    as (Href & (commit & Hobject & _ & _ & Hmessage & _ & _ & Hparents & _) & _);
    [vm_compute; reflexivity |].
  split; [exact Href |]. exists commit. split; [exact Hobject |]. split; [exact Hmessage |].
  rewrite Hparents. vm_compute. reflexivity.
Defined.

Lemma Commit_chains_witness :
  exists commit2,
    git.CommitObject
      (fixture.run (fixture.commitOn fixture.main "Second commit")
         (fixture.run (fixture.commitOn fixture.main "Initial commit") fixture.repo1))
      (fixture.idOf (fixture.commitOn fixture.main "Second commit")
         (fixture.run (fixture.commitOn fixture.main "Initial commit") fixture.repo1))
    = Ok commit2
    /\ object.ParentHashes commit2 = [fixture.commit1].
Proof.
  destruct (Commit_chains fixture.X (gitinterface.EmptyTree fixture.X)
              (gitinterface.EmptyTree fixture.X) fixture.main
              (object.Text "Initial commit") (object.Text "Second commit") false false
              fixture.repo1
              (fixture.run (fixture.commitOn fixture.main "Initial commit") fixture.repo1)
              (fixture.run (fixture.commitOn fixture.main "Second commit")
                 (fixture.run (fixture.commitOn fixture.main "Initial commit") fixture.repo1))
              fixture.commit1
              (fixture.idOf (fixture.commitOn fixture.main "Second commit")
                 (fixture.run (fixture.commitOn fixture.main "Initial commit") fixture.repo1)))
    as (commit2 & Hobject & Hparents & _);
    [vm_compute; reflexivity | vm_compute; reflexivity | vm_compute; discriminate |].
  eauto.
Defined.


Lemma ApplyCommit_on_moved_reference_witness :
  exists repo',
    gitinterface.ApplyCommit fixture.X
      (gitinterface.CreateCommitObject ("Jane Doe", "jane.doe@example.com")
         (gitinterface.EmptyTree fixture.X) plumbing.ZeroHash (object.Text "Late") 0)
      fixture.main plumbing.ZeroHash
      (fixture.run (fixture.commitOn fixture.main "Initial commit") fixture.repo1)
    = (Err ErrReferenceHasChanged, repo')
    /\ git.refs repo'
       = git.refs (fixture.run (fixture.commitOn fixture.main "Initial commit") fixture.repo1).
Proof.
  destruct (ApplyCommit_on_moved_reference fixture.X
              (gitinterface.CreateCommitObject ("Jane Doe", "jane.doe@example.com")
                 (gitinterface.EmptyTree fixture.X) plumbing.ZeroHash (object.Text "Late") 0)
              fixture.main plumbing.ZeroHash fixture.commit1
              (fixture.run (fixture.commitOn fixture.main "Initial commit") fixture.repo1))
    as (repo' & Hrun & Hrefs & _); [vm_compute; reflexivity | vm_compute; discriminate |].
  eauto.
Defined.

Lemma VerifyCommitSignature_accepts_witness :
  gitinterface.VerifyCommitSignature (fun _ _ => None) (fun _ => inr "commit")
    (fun _ _ _ => None) (fixture.commitObject fixture.repo1 fixture.commit1)
    (Some fixture.devKey)
  = Ok (Some gitinterface.ErrUnknownSigningMethod).
Proof.
  apply (VerifyCommitSignature_accepts (fun _ _ => None) (fun _ => inr "commit")
           (fun _ _ _ => None) (fixture.commitObject fixture.repo1 fixture.commit1)
           fixture.devKey); discriminate.
Defined.

(** ** Loading and committing *)

Section loaders.
Context (X : Ext).

Lemma LoadStateForEntry_Ok repo e s :
  policy.LoadStateForEntry X repo e = Ok s ->
  policy.Verify X s = Ok tt
  /\ exists entry, e = rsl.Reference entry /\ rsl.RefName entry = policy.PolicyRef.
Proof.
  unfold policy.LoadStateForEntry. intros H.
  destruct e as [entry|a]; [| discriminate].
  destruct (String.eqb_spec (rsl.RefName entry) policy.PolicyRef) as [Href|]; [| discriminate].
  simpl in H.
  apply bind_Ok in H as (policyCommit & _ & H).
  apply bind_Ok in H as (tree & _ & H).
  destruct (2 <? length tree)%nat; [discriminate |].
  apply bind_Ok in H as (ids & _ & H).
  apply bind_Ok in H as (metadataTree & _ & H).
  apply bind_Ok in H as (keysTree & _ & H).
  apply bind_Ok in H as (state & _ & H).
  apply bind_Ok in H as (state' & _ & H).
  apply bind_Ok in H as ([] & Hverify & H). inversion H; subst. eauto.
Qed.

(** X19. Every state that a loader returns has passed [Verify]:
    [LoadStateForEntry], which answers only for a reference entry of the
    policy reference, [LoadState], [LoadCurrentState], and
    [GetStateForCommit] when it returns a state. *)
Theorem loaded_states_pass_Verify (repo : git.Repository) (s : policy.State) :
  (forall e, policy.LoadStateForEntry X repo e = Ok s ->
     policy.Verify X s = Ok tt
     /\ exists entry, e = rsl.Reference entry /\ rsl.RefName entry = policy.PolicyRef)
  /\ (forall rslEntryID, policy.LoadState X repo rslEntryID = Ok s -> policy.Verify X s = Ok tt)
  /\ (policy.LoadCurrentState X repo = Ok s -> policy.Verify X s = Ok tt)
  /\ (forall commit, policy.GetStateForCommit X repo commit = Ok (Some s) ->
        policy.Verify X s = Ok tt).
Proof.
  split; [| split; [| split]].
  - intros e. apply LoadStateForEntry_Ok.
  - intros id H. unfold policy.LoadState in H. apply bind_Ok in H as (e & _ & H).
    by apply LoadStateForEntry_Ok in H as [H _].
  - intros H. unfold policy.LoadCurrentState in H. apply bind_Ok in H as (e & _ & H).
    by apply LoadStateForEntry_Ok in H as [H _].
  - intros commit H. unfold policy.GetStateForCommit in H.
    destruct (rsl.GetFirstReferenceEntryForCommit X repo commit) as [first|e|];
      [| destruct e; discriminate | discriminate].
    apply bind_Ok in H as (entry & _ & H). apply bind_Ok in H as (s' & Hload & H).
    inversion H; subst. by apply LoadStateForEntry_Ok in Hload as [Hload _].
Qed.

(** X20. [Commit] of a state that does not pass [Verify] returns what
    [Verify] returned and leaves the repository as it was; and whatever
    the outcome of [Commit], a reference other than the policy reference
    and the reference state log holds what it held. *)
Theorem Commit_writes_verified_states_only (s : policy.State) (commitMessage : string)
    (sign : bool) (repo repo' : git.Repository) (r : result unit) :
  policy.Commit X s commitMessage sign repo = (r, repo') ->
  (forall e, policy.Verify X s = Err e -> r = Err e /\ repo' = repo)
  /\ (policy.Verify X s = Panic -> r = Panic /\ repo' = repo)
  /\ (repo' <> repo -> policy.Verify X s = Ok tt)
  /\ (forall name, name <> policy.PolicyRef -> name <> rsl.Ref ->
        git.refs repo' !! name = git.refs repo !! name).
Proof.
  intros H.
  assert (Hverify : forall r0, policy.Verify X s = r0 -> (forall u, r0 <> Ok u) ->
            r = (r0 ≫= fun _ => Ok tt) /\ repo' = repo).
  { intros r0 Hr0 Hno. unfold policy.Commit in H.
    unfold mbind at 1, M_bind at 1, git.bind at 1, git.pure at 1 in H. rewrite Hr0 in H.
    destruct r0 as [u|e|]; [by destruct (Hno u) | |]; by inversion H. }
  split; [| split; [| split]].
  - intros e He. by apply (Hverify (Err e)).
  - intros Hp. by apply (Hverify Panic).
  - intros Hne. destruct (policy.Verify X s) as [[]|e|] eqn:Hv; [done | |].
    + destruct (Hverify (Err e) eq_refl) as [_ ?]; [done | by destruct Hne].
    + destruct (Hverify Panic eq_refl) as [_ ?]; [done | by destruct Hne].
  - intros name Hnp Hnr.
    pose proof H as H0. unfold policy.Commit in H0.
    apply M_bind_inv in H0 as [(u & repo0 & Hv & H0)|[(e & Hv & _)|[Hv _]]];
      unfold git.pure in Hv; injection Hv as Hv <-; [| done | done].
    pose proof (keepsRefs_writePolicyTree X s repo) as Hk.
    apply M_bind_inv in H0 as [(treeID & repo1 & Htree & H0)|[(e & Htree & _)|[Htree _]]];
      rewrite Htree in Hk; simpl in Hk; [| by rewrite Hk | by rewrite Hk].
    apply M_bind_inv in H0 as [(original & repo1' & Href & H0)|[(e & Href & _)|[Href _]]];
      unfold git.read in Href; injection Href as Href <-; [| by rewrite Hk | by rewrite Hk].
    assert (Hcommit_other : forall treeHash refName message repoA rA repoB,
              gitinterface.Commit X treeHash refName message sign repoA = (rA, repoB) ->
              name <> refName -> git.refs repoB !! name = git.refs repoA !! name).
    { intros treeHash refName message repoA rA repoB Hc Hne.
      destruct rA as [h|e|].
      - apply Commit_Ok in Hc as (commit & _ & _ & _ & Hrefs & _).
        by rewrite Hrefs, lookup_insert_ne.
      - apply Commit_failed in Hc as [_ Hother]; [| intros h; congruence].
        apply Hother. by left.
      - apply Commit_failed in Hc as [_ Hother]; [| intros h; congruence].
        apply Hother. by left. }
    apply M_bind_inv in H0 as [(commitID & repo2 & Hcommit & H0)|[(e & Hcommit & _)|[Hcommit _]]].
    2, 3: by rewrite (Hcommit_other _ _ _ _ _ _ Hcommit Hnp), Hk.
    unfold policy.recordOrReset in H0.
    destruct (rsl.CommitReferenceEntry X policy.PolicyRef commitID sign repo2)
      as [[[]|e|] repo3] eqn:Hentry.
    + inversion H0; subst repo3.
      apply CommitReferenceEntry_inv in Hentry as [(h & _ & Hentry)|(e & He & _)];
        [| discriminate].
      by rewrite (Hcommit_other _ _ _ _ _ _ Hentry Hnr),
                 (Hcommit_other _ _ _ _ _ _ Hcommit Hnp), Hk.
    + unfold gitinterface.ResetDueToError in H0. inversion H0; subst repo'.
      apply CommitReferenceEntry_inv in Hentry as [(h & Hh & _)|(e' & _ & Hentry)];
        [discriminate |].
      simpl. rewrite lookup_insert_ne by done.
      by rewrite (Hcommit_other _ _ _ _ _ _ Hentry Hnr),
                 (Hcommit_other _ _ _ _ _ _ Hcommit Hnp), Hk.
    + apply CommitReferenceEntry_inv in Hentry as [(h & Hh & _)|(e & He & _)]; discriminate.
Qed.

End loaders.

(** ** A committed state is the state loaded *)

Lemma String_length_append (a b : string) :
  String.length (a +:+ b) = (String.length a + String.length b)%nat.
Proof. induction a as [|c a IH]; simpl; [done | by rewrite IH]. Qed.

Lemma substring_all (b : string) : String.substring 0 (String.length b) b = b.
Proof. induction b as [|c b IH]; simpl; [done | by rewrite IH]. Qed.

Lemma substring_append_r (a b : string) :
  String.substring (String.length a) (String.length b) (a +:+ b) = b.
Proof. induction a as [|c a IH]; simpl; [apply substring_all | exact IH]. Qed.

Lemma substring_append_l (a b : string) :
  String.substring 0 (String.length a) (a +:+ b) = a.
Proof.
  induction a as [|c a IH]; simpl; [by destruct b | by rewrite IH].
Qed.

Lemma TrimSuffix_append (a suffix : string) : policy.TrimSuffix (a +:+ suffix) suffix = a.
Proof.
  unfold policy.TrimSuffix. rewrite String_length_append.
  replace (String.length a + String.length suffix - String.length suffix)%nat
    with (String.length a) by lia.
  rewrite substring_append_r, String.eqb_refl, substring_append_l.
  by rewrite (proj2 (Nat.leb_le _ _)) by lia.
Qed.

Lemma append_inj_r (a b suffix : string) : a +:+ suffix = b +:+ suffix -> a = b.
Proof.
  intros H. rewrite <- (TrimSuffix_append a suffix), <- (TrimSuffix_append b suffix).
  by rewrite H.
Qed.

Lemma eqb_append_r (a b suffix : string) :
  String.eqb (a +:+ suffix) (b +:+ suffix) = String.eqb a b.
Proof.
  destruct (String.eqb_spec a b) as [->|Hne]; [apply String.eqb_refl |].
  apply String.eqb_neq. intros H. by apply append_inj_r in H.
Qed.

Section roundtrip.
Context (X : Ext).
Hypothesis hashBlob_inj : forall a b, hashBlob X a = hashBlob X b -> a = b.
Hypothesis hashTree_inj : forall a b, hashTree X a = hashTree X b -> a = b.

(** What a step that writes blobs keeps: the references, the trees,
    the commits, and every blob that is stored under its id. *)
Local Abbreviation kept repo repo' :=
  (git.refs repo' = git.refs repo /\ git.trees repo' = git.trees repo
   /\ git.commits repo' = git.commits repo
   /\ forall c, git.blobs repo !! hashBlob X c = Some c ->
                git.blobs repo' !! hashBlob X c = Some c).

Lemma WriteBlob_Ok contents repo :
  exists repo', gitinterface.WriteBlob X contents repo = (Ok (hashBlob X contents), repo')
    /\ kept repo repo'
    /\ git.blobs repo' !! hashBlob X contents = Some contents.
Proof.
  eexists. split; [reflexivity |]. simpl. split; [| apply lookup_insert_eq].
  do 3 (split; [done |]). intros c Hc.
  destruct (decide (hashBlob X contents = hashBlob X c)) as [Heq|Hne].
  - rewrite Heq, lookup_insert_eq. f_equal. by apply hashBlob_inj.
  - by rewrite lookup_insert_ne.
Qed.

Lemma forEachM_Ok {A B : Type} (f : A -> git.M B) (R : A -> B -> git.Repository -> Prop) :
  (forall a b repo repo', f a repo = (Ok b, repo') -> kept repo repo' /\ R a b repo') ->
  (forall a b repo repo', R a b repo -> kept repo repo' -> R a b repo') ->
  forall l bs repo repo', git.forEachM f l repo = (Ok bs, repo') ->
    kept repo repo' /\ Forall2 (fun a b => R a b repo') l bs.
Proof.
  intros Hf Hmono. induction l as [|a l IH]; intros bs repo repo' H; simpl in H.
  - inversion H; subst. split; [done | constructor].
  - unfold git.bind in H. destruct (f a repo) as [[b|e|] repo1] eqn:Hfa; try discriminate.
    destruct (git.forEachM f l repo1) as [[bs'|e|] repo2] eqn:Hl; try discriminate.
    inversion H; subst.
    destruct (Hf _ _ _ _ Hfa) as [(Hr1 & Ht1 & Hc1 & Hb1) HR].
    destruct (IH _ _ _ Hl) as [(Hr2 & Ht2 & Hc2 & Hb2) Hall].
    split.
    + split; [congruence |]. split; [congruence |]. split; [congruence |].
      intros c Hc. by apply Hb2, Hb1.
    + constructor; [| done]. by apply (Hmono _ _ repo1).
Qed.

Lemma writeMetadataEntries_Ok files entries repo repo' :
  git.forEachM (policy.writeMetadataEntry X) files repo = (Ok entries, repo') ->
  kept repo repo'
  /\ Forall2 (fun (file : string * option sslibdsse.Envelope) entry =>
       plumbing.Name entry = fst file +:+ ".json"
       /\ exists c, match snd file with
                    | None => Ok "null"
                    | Some env => lift (marshalEnvelope X env)
                    end = Ok c
            /\ plumbing.EntryHash entry = hashBlob X c
            /\ git.blobs repo' !! hashBlob X c = Some c) files entries.
Proof.
  apply (forEachM_Ok (policy.writeMetadataEntry X)
           (fun file entry repo' =>
              plumbing.Name entry = fst file +:+ ".json"
              /\ exists c, match snd file with
                           | None => Ok "null"
                           | Some env => lift (marshalEnvelope X env)
                           end = Ok c
                   /\ plumbing.EntryHash entry = hashBlob X c
                   /\ git.blobs repo' !! hashBlob X c = Some c)).
  - intros file entry repo0 repo1 H. unfold policy.writeMetadataEntry in H.
    unfold mbind, M_bind, git.bind, git.pure, git.ret in H.
    destruct (match snd file with
              | None => Ok "null"
              | Some env => lift (marshalEnvelope X env)
              end) as [c|e|] eqn:Hc; try discriminate.
    destruct (WriteBlob_Ok c repo0) as (repo2 & Hw & Hkept & Hstored).
    rewrite Hw in H. inversion H; subst. split; [done |]. split; [done |]. eauto.
  - intros file entry repo0 repo1 (Hname & c & Hc & Hhash & Hstored) (_ & _ & _ & Hb).
    split; [done |]. exists c. auto.
Qed.

Lemma writeKeyEntries_Ok keys entries repo repo' :
  git.forEachM (policy.writeKeyEntry X) keys repo = (Ok entries, repo') ->
  kept repo repo'
  /\ Forall2 (fun (key : tuf.Key) entry =>
       exists c, marshalKey X key = inr c
            /\ plumbing.EntryHash entry = hashBlob X c
            /\ git.blobs repo' !! hashBlob X c = Some c) keys entries.
Proof.
  apply (forEachM_Ok (policy.writeKeyEntry X)
           (fun key entry repo' =>
              exists c, marshalKey X key = inr c
                   /\ plumbing.EntryHash entry = hashBlob X c
                   /\ git.blobs repo' !! hashBlob X c = Some c)).
  - intros key entry repo0 repo1 H. unfold policy.writeKeyEntry in H.
    unfold mbind, M_bind, git.bind, git.pure, git.ret in H.
    destruct (marshalKey X key) as [msg|c] eqn:Hc; [discriminate |].
    cbv beta iota delta [lift] in H.
    destruct (WriteBlob_Ok c repo0) as (repo2 & Hw & Hkept & Hstored).
    rewrite Hw in H. inversion H; subst. split; [done |]. eauto.
  - intros key entry repo0 repo1 (c & Hc & Hhash & Hstored) (_ & _ & _ & Hb).
    exists c. auto.
Qed.

Lemma WriteTree_lookup entries entries' (trees : gmap plumbing.Hash (list plumbing.TreeEntry)) :
  trees !! hashTree X entries = Some entries ->
  <[hashTree X entries' := entries']> trees !! hashTree X entries = Some entries.
Proof.
  intros H. destruct (decide (hashTree X entries' = hashTree X entries)) as [Heq|Hne].
  - rewrite Heq, lookup_insert_eq. f_equal. by apply hashTree_inj.
  - by rewrite lookup_insert_ne.
Qed.

(** The objects of a policy commit, as [writePolicyTree] leaves them. *)
Lemma writePolicyTree_Ok s treeID repo repo' :
  policy.writePolicyTree X s repo = (Ok treeID, repo') ->
  exists metadataEntries keysEntries,
    git.refs repo' = git.refs repo /\ git.commits repo' = git.commits repo
    /\ git.trees repo' !! treeID
       = Some [ {| plumbing.Name := policy.metadataTreeEntryName; plumbing.Mode := plumbing.Dir;
                   plumbing.EntryHash := hashTree X metadataEntries |};
                {| plumbing.Name := policy.rootPublicKeysTreeEntryName;
                   plumbing.Mode := plumbing.Dir;
                   plumbing.EntryHash := hashTree X keysEntries |} ]
    /\ git.trees repo' !! hashTree X metadataEntries = Some metadataEntries
    /\ git.trees repo' !! hashTree X keysEntries = Some keysEntries
    /\ Forall2 (fun (file : string * option sslibdsse.Envelope) entry =>
         plumbing.Name entry = fst file +:+ ".json"
         /\ exists c, match snd file with
                      | None => Ok "null"
                      | Some env => lift (marshalEnvelope X env)
                      end = Ok c
              /\ plumbing.EntryHash entry = hashBlob X c
              /\ git.blobs repo' !! hashBlob X c = Some c)
         (map_to_list (policy.metadataFiles s)) metadataEntries
    /\ Forall2 (fun (key : tuf.Key) entry =>
         exists c, marshalKey X key = inr c
              /\ plumbing.EntryHash entry = hashBlob X c
              /\ git.blobs repo' !! hashBlob X c = Some c)
         (policy.RootPublicKeys s) keysEntries.
Proof.
  unfold policy.writePolicyTree. intros H.
  apply M_bind_inv in H as [(metadataEntries & repo1 & Hm & H)|[(e & _ & ?)|[_ ?]]];
    [| discriminate | discriminate].
  apply writeMetadataEntries_Ok in Hm as [(Hr1 & Ht1 & Hc1 & Hb1) Hmeta].
  apply M_bind_inv in H as [(metadataTreeID & repo2 & Hmt & H)|[(e & _ & ?)|[_ ?]]];
    [| discriminate | discriminate].
  unfold gitinterface.WriteTree in Hmt. inversion Hmt; subst metadataTreeID repo2. clear Hmt.
  apply M_bind_inv in H as [(keysEntries & repo3 & Hk & H)|[(e & _ & ?)|[_ ?]]];
    [| discriminate | discriminate].
  apply writeKeyEntries_Ok in Hk as [(Hr3 & Ht3 & Hc3 & Hb3) Hkeys].
  apply M_bind_inv in H as [(keysTreeID & repo4 & Hkt & H)|[(e & _ & ?)|[_ ?]]];
    [| discriminate | discriminate].
  unfold gitinterface.WriteTree in Hkt. inversion Hkt; subst keysTreeID repo4. clear Hkt.
  unfold gitinterface.WriteTree in H. inversion H; subst treeID repo'. clear H.
  simpl in *.
  exists metadataEntries, keysEntries.
  split; [congruence |]. split; [congruence |].
  split; [apply lookup_insert_eq |].
  split; [apply WriteTree_lookup, WriteTree_lookup; rewrite Ht3; apply lookup_insert_eq |].
  split; [apply WriteTree_lookup, lookup_insert_eq |].
  split; [| done].
  eapply Forall2_impl; [exact Hmeta |]. simpl.
  intros file entry (Hname & c & Hc & Hhash & Hstored). split; [done |]. exists c. auto.
Qed.


Lemma loadMetadataEntry_run repo st entry n env c :
  plumbing.Name entry = n +:+ ".json" ->
  plumbing.EntryHash entry = hashBlob X c ->
  git.blobs repo !! hashBlob X c = Some c ->
  unmarshalEnvelope X c = inr env ->
  policy.loadMetadataEntry X repo st entry
  = Ok (if String.eqb n policy.RootRoleName then
          {| policy.RootEnvelope := Some env;
             policy.TargetsEnvelope := policy.TargetsEnvelope st;
             policy.DelegationEnvelopes := policy.DelegationEnvelopes st;
             policy.RootPublicKeys := policy.RootPublicKeys st |}
        else if String.eqb n policy.TargetsRoleName then
          {| policy.RootEnvelope := policy.RootEnvelope st;
             policy.TargetsEnvelope := Some env;
             policy.DelegationEnvelopes := policy.DelegationEnvelopes st;
             policy.RootPublicKeys := policy.RootPublicKeys st |}
        else
          {| policy.RootEnvelope := policy.RootEnvelope st;
             policy.TargetsEnvelope := policy.TargetsEnvelope st;
             policy.DelegationEnvelopes := <[n := env]> (policy.DelegationEnvelopes st);
             policy.RootPublicKeys := policy.RootPublicKeys st |}).
Proof.
  intros Hname Hhash Hstored Hdecode. unfold policy.loadMetadataEntry, gitinterface.ReadBlob.
  rewrite Hhash, Hstored, bind_Ok_l, Hdecode. unfold lift.
  rewrite bind_Ok_l, Hname, !eqb_append_r, TrimSuffix_append.
  by destruct (String.eqb n policy.RootRoleName), (String.eqb n policy.TargetsRoleName).
Qed.

Lemma files_without_root {A : Type} (m : gmap string (option A)) (v : option A) :
  omap id (delete policy.RootRoleName (delete policy.TargetsRoleName
             (<[policy.RootRoleName := v]> m)))
  = omap id (delete policy.RootRoleName (delete policy.TargetsRoleName m)).
Proof.
  f_equal. apply map_eq. intros i.
  destruct (decide (i = policy.RootRoleName)) as [->|Hr]; [by rewrite !lookup_delete_eq |].
  rewrite !(lookup_delete_ne _ policy.RootRoleName) by done.
  destruct (decide (i = policy.TargetsRoleName)) as [->|Ht]; [by rewrite !lookup_delete_eq |].
  rewrite !(lookup_delete_ne _ policy.TargetsRoleName) by done.
  by rewrite lookup_insert_ne.
Qed.

Lemma files_without_targets {A : Type} (m : gmap string (option A)) (v : option A) :
  omap id (delete policy.RootRoleName (delete policy.TargetsRoleName
             (<[policy.TargetsRoleName := v]> m)))
  = omap id (delete policy.RootRoleName (delete policy.TargetsRoleName m)).
Proof.
  f_equal. apply map_eq. intros i.
  destruct (decide (i = policy.RootRoleName)) as [->|Hr]; [by rewrite !lookup_delete_eq |].
  rewrite !(lookup_delete_ne _ policy.RootRoleName) by done.
  destruct (decide (i = policy.TargetsRoleName)) as [->|Ht]; [by rewrite !lookup_delete_eq |].
  rewrite !(lookup_delete_ne _ policy.TargetsRoleName) by done.
  by rewrite lookup_insert_ne.
Qed.

Lemma files_with_delegation {A : Type} (m : gmap string (option A)) (d : gmap string A)
    (n : string) (a : A) :
  n <> policy.RootRoleName -> n <> policy.TargetsRoleName -> m !! n = None ->
  omap id (delete policy.RootRoleName (delete policy.TargetsRoleName (<[n := Some a]> m))) ∪ d
  = omap id (delete policy.RootRoleName (delete policy.TargetsRoleName m)) ∪ <[n := a]> d.
Proof.
  intros Hr Ht Hn. apply map_eq. intros i. rewrite !lookup_union, !lookup_omap.
  destruct (decide (i = policy.RootRoleName)) as [->|Hir].
  { rewrite !lookup_delete_eq. simpl. by rewrite lookup_insert_ne. }
  rewrite !(lookup_delete_ne _ policy.RootRoleName) by done.
  destruct (decide (i = policy.TargetsRoleName)) as [->|Hit].
  { rewrite !lookup_delete_eq. simpl. by rewrite lookup_insert_ne. }
  rewrite !(lookup_delete_ne _ policy.TargetsRoleName) by done.
  destruct (decide (i = n)) as [->|Hin].
  - rewrite !lookup_insert_eq, Hn. simpl. by destruct (d !! n).
  - by rewrite !lookup_insert_ne.
Qed.

(** The loop of [LoadStateForEntry] over the entries written for the
    metadata files. *)
Lemma load_metadata repo (files : list (string * option sslibdsse.Envelope)) entries st0 :
  Forall2 (fun (file : string * option sslibdsse.Envelope) entry =>
     plumbing.Name entry = fst file +:+ ".json"
     /\ exists c, match snd file with
                  | None => Ok "null"
                  | Some env => lift (marshalEnvelope X env)
                  end = Ok c
          /\ plumbing.EntryHash entry = hashBlob X c
          /\ git.blobs repo !! hashBlob X c = Some c) files entries ->
  NoDup files.*1 ->
  (forall n o, (n, o) ∈ files ->
     exists env, o = Some env
       /\ forall c, marshalEnvelope X env = inr c -> unmarshalEnvelope X c = inr env) ->
  exists st1,
    policy.foldEach (policy.loadMetadataEntry X repo) entries st0 = Ok st1
    /\ policy.RootPublicKeys st1 = policy.RootPublicKeys st0
    /\ policy.RootEnvelope st1
       = match (list_to_map files : gmap string (option sslibdsse.Envelope))
               !! policy.RootRoleName with
         | Some o => o
         | None => policy.RootEnvelope st0
         end
    /\ policy.TargetsEnvelope st1
       = match (list_to_map files : gmap string (option sslibdsse.Envelope))
               !! policy.TargetsRoleName with
         | Some o => o
         | None => policy.TargetsEnvelope st0
         end
    /\ policy.DelegationEnvelopes st1
       = omap id (delete policy.RootRoleName (delete policy.TargetsRoleName
                    (list_to_map files : gmap string (option sslibdsse.Envelope))))
         ∪ policy.DelegationEnvelopes st0.
Proof.
  intros Hall. revert st0.
  induction Hall as [|[n o] entry files entries Hrel Hall IH]; intros st0 Hnd Hcodec.
  - exists st0. split; [done |]. split; [done |].
    rewrite list_to_map_nil, !lookup_empty, !delete_empty, omap_empty.
    split; [done |]. split; [done |]. by rewrite (left_id_L ∅ (∪)).
  - destruct Hrel as (Hname & c & Hc & Hhash & Hstored). simpl in Hname, Hc.
    destruct (Hcodec n o) as (env & -> & Hround); [left |].
    assert (Hmarshal : marshalEnvelope X env = inr c).
    { destruct (marshalEnvelope X env); simpl in Hc; by inversion Hc. }
    rewrite fmap_cons in Hnd. apply NoDup_cons in Hnd as [Hfresh Hnd]. simpl in Hfresh.
    assert (Hn : (list_to_map files : gmap string (option sslibdsse.Envelope)) !! n = None)
      by (by apply not_elem_of_list_to_map_1).
    rewrite list_to_map_cons. cbn [policy.foldEach].
    rewrite (loadMetadataEntry_run repo st0 entry n env c Hname Hhash Hstored
               (Hround c Hmarshal)), bind_Ok_l.
    destruct (String.eqb_spec n policy.RootRoleName) as [->|Hr];
      [| destruct (String.eqb_spec n policy.TargetsRoleName) as [->|Ht]].
    + edestruct IH as (st1 & Hfold & Hkeys & Hroot & Htargets & Hdelegations);
        [exact Hnd | intros n' o' Hin; apply (Hcodec n' o'); by right |].
      exists st1. split; [exact Hfold |]. split; [exact Hkeys |].
      rewrite Hroot, Htargets, Hdelegations, Hn. simpl.
      rewrite lookup_insert_eq, lookup_insert_ne by done.
      by rewrite files_without_root.
    + edestruct IH as (st1 & Hfold & Hkeys & Hroot & Htargets & Hdelegations);
        [exact Hnd | intros n' o' Hin; apply (Hcodec n' o'); by right |].
      exists st1. split; [exact Hfold |]. split; [exact Hkeys |].
      rewrite Hroot, Htargets, Hdelegations, Hn. simpl.
      rewrite lookup_insert_eq, lookup_insert_ne by done.
      by rewrite files_without_targets.
    + edestruct IH as (st1 & Hfold & Hkeys & Hroot & Htargets & Hdelegations);
        [exact Hnd | intros n' o' Hin; apply (Hcodec n' o'); by right |].
      exists st1. split; [exact Hfold |]. split; [exact Hkeys |].
      rewrite Hroot, Htargets, Hdelegations. simpl.
      rewrite !lookup_insert_ne by done.
      by rewrite files_with_delegation.
Qed.

Lemma loadKeyEntry_run repo st entry key c :
  plumbing.EntryHash entry = hashBlob X c ->
  git.blobs repo !! hashBlob X c = Some c ->
  loadKeyFromBytes X c = inr key ->
  policy.loadKeyEntry X repo st entry
  = Ok {| policy.RootEnvelope := policy.RootEnvelope st;
          policy.TargetsEnvelope := policy.TargetsEnvelope st;
          policy.DelegationEnvelopes := policy.DelegationEnvelopes st;
          policy.RootPublicKeys := policy.RootPublicKeys st ++ [key] |}.
Proof.
  intros Hhash Hstored Hdecode. unfold policy.loadKeyEntry, gitinterface.ReadBlob.
  rewrite Hhash, Hstored, bind_Ok_l, Hdecode. unfold lift. by rewrite bind_Ok_l.
Qed.

(** The loop of [LoadStateForEntry] over the entries written for the
    root public keys. *)
Lemma load_keys repo (keys : list tuf.Key) entries st0 :
  Forall2 (fun (key : tuf.Key) entry =>
     exists c, marshalKey X key = inr c
          /\ plumbing.EntryHash entry = hashBlob X c
          /\ git.blobs repo !! hashBlob X c = Some c) keys entries ->
  (forall key c, key ∈ keys -> marshalKey X key = inr c -> loadKeyFromBytes X c = inr key) ->
  policy.foldEach (policy.loadKeyEntry X repo) entries st0
  = Ok {| policy.RootEnvelope := policy.RootEnvelope st0;
          policy.TargetsEnvelope := policy.TargetsEnvelope st0;
          policy.DelegationEnvelopes := policy.DelegationEnvelopes st0;
          policy.RootPublicKeys := policy.RootPublicKeys st0 ++ keys |}.
Proof.
  intros Hall. revert st0.
  induction Hall as [|key entry keys entries (c & Hc & Hhash & Hstored) Hall IH];
    intros st0 Hcodec.
  - simpl. rewrite app_nil_r. by destruct st0.
  - cbn [policy.foldEach].
    rewrite (loadKeyEntry_run repo st0 entry key c Hhash Hstored)
      by (apply Hcodec; [left | done]).
    rewrite bind_Ok_l, IH by (intros k c' Hin; apply (Hcodec k c'); by right).
    cbn [policy.RootEnvelope policy.TargetsEnvelope policy.DelegationEnvelopes
         policy.RootPublicKeys].
    by rewrite <- app_assoc.
Qed.

(** The files of the metadata tree of a state in which no delegation
    envelope is named as the root or the targets role. *)
Lemma metadataFiles_lookup s :
  policy.DelegationEnvelopes s !! policy.RootRoleName = None ->
  policy.DelegationEnvelopes s !! policy.TargetsRoleName = None ->
  policy.metadataFiles s !! policy.RootRoleName = Some (policy.RootEnvelope s)
  /\ match policy.metadataFiles s !! policy.TargetsRoleName with
     | Some o => o
     | None => None
     end = policy.TargetsEnvelope s
  /\ omap id (delete policy.RootRoleName (delete policy.TargetsRoleName
                (policy.metadataFiles s)))
     = policy.DelegationEnvelopes s
  /\ forall n o, policy.metadataFiles s !! n = Some o ->
       o = policy.RootEnvelope s \/ o = policy.TargetsEnvelope s /\ is_Some o
       \/ exists env, o = Some env /\ policy.DelegationEnvelopes s !! n = Some env.
Proof.
  intros Hr Ht. unfold policy.metadataFiles.
  set (metadata := match policy.TargetsEnvelope s with
                   | Some t => <[policy.TargetsRoleName := Some t]>
                                 (<[policy.RootRoleName := policy.RootEnvelope s]> ∅)
                   | None => <[policy.RootRoleName := policy.RootEnvelope s]> ∅
                   end).
  assert (Hmr : metadata !! policy.RootRoleName = Some (policy.RootEnvelope s)).
  { unfold metadata. destruct (policy.TargetsEnvelope s).
    - rewrite lookup_insert_ne by done. apply lookup_insert_eq.
    - apply lookup_insert_eq. }
  assert (Hmt : metadata !! policy.TargetsRoleName
                = (fun t => Some t) <$> policy.TargetsEnvelope s).
  { unfold metadata. destruct (policy.TargetsEnvelope s); simpl.
    - apply lookup_insert_eq.
    - rewrite lookup_insert_ne by done. apply lookup_empty. }
  assert (Hmo : forall i, i <> policy.RootRoleName -> i <> policy.TargetsRoleName ->
            metadata !! i = None).
  { intros i Hir Hit. unfold metadata. destruct (policy.TargetsEnvelope s).
    - rewrite !lookup_insert_ne by done. apply lookup_empty.
    - rewrite lookup_insert_ne by done. apply lookup_empty. }
  split; [| split; [| split]].
  - rewrite lookup_union_r; [done |]. by rewrite lookup_fmap, Hr.
  - rewrite lookup_union_r by (by rewrite lookup_fmap, Ht). rewrite Hmt.
    by destruct (policy.TargetsEnvelope s).
  - apply map_eq. intros i. rewrite lookup_omap.
    destruct (decide (i = policy.RootRoleName)) as [->|Hir];
      [by rewrite lookup_delete_eq, Hr |].
    rewrite lookup_delete_ne by done.
    destruct (decide (i = policy.TargetsRoleName)) as [->|Hit];
      [by rewrite lookup_delete_eq, Ht |].
    rewrite lookup_delete_ne by done.
    rewrite lookup_union, lookup_fmap, (Hmo i) by done.
    by destruct (policy.DelegationEnvelopes s !! i).
  - intros n o Ho. apply lookup_union_Some_raw in Ho as [Ho|[_ Ho]].
    + rewrite lookup_fmap in Ho.
      destruct (policy.DelegationEnvelopes s !! n) as [env|] eqn:Henv; [| discriminate].
      inversion Ho. right. right. eauto.
    + destruct (decide (n = policy.RootRoleName)) as [->|Hir].
      { rewrite Hmr in Ho. inversion Ho. by left. }
      destruct (decide (n = policy.TargetsRoleName)) as [->|Hit].
      { rewrite Hmt in Ho. destruct (policy.TargetsEnvelope s); inversion Ho.
        right. left. eauto. }
      by rewrite Hmo in Ho.
Qed.


Hypothesis hashCommit_inj : forall a b,
  hashCommit X a = hashCommit X b ->
  object.withHash plumbing.ZeroHash a = object.withHash plumbing.ZeroHash b.

Lemma Commit_Ok_parents treeHash refName message sign repo h repo' :
  gitinterface.Commit X treeHash refName message sign repo = (Ok h, repo') ->
  exists commit,
    h = hashCommit X commit
    /\ object.Message_ commit = message
    /\ object.TreeHash commit = treeHash
    /\ object.ParentHashes commit
       = match git.refs repo !! refName with
         | Some old => if plumbing.IsZero old then [] else [old]
         | None => []
         end
    /\ git.refs repo' = <[refName := h]> (git.refs repo)
    /\ git.commits repo' = <[h := commit]> (git.commits repo).
Proof.
  intros H. pose proof (Commit_Ok _ _ _ _ _ _ _ _ H) as (commit0 & _ & _ & _ & Hrefs & _).
  rewrite Commit_run in H. destruct (gitConfig X) as [msg|config]; [discriminate |].
  cbv zeta in H.
  set (cur := default plumbing.ZeroHash (git.refs repo !! refName)) in *.
  set (repo1 := match git.refs repo !! refName with
                | Some _ => repo
                | None => git.SetReference repo refName plumbing.ZeroHash
                end) in *.
  assert (Hcur : git.refs repo1 !! refName = Some cur).
  { unfold repo1, cur. destruct (git.refs repo !! refName) eqn:E; simpl; [done |].
    apply lookup_insert_eq. }
  assert (Hparents : (if plumbing.IsZero cur then [] else [cur])
                     = match git.refs repo !! refName with
                       | Some old => if plumbing.IsZero old then [] else [old]
                       | None => []
                       end).
  { unfold cur. by destruct (git.refs repo !! refName). }
  assert (Hcommits : git.commits repo1 = git.commits repo).
  { unfold repo1. by destruct (git.refs repo !! refName). }
  destruct sign.
  - destruct (signGitObject X _) as [msg|signature]; [discriminate |].
    rewrite (ApplyCommit_run _ _ _ _ _ Hcur) in H. inversion H; subst h repo'. eexists.
    split; [reflexivity |]. simpl. rewrite Hparents, Hcommits. by rewrite <- Hrefs.
  - rewrite (ApplyCommit_run _ _ _ _ _ Hcur) in H. inversion H; subst h repo'. eexists.
    split; [reflexivity |]. simpl. rewrite Hparents, Hcommits. by rewrite <- Hrefs.
Qed.

Lemma Commit_Ok_verified s commitMessage sign repo repo' :
  policy.Commit X s commitMessage sign repo = (Ok tt, repo') -> policy.Verify X s = Ok tt.
Proof.
  unfold policy.Commit. intros H.
  apply M_bind_inv in H as [(u & repo0 & Hv & _)|[(e & _ & ?)|[_ ?]]];
    [| discriminate | discriminate].
  unfold git.pure in Hv. destruct u. by inversion Hv.
Qed.

(** The state of a policy commit whose objects are those that
    [writePolicyTree] leaves. *)
Lemma LoadStateForEntry_of_committed s repo entryID commitID policyCommit
    metadataEntries keysEntries :
  policy.Verify X s = Ok tt ->
  policy.DelegationEnvelopes s !! policy.RootRoleName = None ->
  policy.DelegationEnvelopes s !! policy.TargetsRoleName = None ->
  (forall env c,
     policy.RootEnvelope s = Some env \/ policy.TargetsEnvelope s = Some env
     \/ (exists n, policy.DelegationEnvelopes s !! n = Some env) ->
     marshalEnvelope X env = inr c -> unmarshalEnvelope X c = inr env) ->
  (forall key c, key ∈ policy.RootPublicKeys s ->
     marshalKey X key = inr c -> loadKeyFromBytes X c = inr key) ->
  git.commits repo !! commitID = Some policyCommit ->
  git.trees repo !! object.TreeHash policyCommit
  = Some [ {| plumbing.Name := policy.metadataTreeEntryName; plumbing.Mode := plumbing.Dir;
              plumbing.EntryHash := hashTree X metadataEntries |};
           {| plumbing.Name := policy.rootPublicKeysTreeEntryName;
              plumbing.Mode := plumbing.Dir;
              plumbing.EntryHash := hashTree X keysEntries |} ] ->
  git.trees repo !! hashTree X metadataEntries = Some metadataEntries ->
  git.trees repo !! hashTree X keysEntries = Some keysEntries ->
  Forall2 (fun (file : string * option sslibdsse.Envelope) entry =>
     plumbing.Name entry = fst file +:+ ".json"
     /\ exists c, match snd file with
                  | None => Ok "null"
                  | Some env => lift (marshalEnvelope X env)
                  end = Ok c
          /\ plumbing.EntryHash entry = hashBlob X c
          /\ git.blobs repo !! hashBlob X c = Some c)
     (map_to_list (policy.metadataFiles s)) metadataEntries ->
  Forall2 (fun (key : tuf.Key) entry =>
     exists c, marshalKey X key = inr c
          /\ plumbing.EntryHash entry = hashBlob X c
          /\ git.blobs repo !! hashBlob X c = Some c)
     (policy.RootPublicKeys s) keysEntries ->
  policy.LoadStateForEntry X repo
    (rsl.Reference {| rsl.ID := entryID; rsl.RefName := policy.PolicyRef;
                      rsl.TargetID := commitID |}) = Ok s.
Proof.
  intros Hverify Hnr Hnt Hcodec Hkeycodec Hcommit Htree Hmtree Hktree Hmeta Hkeys.
  destruct (metadataFiles_lookup s Hnr Hnt) as (Hroot & Htargets & Hdelegations & Hfiles).
  assert (Hrootenv : exists env, policy.RootEnvelope s = Some env).
  { apply Verify_Ok_root in Hverify as (verifiers & _ & Henv).
    destruct (policy.RootEnvelope s); [eauto | discriminate]. }
  edestruct (load_metadata repo (map_to_list (policy.metadataFiles s)) metadataEntries
               policy.emptyState Hmeta)
    as (st1 & Hfold & Hk1 & Hr1 & Ht1 & Hd1).
  { apply NoDup_fst_map_to_list. }
  { intros n o Hin. apply elem_of_map_to_list in Hin.
    destruct (Hfiles n o Hin) as [->|[[-> [env Henv]]|(env & -> & Henv)]].
    - destruct Hrootenv as [env Henv]. exists env. split; [done |].
      intros c. apply Hcodec. by left.
    - exists env. split; [done |]. intros c. apply Hcodec. right. by left.
    - exists env. split; [done |]. intros c. apply Hcodec. right. right. eauto. }
  rewrite list_to_map_to_list in Hr1, Ht1, Hd1.
  rewrite Hroot in Hr1. cbv beta iota in Hr1.
  change (policy.TargetsEnvelope policy.emptyState) with (@None sslibdsse.Envelope) in Ht1.
  rewrite Htargets in Ht1.
  change (policy.DelegationEnvelopes policy.emptyState)
    with (∅ : gmap string sslibdsse.Envelope) in Hd1.
  rewrite Hdelegations, (right_id_L ∅ (∪)) in Hd1.
  change (policy.RootPublicKeys policy.emptyState) with (@nil tuf.Key) in Hk1.
  pose proof (load_keys repo _ _ st1 Hkeys Hkeycodec) as Hfoldkeys.
  rewrite Hr1, Ht1, Hd1, Hk1 in Hfoldkeys. simpl in Hfoldkeys.
  unfold policy.LoadStateForEntry. cbn [rsl.RefName rsl.TargetID].
  rewrite String.eqb_refl. cbn [negb].
  assert (Hlookup : forall h t, git.trees repo !! h = Some t -> git.TreeObject repo h = Ok t).
  { intros h t Ht. unfold git.TreeObject. by rewrite Ht. }
  unfold git.CommitObject. rewrite Hcommit, bind_Ok_l.
  cbn [object.withHash object.TreeHash].
  rewrite (Hlookup _ _ Htree), bind_Ok_l.
  cbn [length Nat.ltb Nat.leb policy.rootTreeIDs plumbing.Name plumbing.EntryHash].
  change (String.eqb policy.metadataTreeEntryName policy.metadataTreeEntryName) with true.
  change (String.eqb policy.rootPublicKeysTreeEntryName policy.metadataTreeEntryName)
    with false.
  change (String.eqb policy.rootPublicKeysTreeEntryName policy.rootPublicKeysTreeEntryName)
    with true.
  cbn iota. rewrite bind_Ok_l. cbn [fst snd].
  rewrite (Hlookup _ _ Hmtree), bind_Ok_l, (Hlookup _ _ Hktree), bind_Ok_l.
  rewrite Hfold, bind_Ok_l, Hfoldkeys, bind_Ok_l.
  assert (Hs : {| policy.RootEnvelope := policy.RootEnvelope s;
                  policy.TargetsEnvelope := policy.TargetsEnvelope s;
                  policy.DelegationEnvelopes := policy.DelegationEnvelopes s;
                  policy.RootPublicKeys := policy.RootPublicKeys s |} = s)
    by (by destruct s).
  rewrite Hs, Hverify. reflexivity.
Qed.

(** X21. A state that [Commit] has written is the state that
    [LoadState] reads back at the new head of the reference state log,
    and that [LoadCurrentState] reads back when the log had no entry
    before: provided that object ids do not collide, that the envelopes
    and the root keys of the state survive marshalling and unmarshalling,
    and that no delegation envelope is named as the root or the targets
    role. *)
Theorem Commit_then_LoadState (s : policy.State) (commitMessage : string) (sign : bool)
    (repo repo' : git.Repository) :
  policy.Commit X s commitMessage sign repo = (Ok tt, repo') ->
  policy.DelegationEnvelopes s !! policy.RootRoleName = None ->
  policy.DelegationEnvelopes s !! policy.TargetsRoleName = None ->
  (forall env c,
     policy.RootEnvelope s = Some env \/ policy.TargetsEnvelope s = Some env
     \/ (exists n, policy.DelegationEnvelopes s !! n = Some env) ->
     marshalEnvelope X env = inr c -> unmarshalEnvelope X c = inr env) ->
  (forall key c, key ∈ policy.RootPublicKeys s ->
     marshalKey X key = inr c -> loadKeyFromBytes X c = inr key) ->
  exists entryID,
    git.refs repo' !! rsl.Ref = Some entryID
    /\ policy.LoadState X repo' entryID = Ok s
    /\ ((forall c, hashCommit X c <> plumbing.ZeroHash) ->
        git.refs repo !! rsl.Ref = None \/ git.refs repo !! rsl.Ref = Some plumbing.ZeroHash ->
        policy.LoadCurrentState X repo' = Ok s).
Proof.
  intros H Hnr Hnt Hcodec Hkeycodec.
  pose proof (Commit_Ok_verified _ _ _ _ _ H) as Hverify.
  apply Commit_inv in H as [H|[H _]]; [| by destruct (H tt)].
  destruct H as (treeID & original & commitID & repo1 & repo2 & message
                 & Htree & Hrefs1 & Horiginal & Hcommit & Hrecord).
  apply writePolicyTree_Ok in Htree
    as (metadataEntries & keysEntries & _ & Hcommits1 & Htree & Hmtree & Hktree & Hmeta & Hkeys).
  pose proof (Commit_run_objects _ _ _ _ _ _ _ _ Hcommit) as [Hblobs2 Htrees2].
  apply Commit_Ok_parents in Hcommit
    as (policyCommit & Hid & Hmessage & Htreehash & _ & Hrefs2 & Hcommits2).
  unfold policy.recordOrReset in Hrecord.
  destruct (rsl.CommitReferenceEntry X policy.PolicyRef commitID sign repo2)
    as [[[]|e|] repo3] eqn:Hentry; [| | discriminate].
  2: { unfold gitinterface.ResetDueToError in Hrecord. discriminate. }
  inversion Hrecord; subst repo3. clear Hrecord.
  apply CommitReferenceEntry_inv in Hentry as [(entryID & _ & Hentry)|(e & He & _)];
    [| discriminate].
  pose proof (Commit_run_objects _ _ _ _ _ _ _ _ Hentry) as [Hblobs3 Htrees3].
  apply Commit_Ok_parents in Hentry
    as (entryCommit & Heid & Hemessage & _ & Heparents & Hrefs3 & Hcommits3).
  assert (Hdistinct : entryID <> commitID).
  { intros Heq. rewrite Heid, Hid in Heq. apply hashCommit_inj in Heq.
    apply (f_equal object.Message_) in Heq. simpl in Heq. congruence. }
  assert (Hload : policy.LoadStateForEntry X repo'
                    (rsl.Reference {| rsl.ID := entryID; rsl.RefName := policy.PolicyRef;
                                      rsl.TargetID := commitID |}) = Ok s).
  { apply (LoadStateForEntry_of_committed s repo' entryID commitID policyCommit
             metadataEntries keysEntries); try done.
    - rewrite Hcommits3, lookup_insert_ne by done. by rewrite Hcommits2, lookup_insert_eq.
    - by rewrite Htreehash, Htrees3, Htrees2.
    - by rewrite Htrees3, Htrees2.
    - by rewrite Htrees3, Htrees2.
    - eapply Forall2_impl; [exact Hmeta |]. simpl.
      intros file entry (Hname & c & Hc & Hhash & Hstored). split; [done |].
      exists c. by rewrite Hblobs3, Hblobs2.
    - eapply Forall2_impl; [exact Hkeys |]. simpl.
      intros key entry (c & Hc & Hhash & Hstored). exists c. by rewrite Hblobs3, Hblobs2. }
  assert (Hentryobject : rsl.GetEntry repo' entryID
                         = Ok (rsl.Reference {| rsl.ID := entryID;
                                                rsl.RefName := policy.PolicyRef;
                                                rsl.TargetID := commitID |})).
  { unfold rsl.GetEntry, git.CommitObject. rewrite Hcommits3, lookup_insert_eq, bind_Ok_l.
    unfold rsl.parseEntry. simpl. by rewrite Hemessage. }
  exists entryID. split; [by rewrite Hrefs3, lookup_insert_eq |].
  split; [unfold policy.LoadState; by rewrite Hentryobject, bind_Ok_l |].
  intros Hnonzero Hfresh.
  assert (Hnoparents : object.ParentHashes entryCommit = []).
  { rewrite Heparents, Hrefs2, lookup_insert_ne, Hrefs1 by (by intros ?).
    destruct Hfresh as [-> | ->]; done. }
  unfold policy.LoadCurrentState, rsl.GetLatestReferenceEntryForRef, rsl.log, git.Reference.
  rewrite Hrefs3, lookup_insert_eq, bind_Ok_l.
  assert (Hz : plumbing.IsZero entryID = false).
  { unfold plumbing.IsZero. apply N.eqb_neq. rewrite Heid. apply Hnonzero. }
  rewrite Hz. cbn [rsl.walk]. unfold git.CommitObject.
  rewrite Hcommits3, lookup_insert_eq, bind_Ok_l.
  unfold rsl.parseEntry. cbn [object.withHash object.Message_ object.ParentHashes object.Hash].
  rewrite Hemessage, bind_Ok_l, Hnoparents, bind_Ok_l.
  cbn [rsl.latestFor rsl.RefName]. rewrite String.eqb_refl, bind_Ok_l. exact Hload.
Qed.

(** X22. After a [Commit] that succeeded, [InitializeNamespace]
    answers [ErrPolicyExists] and leaves the repository as it is,
    commit ids never being the zero hash. *)
Theorem InitializeNamespace_after_Commit (s : policy.State) (commitMessage : string)
    (sign : bool) (repo repo' : git.Repository) :
  (forall c, hashCommit X c <> plumbing.ZeroHash) ->
  policy.Commit X s commitMessage sign repo = (Ok tt, repo') ->
  policy.InitializeNamespace repo' = (Err ErrPolicyExists, repo').
Proof.
  intros Hnonzero H.
  apply Commit_inv in H as [H|[H _]]; [| by destruct (H tt)].
  destruct H as (treeID & original & commitID & repo1 & repo2 & message
                 & _ & _ & _ & Hcommit & Hrecord).
  apply Commit_Ok in Hcommit as (policyCommit & Hid & _ & _ & Hrefs2 & _).
  unfold policy.recordOrReset in Hrecord.
  destruct (rsl.CommitReferenceEntry X policy.PolicyRef commitID sign repo2)
    as [[[]|e|] repo3] eqn:Hentry; [| | discriminate].
  2: { unfold gitinterface.ResetDueToError in Hrecord. discriminate. }
  inversion Hrecord; subst repo3.
  apply CommitReferenceEntry_inv in Hentry as [(entryID & _ & Hentry)|(e & He & _)];
    [| discriminate].
  apply Commit_Ok in Hentry as (entryCommit & _ & _ & _ & Hrefs3 & _).
  unfold policy.InitializeNamespace, git.Reference.
  rewrite Hrefs3, lookup_insert_ne, Hrefs2, lookup_insert_eq
    by (intros Heq; by apply PolicyRef_not_RSL).
  assert (Hz : plumbing.IsZero commitID = false).
  { unfold plumbing.IsZero. apply N.eqb_neq. rewrite Hid. apply Hnonzero. }
  by rewrite Hz.
Qed.

End roundtrip.

Lemma hashBlob_fixture_inj (a b : string) :
  hashBlob fixture.I a = hashBlob fixture.I b -> a = b.
Proof. intros H. injection H as H. by apply (inj encode) in H. Qed.

Lemma hashTree_fixture_inj (a b : list plumbing.TreeEntry) :
  hashTree fixture.I a = hashTree fixture.I b -> a = b.
Proof.
  intros H. injection H as H. apply (inj encode) in H. revert b H.
  induction a as [|x a IH]; intros [|y b] H; try discriminate; [done |].
  rewrite !fmap_cons in H. injection H as Hn Hm Hh H.
  apply (inj encode) in Hn, Hm, Hh.
  f_equal; [| by apply IH].
  destruct x as [n [] h], y as [n' [] h']; simpl in *; by subst.
Qed.

Lemma hashCommit_fixture_inj (a b : object.Commit) :
  hashCommit fixture.I a = hashCommit fixture.I b ->
  object.withHash plumbing.ZeroHash a = object.withHash plumbing.ZeroHash b.
Proof.
  intros H. injection H as H. apply (inj encode) in H.
  unfold fixture.commitFields in H.
  destruct a as [h [n e w] [n' e' w'] sig m t ps],
           b as [h2 [n2 e2 w2] [n2' e2' w2'] sig2 m2 t2 ps2].
  cbn [object.TreeHash object.ParentHashes object.PGPSignature object.Author
       object.Committer object.Message_ app] in H.
  injection H as Ht Hps Hsig Ha Hc Hm.
  apply (inj encode) in Ht, Hps, Hsig, Ha, Hc.
  unfold fixture.signatureFields in Ha, Hc.
  cbn [object.Name object.Email object.When] in Ha, Hc.
  injection Ha as Hn He Hw. injection Hc as Hn' He' Hw'.
  apply (inj encode) in Hn, He, Hw, Hn', He', Hw'. subst.
  unfold object.withHash. cbn. f_equal.
  destruct m, m2; cbn in Hm; try discriminate.
  - injection Hm as Hs. apply (inj encode) in Hs. by subst.
  - injection Hm as Hr Ht. apply (inj encode) in Hr, Ht. by subst.
  - injection Hm as Hi Hs Hg. apply (inj encode) in Hi, Hs, Hg. by subst.
Qed.

Lemma hashCommit_fixture_nonzero (c : object.Commit) :
  hashCommit fixture.I c <> plumbing.ZeroHash.
Proof. discriminate. Qed.

Lemma fixture_codecs (s : policy.State) :
  (forall env, policy.RootEnvelope s = Some env \/ policy.TargetsEnvelope s = Some env
               \/ (exists n, policy.DelegationEnvelopes s !! n = Some env) ->
               env ∈ fixture.envelopes) ->
  forall env c,
    policy.RootEnvelope s = Some env \/ policy.TargetsEnvelope s = Some env
    \/ (exists n, policy.DelegationEnvelopes s !! n = Some env) ->
    marshalEnvelope fixture.I env = inr c -> unmarshalEnvelope fixture.I c = inr env.
Proof.
  intros Hknown env c Henv Hc. apply Hknown in Henv.
  assert (c = sslibdsse.Payload env) as -> by (simpl in Hc; congruence).
  unfold fixture.envelopes in Henv.
  repeat (apply elem_of_cons in Henv as [->|Henv]; [vm_compute; reflexivity |]).
  by apply elem_of_nil in Henv.
Qed.

(** The first policy commit under these ids succeeds. *)
Lemma committed_run :
  policy.Commit fixture.I fixture.stateWithDelegatedMain "First state" false
    fixture.initialized = (Ok tt, fixture.committed).
Proof.
  assert (H : fst (policy.Commit fixture.I fixture.stateWithDelegatedMain "First state" false
                     fixture.initialized) = Ok tt) by (vm_compute; reflexivity).
  unfold fixture.committed, fixture.run. rewrite <- H. apply surjective_pairing.
Defined.

Lemma Commit_then_LoadState_witness :
  exists entryID,
    git.refs fixture.committed !! rsl.Ref = Some entryID
    /\ policy.LoadState fixture.I fixture.committed entryID
       = Ok fixture.stateWithDelegatedMain
    /\ policy.LoadCurrentState fixture.I fixture.committed
       = Ok fixture.stateWithDelegatedMain.
Proof.
  destruct (Commit_then_LoadState fixture.I hashBlob_fixture_inj hashTree_fixture_inj
              hashCommit_fixture_inj fixture.stateWithDelegatedMain "First state" false
              fixture.initialized fixture.committed)
    as (entryID & Href & Hload & Hcurrent).
  - exact committed_run.
  - vm_compute. reflexivity.
  - vm_compute. reflexivity.
  - apply fixture_codecs. intros env [Henv|[Henv|[n Henv]]].
    + assert (env = fixture.signed "root" [fixture.rootKey]) as ->
        by (cbn in Henv; congruence).
      left.
    + assert (env = fixture.signed "targets-main" [fixture.rootKey]) as ->
        by (cbn in Henv; congruence).
      right. left.
    + change (policy.DelegationEnvelopes fixture.stateWithDelegatedMain)
        with ({[ "main" := fixture.signed "main-children" [fixture.gpgKey] ]}
              : gmap string sslibdsse.Envelope) in Henv.
      apply lookup_singleton_Some in Henv as [_ <-]. do 3 right. left.
  - intros key c Hkey Hc.
    change (policy.RootPublicKeys fixture.stateWithDelegatedMain) with [fixture.rootKey] in Hkey.
    apply list_elem_of_singleton in Hkey as ->.
    assert (c = "root-key") as -> by (vm_compute in Hc; congruence).
    vm_compute. reflexivity.
  - exists entryID. split; [exact Href |]. split; [exact Hload |].
    apply Hcurrent; [apply hashCommit_fixture_nonzero |]. left. vm_compute. reflexivity.
Defined.

Lemma InitializeNamespace_after_Commit_witness :
  policy.InitializeNamespace fixture.committed = (Err ErrPolicyExists, fixture.committed).
Proof.
  apply (InitializeNamespace_after_Commit fixture.I fixture.stateWithDelegatedMain
           "First state" false fixture.initialized fixture.committed
           hashCommit_fixture_nonzero).
  exact committed_run.
Defined.

Lemma loaded_states_pass_Verify_witness :
  policy.LoadCurrentState fixture.X fixture.repo1 = Ok fixture.stateWithPolicy
  /\ policy.Verify fixture.X fixture.stateWithPolicy = Ok tt.
Proof.
  assert (H : policy.LoadCurrentState fixture.X fixture.repo1 = Ok fixture.stateWithPolicy)
    by (vm_compute; reflexivity).
  split; [exact H |].
  destruct (loaded_states_pass_Verify fixture.X fixture.repo1 fixture.stateWithPolicy)
    as (_ & _ & Hcurrent & _).
  exact (Hcurrent H).
Defined.

Lemma Commit_writes_verified_states_only_witness :
  policy.Commit fixture.X fixture.stateWithoutRootKeys "Second state" false fixture.repo1
  = (Err ErrBelowThreshold, fixture.repo1).
Proof.
  destruct (Commit_writes_verified_states_only fixture.X fixture.stateWithoutRootKeys
              "Second state" false fixture.repo1
              (snd (policy.Commit fixture.X fixture.stateWithoutRootKeys "Second state" false
                      fixture.repo1))
              (fst (policy.Commit fixture.X fixture.stateWithoutRootKeys "Second state" false
                      fixture.repo1)))
    as (Herr & _); [apply surjective_pairing |].
  destruct (Herr ErrBelowThreshold) as [Hr Hrepo]; [vm_compute; reflexivity |].
  rewrite (surjective_pairing (policy.Commit fixture.X fixture.stateWithoutRootKeys
                                 "Second state" false fixture.repo1)).
  by rewrite Hr, Hrepo.
Defined.

(** ** Policies without delegated metadata *)

Section flat.
Context (X : Ext).

(** The loop of [FindPublicKeysForPath] on a queue in which no
    delegation has delegated metadata. *)
Lemma findLoop_flat s path allPublicKeys queue :
  (forall d, d ∈ queue -> policy.HasTargetsRole s (tuf.Name d) = false) ->
  forall fuel trustedKeys, (0 < fuel)%nat -> (length queue <= fuel)%nat ->
    policy.findLoop X fuel s path allPublicKeys queue trustedKeys
    = Some (Ok (trustedKeys
                ++ concat ((fun d => policy.keyOf allPublicKeys <$> tuf.KeyIDs (tuf.DRole d))
                           <$> List.filter (fun d => policy.Matches X d path)
                                 (removelast queue)))).
Proof.
  induction queue as [|d queue IH]; intros Hflat fuel trustedKeys Hpos Hfuel.
  - destruct fuel; [lia |]. simpl. by rewrite app_nil_r.
  - destruct fuel as [|fuel]; [lia |]. destruct queue as [|next queue].
    + simpl. by rewrite app_nil_r.
    + assert (Hrest : forall d', d' ∈ next :: queue ->
                policy.HasTargetsRole s (tuf.Name d') = false).
      { intros d' Hin. apply Hflat. by right. }
      change (removelast (d :: next :: queue)) with (d :: removelast (next :: queue)).
      cbn [List.filter].
      destruct (policy.Matches X d path) eqn:Hmatch.
      * rewrite findLoop_leaf by (done || (apply Hflat; left)).
        rewrite IH by (done || (simpl in *; lia)).
        rewrite fmap_cons. cbn [concat]. by rewrite app_assoc.
      * rewrite findLoop_skip by done.
        by rewrite IH by (done || (simpl in *; lia)).
Qed.

(** X23. In a state that passes [Verify] and whose top-level
    delegations have no delegated metadata, [FindPublicKeysForPath]
    returns, after at most as many turns as there are delegations, the
    keys of the delegations that match the path, in the order of the
    delegations and of their key ids, the last delegation left out. *)
Theorem FindPublicKeysForPath_without_delegated_metadata (s : policy.State) (path : string)
    (top : tuf.TargetsMetadata) (delegations : tuf.Delegations) (fuel : nat) :
  policy.Verify X s = Ok tt ->
  policy.GetTargetsMetadata X s policy.TargetsRoleName = Ok top ->
  tuf.Delegations_ top = Some delegations ->
  (forall d, d ∈ tuf.Roles delegations -> policy.HasTargetsRole s (tuf.Name d) = false) ->
  (0 < fuel)%nat -> (length (tuf.Roles delegations) <= fuel)%nat ->
  policy.FindPublicKeysForPath X fuel s path
  = Some (Ok (concat ((fun d => policy.keyOf (tuf.Keys delegations)
                                  <$> tuf.KeyIDs (tuf.DRole d))
                      <$> List.filter (fun d => policy.Matches X d path)
                            (removelast (tuf.Roles delegations))))).
Proof.
  intros Hverify Htop Hds Hflat Hpos Hfuel.
  unfold policy.FindPublicKeysForPath. rewrite Hverify, Htop, Hds.
  by rewrite findLoop_flat.
Qed.

End flat.

Lemma FindPublicKeysForPath_without_delegated_metadata_witness :
  policy.FindPublicKeysForPath fixture.X 3 fixture.stateWithTerminatingMain
    "git:refs/heads/main"
  = Some (Ok [Some fixture.gpgKey; Some fixture.devKey]).
Proof.
  rewrite (FindPublicKeysForPath_without_delegated_metadata fixture.X
             fixture.stateWithTerminatingMain "git:refs/heads/main"
             (fixture.targets [fixture.gpgKey; fixture.devKey]
                [fixture.delegation "main" ["git:refs/heads/main"] ["gpg-key"] true;
                 fixture.delegation "fallback" ["git:refs/heads/*"] ["dev-key"] false;
                 fixture.allowRule])
             (fixture.delegationsOf "targets-terminating") 3).
  - vm_compute. reflexivity.
  - vm_compute. reflexivity.
  - vm_compute. reflexivity.
  - reflexivity.
  - intros d Hd. vm_compute in Hd.
    repeat (apply elem_of_cons in Hd as [->|Hd]; [vm_compute; reflexivity |]).
    by apply elem_of_nil in Hd.
  - lia.
  - vm_compute. lia.
Defined.

(** ** The policy commit *)

Section policycommit.
Context (X : Ext).
Hypothesis hashCommit_inj : forall a b,
  hashCommit X a = hashCommit X b ->
  object.withHash plumbing.ZeroHash a = object.withHash plumbing.ZeroHash b.

(** X24. The commit that a successful [Commit] leaves at the policy
    reference carries the message given, or [DefaultCommitMessage] when
    the message given is empty; its tree is the policy tree of the state;
    its only parent is the commit the policy reference held before, and it
    has no parent when that was the zero hash. Commit ids are taken not
    to collide. *)
Theorem Commit_policy_commit (s : policy.State) (commitMessage : string) (sign : bool)
    (repo repo' : git.Repository) :
  policy.Commit X s commitMessage sign repo = (Ok tt, repo') ->
  exists original commitID commit,
    git.refs repo !! policy.PolicyRef = Some original
    /\ git.refs repo' !! policy.PolicyRef = Some commitID
    /\ git.CommitObject repo' commitID = Ok (object.withHash commitID commit)
    /\ object.Message_ commit
       = object.Text (if (String.length commitMessage =? 0)%nat
                      then policy.DefaultCommitMessage else commitMessage)
    /\ Ok (object.TreeHash commit) = fst (policy.writePolicyTree X s repo)
    /\ object.ParentHashes commit = (if plumbing.IsZero original then [] else [original]).
Proof.
  unfold policy.Commit. intros H.
  apply M_bind_inv in H as [(u & repo0 & Hv & H)|[(e & _ & ?)|[_ ?]]];
    [| discriminate | discriminate].
  unfold git.pure in Hv. injection Hv as _ <-.
  pose proof (keepsRefs_writePolicyTree X s repo) as Hk.
  apply M_bind_inv in H as [(treeID & repo1 & Htree & H)|[(e & _ & ?)|[_ ?]]];
    [| discriminate | discriminate].
  rewrite Htree in Hk. simpl in Hk.
  apply M_bind_inv in H as [(original & repo1' & Href & H)|[(e & _ & ?)|[_ ?]]];
    [| discriminate | discriminate].
  unfold git.read in Href. injection Href as Href <-.
  assert (Horiginal : git.refs repo1 !! policy.PolicyRef = Some original).
  { unfold git.Reference in Href. destruct (git.refs repo1 !! policy.PolicyRef); by inversion Href. }
  apply M_bind_inv in H as [(commitID & repo2 & Hcommit & H)|[(e & _ & ?)|[_ ?]]];
    [| discriminate | discriminate].
  apply Commit_Ok_parents in Hcommit
    as (commit & Hid & Hmessage & Htreehash & Hparents & Hrefs2 & Hcommits2).
  rewrite Horiginal in Hparents.
  unfold policy.recordOrReset in H.
  destruct (rsl.CommitReferenceEntry X policy.PolicyRef commitID sign repo2)
    as [[[]|e|] repo3] eqn:Hentry; [| | discriminate].
  2: { unfold gitinterface.ResetDueToError in H. discriminate. }
  inversion H; subst repo3. clear H.
  apply CommitReferenceEntry_inv in Hentry as [(entryID & _ & Hentry)|(e & He & _)];
    [| discriminate].
  apply Commit_Ok_parents in Hentry
    as (entryCommit & Heid & Hemessage & _ & _ & Hrefs3 & Hcommits3).
  assert (Hdistinct : entryID <> commitID).
  { intros Heq. rewrite Heid, Hid in Heq. apply hashCommit_inj in Heq.
    apply (f_equal object.Message_) in Heq. simpl in Heq. congruence. }
  exists original, commitID, commit.
  split; [by rewrite <- Hk |].
  split; [rewrite Hrefs3, lookup_insert_ne, Hrefs2, lookup_insert_eq;
          [done | intros Heq; by apply PolicyRef_not_RSL] |].
  split; [unfold git.CommitObject;
          by rewrite Hcommits3, lookup_insert_ne, Hcommits2, lookup_insert_eq |].
  split; [done |]. split; [by rewrite Htree, Htreehash | done].
Qed.

End policycommit.

Lemma Commit_policy_commit_witness :
  exists commitID commit,
    git.refs fixture.committed !! policy.PolicyRef = Some commitID
    /\ git.CommitObject fixture.committed commitID = Ok (object.withHash commitID commit)
    /\ object.Message_ commit = object.Text "First state"
    /\ object.ParentHashes commit = [].
Proof.
  destruct (Commit_policy_commit fixture.I hashCommit_fixture_inj
              fixture.stateWithDelegatedMain "First state" false
              fixture.initialized fixture.committed committed_run)
    as (original & commitID & commit & Horiginal & Href & Hobject & Hmessage & _ & Hparents).
  assert (Hzero : git.refs fixture.initialized !! policy.PolicyRef = Some plumbing.ZeroHash)
    by (vm_compute; reflexivity).
  assert (original = plumbing.ZeroHash) as -> by congruence.
  exists commitID, commit. split; [exact Href |]. split; [exact Hobject |].
  split; [exact Hmessage | exact Hparents].
Defined.
